(** * Infiniband General Management Agent (src/net/infiniband/ib_gma.c)

    A shallow embedding of the request/response engine of the GMA: the
    handler lookup [ib_handle_mad], the completion handlers
    [ib_gma_complete_recv] and [ib_gma_complete_send], the retry-timer
    callback [ib_gma_timer_expired], the request entry point
    [ib_gma_request], and [ib_create_gma] and [ib_destroy_gma]; and, at
    the end of the definitions, of the AoE boot sequence of
    src/usr/aoeboot.c.

    The C code works on heap objects through pointers, so the model keeps
    a store of typed objects indexed by address, the process-wide counter
    [next_request_tid], and a chronological trace of the calls made to the
    external collaborators (timer subsystem, allocator, transport, debug
    log, attribute handlers).  A computation that dereferences a dangling
    pointer or stores outside an array has no result ([None]). *)

From Stdlib Require Import Ascii.
From stdpp Require Import base numbers option list strings gmap.

Local Open Scope Z_scope.

(** ** Byte order and raw memory *)

(** Modelled from the spec: byteswap.h is not among the sources.  gPXE
    runs on little-endian x86, where [htons]/[htonl] swap the bytes of a
    16/32-bit value so that its memory image is in network byte order. *)
Definition bswap_16 (v : Z) : Z :=
  Z.lor (Z.shiftl (Z.land v 255) 8) (Z.land (Z.shiftr v 8) 255).

Definition bswap_32 (v : Z) : Z :=
  Z.lor (Z.lor (Z.shiftl (Z.land v 255) 24)
               (Z.shiftl (Z.land (Z.shiftr v 8) 255) 16))
        (Z.lor (Z.shiftl (Z.land (Z.shiftr v 16) 255) 8)
               (Z.land (Z.shiftr v 24) 255)).

Definition htons (v : Z) : Z := bswap_16 v.
Definition ntohs (v : Z) : Z := bswap_16 v.
Definition htonl (v : Z) : Z := bswap_32 v.
Definition ntohl (v : Z) : Z := bswap_32 v.

(** Memory image of a stored 16/32-bit value (lowest address first). *)
Definition u16_bytes (v : Z) : list Z :=
  [Z.land v 255; Z.land (Z.shiftr v 8) 255].

Definition u32_bytes (v : Z) : list Z :=
  [Z.land v 255; Z.land (Z.shiftr v 8) 255;
   Z.land (Z.shiftr v 16) 255; Z.land (Z.shiftr v 24) 255].

(** [memcmp] over two memory images of the same length: the difference
    of the first pair of bytes that differ, 0 when there is none. *)
Fixpoint memcmp (a b : list Z) : Z :=
  match a, b with
  | x :: a', y :: b' => if x =? y then memcmp a' b' else x - y
  | _, _ => 0
  end.

(** ** Data model *)

(** Non-null pointers. *)
Abbreviation addr := positive (only parsing).

(** Directed-route view of [union ib_mad_class_specific]. *)
Record ib_smp_class_specific := {
  hop_pointer : Z;   (* uint8_t *)
  hop_count : Z;     (* uint8_t *)
}.

(** [struct ib_mad_hdr]; multi-byte fields hold the value as stored,
    that is in network byte order. *)
Record ib_mad_hdr := {
  base_version : Z;     (* uint8_t *)
  mgmt_class : Z;       (* uint8_t *)
  class_version : Z;    (* uint8_t *)
  method : Z;           (* uint8_t *)
  status : Z;           (* uint16_t *)
  class_specific : ib_smp_class_specific;
  tid : Z * Z;          (* uint32_t tid[2] *)
  attr_id : Z;          (* uint16_t *)
  attr_mod : Z;         (* uint32_t *)
}.

(** [union ib_mad]: the common header, the directed-route return path
    ([smp.return_path.hops]) and the bytes in between, which this file
    only copies. *)
Record ib_mad := {
  hdr : ib_mad_hdr;
  mad_data : list Z;
  return_path_hops : list Z;   (* uint8_t hops[] *)
}.

(** [struct ib_address_vector]: the fields the agent names, and the rest
    of the structure, which it only copies. *)
Record ib_address_vector := {
  av_qpn : Z;
  av_qkey : Z;
  av_lid : Z;
  av_rate : Z;
  av_sl : Z;
  av_rest : list Z;
}.

(** [struct ib_device], read-only here. *)
Record ib_device := {
  port : Z;      (* unsigned int *)
  sm_lid : Z;
  sm_sl : Z;
}.

(** [struct io_buffer]: the length of the data and the data seen through
    the cast [mad = iobuf->data]; the code looks at the data only once
    the length is known to be that of a MAD. *)
Record io_buffer := {
  iob_len : Z;
  iob_data : ib_mad;
}.

(** An entry of the [IB_MAD_HANDLERS] linker table.  The handler gets
    the device and the MAD, rewrites the MAD in place and returns a
    status code. *)
Record ib_mad_handler := {
  handler_mgmt_class : Z;
  handler_class_version : Z;
  handler_method : Z;
  handler_attr_id : Z;
  resp_method : Z;
  handle : ib_device → ib_mad → ib_mad * Z;
}.

(** State of a [struct retry_timer] as the agent drives it. *)
Inductive timer_state :=
| timer_stopped
| timer_running
| timer_running_nodelay.

Inductive timer_callback :=
| cb_ib_gma_timer_expired.

Record retry_timer := {
  timer_st : timer_state;
  expired : option timer_callback;
}.

(** [struct ib_mad_request]; the [list] member is the membership of the
    request's address in its agent's [requests]. *)
Record ib_mad_request := {
  req_gma : option addr;   (* NULL until set *)
  req_timer : retry_timer;
  req_av : ib_address_vector;
  req_mad : ib_mad;
}.

(** [struct ib_gma]: queue pair and completion queue are opaque handles
    (0 is the null pointer); [requests] is the list headed by
    [gma->requests], in list order. *)
Record ib_gma := {
  gma_ibdev : ib_device;
  gma_cq : Z;
  gma_qp : Z;
  requests : list addr;
}.

(** [struct ib_queue_pair]: its handle and the owner data set by
    [ib_qp_set_ownerdata]. *)
Record ib_queue_pair := {
  qp_handle : Z;
  qp_ownerdata : addr;
}.

Inductive object :=
| ObjMad (m : ib_mad)
| ObjAv (a : ib_address_vector)
| ObjRequest (r : ib_mad_request)
| ObjGma (g : ib_gma).

(** The [DBGC] messages of the file, by the place that prints them. *)
Inductive dbg_message :=
| dbg_rx_error
| dbg_rx_bad_size
| dbg_unsupported_base_version
| dbg_rx_tid
| dbg_could_not_handle
| dbg_tx_tid
| dbg_invalid_hop_pointer
| dbg_could_not_send_response
| dbg_send_completion_error
| dbg_abandoning_tid
| dbg_could_not_allocate_buffer
| dbg_could_not_send_tid
| dbg_could_not_allocate_request
| dbg_could_not_allocate_cq
| dbg_could_not_allocate_qp
| dbg_running_on_qpn.

(** Calls that leave the file. *)
Inductive event :=
| ev_dbgc (m : dbg_message)
| ev_assert_failed
| ev_start_timer (t : addr)
| ev_start_timer_nodelay (t : addr)
| ev_stop_timer (t : addr)
| ev_zalloc (p : option addr)
| ev_free (p : addr)
| ev_alloc_iob (ok : bool)
| ev_free_iob (b : io_buffer)
| ev_handle (h : ib_mad_handler) (ibdev : ib_device) (mad : ib_mad)
| ev_ib_post_send (ibdev : ib_device) (qp : Z)
                  (av : ib_address_vector) (b : io_buffer) (rc : Z)
| ev_ib_create_cq (ibdev : ib_device) (num_cqes : Z) (cq : Z)
| ev_ib_create_qp (ibdev : ib_device) (num_send_wqes : Z) (send_cq : Z)
                  (num_recv_wqes : Z) (recv_cq : Z) (qkey : Z) (qp : Z)
| ev_ib_destroy_qp (ibdev : ib_device) (qp : Z)
| ev_ib_destroy_cq (ibdev : ib_device) (cq : Z)
| ev_ib_qp_set_ownerdata (qp : Z) (gma : addr)
| ev_ib_refill_recv (ibdev : ib_device) (qp : Z).

Record machine := {
  heap : gmap addr object;
  next_request_tid : Z;      (* static unsigned int *)
  trace : list event;
}.

(** Constants and the handler table come from headers and objects that
    are not part of this file. *)
Class ib_environment := {
  sizeof_ib_mad : Z;
  ib_mad_data_len : nat;
  ib_smp_num_hops : nat;   (* number of elements of return_path.hops *)
  ib_av_rest_len : nat;
  IB_MGMT_BASE_VERSION : Z;
  IB_MGMT_CLASS_SUBN_DIRECTED_ROUTE : Z;
  IB_MGMT_METHOD_TRAP : Z;
  IB_MGMT_STATUS_UNSUPPORTED_METHOD_ATTR : Z;
  IB_SMP_STATUS_D_INBOUND : Z;
  IB_QPN_SMA : Z;
  IB_QPN_GMA : Z;
  IB_QKEY_SMA : Z;
  IB_QKEY_GMA : Z;
  IB_RATE_2_5 : Z;
  ENOTSUP : Z;
  ENOMEM : Z;
  IB_MAD_HANDLERS : list ib_mad_handler;
}.

(** ** Field updates *)

Definition set_method (v : Z) (h : ib_mad_hdr) : ib_mad_hdr :=
  {| base_version := base_version h; mgmt_class := mgmt_class h;
     class_version := class_version h; method := v; status := status h;
     class_specific := class_specific h; tid := tid h;
     attr_id := attr_id h; attr_mod := attr_mod h |}.

Definition set_status (v : Z) (h : ib_mad_hdr) : ib_mad_hdr :=
  {| base_version := base_version h; mgmt_class := mgmt_class h;
     class_version := class_version h; method := method h; status := v;
     class_specific := class_specific h; tid := tid h;
     attr_id := attr_id h; attr_mod := attr_mod h |}.

Definition set_tid (v : Z * Z) (h : ib_mad_hdr) : ib_mad_hdr :=
  {| base_version := base_version h; mgmt_class := mgmt_class h;
     class_version := class_version h; method := method h;
     status := status h; class_specific := class_specific h; tid := v;
     attr_id := attr_id h; attr_mod := attr_mod h |}.

Definition with_hdr (f : ib_mad_hdr → ib_mad_hdr) (m : ib_mad) : ib_mad :=
  {| hdr := f (hdr m); mad_data := mad_data m;
     return_path_hops := return_path_hops m |}.

Definition set_return_path_hops (l : list Z) (m : ib_mad) : ib_mad :=
  {| hdr := hdr m; mad_data := mad_data m; return_path_hops := l |}.

Definition set_qkey (v : Z) (a : ib_address_vector) : ib_address_vector :=
  {| av_qpn := av_qpn a; av_qkey := v; av_lid := av_lid a;
     av_rate := av_rate a; av_sl := av_sl a; av_rest := av_rest a |}.

Definition set_rate (v : Z) (a : ib_address_vector) : ib_address_vector :=
  {| av_qpn := av_qpn a; av_qkey := av_qkey a; av_lid := av_lid a;
     av_rate := v; av_sl := av_sl a; av_rest := av_rest a |}.

Definition set_iob_data (m : ib_mad) (b : io_buffer) : io_buffer :=
  {| iob_len := iob_len b; iob_data := m |}.

Definition set_req_timer (t : retry_timer) (r : ib_mad_request) : ib_mad_request :=
  {| req_gma := req_gma r; req_timer := t; req_av := req_av r;
     req_mad := req_mad r |}.

Definition set_req_gma (g : option addr) (r : ib_mad_request) : ib_mad_request :=
  {| req_gma := g; req_timer := req_timer r; req_av := req_av r;
     req_mad := req_mad r |}.

Definition set_req_av (a : ib_address_vector) (r : ib_mad_request) : ib_mad_request :=
  {| req_gma := req_gma r; req_timer := req_timer r; req_av := a;
     req_mad := req_mad r |}.

Definition set_req_mad (m : ib_mad) (r : ib_mad_request) : ib_mad_request :=
  {| req_gma := req_gma r; req_timer := req_timer r; req_av := req_av r;
     req_mad := m |}.

Definition set_requests (l : list addr) (g : ib_gma) : ib_gma :=
  {| gma_ibdev := gma_ibdev g; gma_cq := gma_cq g; gma_qp := gma_qp g;
     requests := l |}.

(** ** The monad of the model: state, and no result on undefined behaviour *)

Definition M (A : Type) : Type := machine → option (A * machine).

#[global] Instance M_ret : MRet M := λ A (x : A) st, Some (x, st).

#[global] Instance M_bind : MBind M := λ A B (f : A → M B) (m : M A) st,
  match m st with
  | Some (x, st') => f x st'
  | None => None
  end.

Definition undefined {A : Type} : M A := λ _, None.

Definition emit (e : event) : M unit := λ st,
  Some ((), {| heap := heap st; next_request_tid := next_request_tid st;
               trace := trace st ++ [e] |}).

Definition DBGC (m : dbg_message) : M unit := emit (ev_dbgc m).

Definition load (p : addr) : M object := λ st,
  match heap st !! p with
  | Some o => Some (o, st)
  | None => None
  end.

(** A store through a pointer to a live object. *)
Definition store (p : addr) (o : object) : M unit := λ st,
  match heap st !! p with
  | Some _ => Some ((), {| heap := <[p := o]> (heap st);
                           next_request_tid := next_request_tid st;
                           trace := trace st |})
  | None => None
  end.

Definition load_request (p : addr) : M ib_mad_request :=
  o ← load p;
  match o with ObjRequest r => mret r | _ => undefined end.

Definition load_gma (p : addr) : M ib_gma :=
  o ← load p;
  match o with ObjGma g => mret g | _ => undefined end.

Definition load_mad (p : addr) : M ib_mad :=
  o ← load p;
  match o with ObjMad m => mret m | _ => undefined end.

Definition load_av (p : addr) : M ib_address_vector :=
  o ← load p;
  match o with ObjAv a => mret a | _ => undefined end.

Definition modify_request (p : addr) (f : ib_mad_request → ib_mad_request) : M unit :=
  r ← load_request p;
  store p (ObjRequest (f r)).

(** ** External collaborators *)

(** Modelled from the spec: retry.h is not among the sources.  The
    timer subsystem arms a timer with backoff ([start_timer]) or with no
    delay ([start_timer_nodelay]) and disarms it ([stop_timer]); a timer
    is addressed through the request that embeds it ([container_of]). *)
Definition set_timer_state (s : timer_state) (r : ib_mad_request) : ib_mad_request :=
  set_req_timer {| timer_st := s; expired := expired (req_timer r) |} r.

Definition start_timer (t : addr) : M unit :=
  modify_request t (set_timer_state timer_running);;
  emit (ev_start_timer t).

Definition start_timer_nodelay (t : addr) : M unit :=
  modify_request t (set_timer_state timer_running_nodelay);;
  emit (ev_start_timer_nodelay t).

Definition stop_timer (t : addr) : M unit :=
  modify_request t (set_timer_state timer_stopped);;
  emit (ev_stop_timer t).

(** Modelled from the spec: list.h is not among the sources.  The
    requests of an agent form an intrusive doubly-linked list;
    [list_add] links a node right after the head, [list_del] unlinks a
    node from the list it is on. *)
Definition list_add (node : addr) (head : addr) : M unit :=
  g ← load_gma head;
  store head (ObjGma (set_requests (node :: requests g) g)).

Fixpoint unlink (node : addr) (l : list addr) : list addr :=
  match l with
  | [] => []
  | x :: l' => if decide (x = node) then l' else x :: unlink node l'
  end.

Definition unlink_in (node : addr) (o : object) : object :=
  match o with
  | ObjGma g => ObjGma (set_requests (unlink node (requests g)) g)
  | _ => o
  end.

Definition list_del (node : addr) : M unit := λ st,
  Some ((), {| heap := unlink_in node <$> heap st;
               next_request_tid := next_request_tid st;
               trace := trace st |}).

(** Modelled from the spec: stdlib.h is not among the sources.
    Whether [zalloc] succeeds, and at which address, is decided outside
    the file: [res] is that answer; the block is zeroed and was not in
    use. *)
Section zero.
Context `{ib_environment}.

Definition zero_hdr : ib_mad_hdr :=
  {| base_version := 0; mgmt_class := 0; class_version := 0; method := 0;
     status := 0; class_specific := {| hop_pointer := 0; hop_count := 0 |};
     tid := (0, 0); attr_id := 0; attr_mod := 0 |}.

Definition zero_mad : ib_mad :=
  {| hdr := zero_hdr; mad_data := replicate ib_mad_data_len 0;
     return_path_hops := replicate ib_smp_num_hops 0 |}.

Definition zero_av : ib_address_vector :=
  {| av_qpn := 0; av_qkey := 0; av_lid := 0; av_rate := 0; av_sl := 0;
     av_rest := replicate ib_av_rest_len 0 |}.

Definition zero_request : ib_mad_request :=
  {| req_gma := None;
     req_timer := {| timer_st := timer_stopped; expired := None |};
     req_av := zero_av; req_mad := zero_mad |}.

Definition zalloc (res : option addr) : M (option addr) := λ st,
  match res with
  | None =>
      Some (None, {| heap := heap st;
                     next_request_tid := next_request_tid st;
                     trace := trace st ++ [ev_zalloc None] |})
  | Some p =>
      match heap st !! p with
      | None =>
          Some (Some p, {| heap := <[p := ObjRequest zero_request]> (heap st);
                           next_request_tid := next_request_tid st;
                           trace := trace st ++ [ev_zalloc (Some p)] |})
      | Some _ => None
      end
  end.
End zero.

Definition free (p : addr) : M unit := λ st,
  match heap st !! p with
  | Some _ => Some ((), {| heap := delete p (heap st);
                           next_request_tid := next_request_tid st;
                           trace := trace st ++ [ev_free p] |})
  | None => None
  end.

(** Modelled from the spec: iobuf.h is not among the sources.
    [alloc_iob] may fail, which is decided outside the file ([ok]);
    [iob_put] makes room at the end of the data; [free_iob] accepts a
    null pointer; [iob_disown] is the transfer of ownership: it hands the
    pointer over and nulls the caller's variable, so that the caller
    cannot release what it has given away. *)
Definition alloc_iob `{ib_environment} (ok : bool) : M (option io_buffer) :=
  emit (ev_alloc_iob ok);;
  mret (if ok then Some {| iob_len := 0; iob_data := zero_mad |} else None).

Definition iob_put (b : io_buffer) (len : Z) : io_buffer :=
  {| iob_len := iob_len b + len; iob_data := iob_data b |}.

Definition free_iob (iobuf : option io_buffer) : M unit :=
  match iobuf with
  | Some b => emit (ev_free_iob b)
  | None => mret ()
  end.

Definition iob_disown (iobuf : option io_buffer)
  : option io_buffer * option io_buffer := (iobuf, None).

(** Modelled from the spec: infiniband.h is not among the sources.  The
    transport either accepts a buffer at once or refuses it at once; the
    status code [ib_post_send] returns is decided outside the file: [rc]
    is that answer. *)
Definition ib_post_send (ibdev : ib_device) (qp : Z) (av : ib_address_vector)
    (iobuf : option io_buffer) (rc : Z) : M Z :=
  match iobuf with
  | Some b => emit (ev_ib_post_send ibdev qp av b rc);; mret rc
  | None => undefined
  end.

(** Modelled from the spec: assert.h is not among the sources.  The
    invariant of line 189 is asserted, not recovered from: gPXE's
    [assert] prints a message when the condition fails and carries on. *)
Definition assert (c : bool) : M unit :=
  if c then mret () else emit ev_assert_failed.

(** A store into an array: outside its bounds there is no result. *)
Definition array_store (l : list Z) (i : Z) (v : Z) : M (list Z) :=
  if (0 <=? i) && (i <? Z.of_nat (length l))
  then mret (<[Z.to_nat i := v]> l)
  else undefined.

(** ** The agent *)

Section gma.
Context `{ib_environment}.

(** GMA TID magic signature *)
Definition IB_GMA_TID_MAGIC : Z :=
  Z.lor (Z.lor (Z.lor (Z.shiftl (Z.of_N (N_of_ascii "g"%char)) 24)
                      (Z.shiftl (Z.of_N (N_of_ascii "P"%char)) 16))
               (Z.shiftl (Z.of_N (N_of_ascii "X"%char)) 8))
        (Z.of_N (N_of_ascii "E"%char)).

(** [++next_request_tid] on an [unsigned int] of 32 bits. *)
Definition incr_next_request_tid : M Z := λ st,
  let n := (next_request_tid st + 1) mod 2 ^ 32 in
  Some (n, {| heap := heap st; next_request_tid := n; trace := trace st |}).

(** The comparison of one table entry with the header (lines 92-95). *)
Definition handler_matches (handler : ib_mad_handler) (h : ib_mad_hdr) : bool :=
  (handler_mgmt_class handler =? mgmt_class h) &&
  (handler_class_version handler =? class_version h) &&
  (handler_method handler =? method h) &&
  (handler_attr_id handler =? attr_id h).

(** [ib_handle_mad] from a given place of the table on.  The MAD is
    rewritten in place: the result is its new content and the status. *)
Fixpoint ib_handle_mad_from (table : list ib_mad_handler)
    (ibdev : ib_device) (mad : ib_mad) : M (ib_mad * Z) :=
  match table with
  | handler :: table' =>
      if handler_matches handler (hdr mad) then
        let mad := with_hdr (set_method (resp_method handler)) mad in
        emit (ev_handle handler ibdev mad);;
        mret (handle handler ibdev mad)
      else ib_handle_mad_from table' ibdev mad
  | [] =>
      let mad := with_hdr (set_method IB_MGMT_METHOD_TRAP) mad in
      let mad := with_hdr
        (set_status (htons IB_MGMT_STATUS_UNSUPPORTED_METHOD_ATTR)) mad in
      mret (mad, - ENOTSUP)
  end.

Definition ib_handle_mad (ibdev : ib_device) (mad : ib_mad) : M (ib_mad * Z) :=
  ib_handle_mad_from IB_MAD_HANDLERS ibdev mad.

(** The eight bytes of [hdr.tid] in memory. *)
Definition tid_bytes (t : Z * Z) : list Z := u32_bytes t.1 ++ u32_bytes t.2.

(** Dequeue request if applicable (lines 154-163): the walk over
    [gma->requests] from a given node on. *)
Fixpoint dequeue_request (nodes : list addr) (t : Z * Z) : M unit :=
  match nodes with
  | [] => mret ()
  | request :: nodes' =>
      r ← load_request request;
      if memcmp (tid_bytes (tid (hdr (req_mad r)))) (tid_bytes t) =? 0 then
        stop_timer request;;
        list_del request;;
        free request
      else dequeue_request nodes' t
  end.

(** Set response fields for directed route SMPs (lines 182-198).  The
    result is the MAD as it stands and whether processing goes on. *)
Definition directed_route (ibdev : ib_device) (mad : ib_mad) : M (ib_mad * bool) :=
  if mgmt_class (hdr mad) =? IB_MGMT_CLASS_SUBN_DIRECTED_ROUTE then
    let mad := with_hdr
      (λ h, set_status (Z.lor (status h) (htons IB_SMP_STATUS_D_INBOUND)) h) mad in
    let hop_pointer := hop_pointer (class_specific (hdr mad)) in
    let hop_count := hop_count (class_specific (hdr mad)) in
    assert (hop_count =? hop_pointer);;
    if hop_pointer <? Z.of_nat ib_smp_num_hops then
      hops ← array_store (return_path_hops mad) hop_pointer (port ibdev mod 256);
      mret (set_return_path_hops hops mad, true)
    else
      DBGC dbg_invalid_hop_pointer;;
      mret (mad, false)
  else mret (mad, true).

(** The end of [ib_gma_complete_recv], from "Finish processing if we
    have no response to send" to the label [out] (lines 173-213); [mad]
    is the content of the buffer after the handler has run. *)
Definition send_response (ibdev : ib_device) (qp : ib_queue_pair)
    (av : ib_address_vector) (iobuf : io_buffer) (mad : ib_mad)
    (post_send_rc : Z) : M unit :=
  let out (iobuf : option io_buffer) := free_iob iobuf in
  if method (hdr mad) =? 0 then
    out (Some (set_iob_data mad iobuf))
  else
    DBGC dbg_tx_tid;;
    '(mad, continue) ← directed_route ibdev mad;
    let iobuf := Some (set_iob_data mad iobuf) in
    if negb continue then out iobuf
    else
      let av := set_qkey (if av_qpn av =? IB_QPN_SMA
                          then IB_QKEY_SMA else IB_QKEY_GMA) av in
      let av := set_rate IB_RATE_2_5 av in
      let '(disowned, iobuf) := iob_disown iobuf in
      rc ← ib_post_send ibdev (qp_handle qp) av disowned post_send_rc;
      if negb (rc =? 0) then
        DBGC dbg_could_not_send_response;; out iobuf
      else out iobuf.

(** [ib_gma_complete_recv].  [post_send_rc] is what [ib_post_send]
    answers if it is called. *)
Definition ib_gma_complete_recv (ibdev : ib_device) (qp : ib_queue_pair)
    (av : ib_address_vector) (iobuf : io_buffer) (rc : Z)
    (post_send_rc : Z) : M unit :=
  let gma := qp_ownerdata qp in
  let out (iobuf : option io_buffer) := free_iob iobuf in
  if negb (rc =? 0) then
    DBGC dbg_rx_error;; out (Some iobuf)
  else if negb (iob_len iobuf =? sizeof_ib_mad) then
    DBGC dbg_rx_bad_size;; out (Some iobuf)
  else
    let mad := iob_data iobuf in
    if negb (base_version (hdr mad) =? IB_MGMT_BASE_VERSION) then
      DBGC dbg_unsupported_base_version;; out (Some iobuf)
    else
      DBGC dbg_rx_tid;;
      g ← load_gma gma;
      dequeue_request (requests g) (tid (hdr mad));;
      '(mad, rc) ← ib_handle_mad ibdev mad;
      (if negb (rc =? 0) then DBGC dbg_could_not_handle else mret ());;
      send_response ibdev qp av iobuf mad post_send_rc.

(** [ib_gma_timer_expired].  [alloc_ok] and [post_send_rc] are what
    [alloc_iob] and [ib_post_send] answer if they are called. *)
Definition ib_gma_timer_expired (timer : addr) (expired : bool)
    (alloc_ok : bool) (post_send_rc : Z) : M unit :=
  let request := timer in
  r ← load_request request;
  gma ← from_option load_gma undefined (req_gma r);
  let ibdev := gma_ibdev gma in
  if expired then
    DBGC dbg_abandoning_tid;;
    list_del request;;
    free request
  else
    DBGC dbg_tx_tid;;
    start_timer timer;;
    iobuf ← alloc_iob alloc_ok;
    match iobuf with
    | None => DBGC dbg_could_not_allocate_buffer
    | Some iobuf =>
        r ← load_request request;
        let iobuf := set_iob_data (req_mad r) (iob_put iobuf sizeof_ib_mad) in
        rc ← ib_post_send ibdev (gma_qp gma) (req_av r) (Some iobuf) post_send_rc;
        if negb (rc =? 0) then
          DBGC dbg_could_not_send_tid;;
          free_iob (Some iobuf)
        else mret ()
    end.

(** [ib_gma_request].  [mad] and [av] point to the caller's
    structures ([av] may be null); [zalloc_result] is what [zalloc]
    answers. *)
Definition ib_gma_request (gma : addr) (mad : addr) (av : option addr)
    (zalloc_result : option addr) : M Z :=
  g ← load_gma gma;
  let ibdev := gma_ibdev g in
  request ← zalloc zalloc_result;
  match request with
  | None =>
      DBGC dbg_could_not_allocate_request;;
      mret (- ENOMEM)
  | Some request =>
      modify_request request (set_req_gma (Some gma));;
      list_add request gma;;
      modify_request request (λ r, set_req_timer
        {| timer_st := timer_st (req_timer r);
           expired := Some cb_ib_gma_timer_expired |} r);;
      match av with
      | Some av =>
          a ← load_av av;
          modify_request request (set_req_av a)
      | None =>
          modify_request request (λ r, set_req_av
            {| av_qpn := IB_QPN_GMA; av_qkey := IB_QKEY_GMA;
               av_lid := sm_lid ibdev; av_rate := av_rate (req_av r);
               av_sl := sm_sl ibdev; av_rest := av_rest (req_av r) |} r)
      end;;
      m ← load_mad mad;
      modify_request request (set_req_mad m);;
      modify_request request (λ r, set_req_mad
        (with_hdr (λ h, set_tid (htonl IB_GMA_TID_MAGIC, (tid h).2) h)
                  (req_mad r)) r);;
      n ← incr_next_request_tid;
      modify_request request (λ r, set_req_mad
        (with_hdr (λ h, set_tid ((tid h).1, htonl n) h) (req_mad r)) r);;
      start_timer_nodelay request;;
      mret 0
  end.
(** [ib_gma_complete_send] *)
Definition ib_gma_complete_send (ibdev : ib_device) (qp : ib_queue_pair)
    (iobuf : option io_buffer) (rc : Z) : M unit :=
  (if negb (rc =? 0) then DBGC dbg_send_completion_error else mret ());;
  free_iob iobuf.

(** GMA number of send WQEs, receive WQEs and completion queue entries *)
Definition IB_GMA_NUM_SEND_WQES : Z := 4.
Definition IB_GMA_NUM_RECV_WQES : Z := 2.
Definition IB_GMA_NUM_CQES : Z := 8.

Definition modify_gma (p : addr) (f : ib_gma → ib_gma) : M unit :=
  g ← load_gma p;
  store p (ObjGma (f g)).

(** [ib_create_gma].  [gma] points to the caller's structure; [cq] and
    [qp] are what [ib_create_cq] and [ib_create_qp] answer (0 for a
    null pointer) if they are called. *)
Definition ib_create_gma (gma : addr) (ibdev : ib_device) (qkey : Z)
    (cq : Z) (qp : Z) : M Z :=
  (* Initialise fields *)
  modify_gma gma (λ _, {| gma_ibdev := ibdev; gma_cq := 0; gma_qp := 0;
                          requests := [] |});;
  (* Create completion queue *)
  emit (ev_ib_create_cq ibdev IB_GMA_NUM_CQES cq);;
  modify_gma gma (λ g, {| gma_ibdev := gma_ibdev g; gma_cq := cq;
                          gma_qp := gma_qp g; requests := requests g |});;
  g ← load_gma gma;
  if gma_cq g =? 0 then
    DBGC dbg_could_not_allocate_cq;;
    mret (- ENOMEM)
  else
    (* Create queue pair *)
    emit (ev_ib_create_qp ibdev IB_GMA_NUM_SEND_WQES (gma_cq g)
                          IB_GMA_NUM_RECV_WQES (gma_cq g) qkey qp);;
    modify_gma gma (λ g, {| gma_ibdev := gma_ibdev g; gma_cq := gma_cq g;
                            gma_qp := qp; requests := requests g |});;
    g ← load_gma gma;
    if gma_qp g =? 0 then
      DBGC dbg_could_not_allocate_qp;;
      emit (ev_ib_destroy_cq ibdev (gma_cq g));;
      mret (- ENOMEM)
    else
      emit (ev_ib_qp_set_ownerdata (gma_qp g) gma);;
      DBGC dbg_running_on_qpn;;
      (* Fill receive ring *)
      emit (ev_ib_refill_recv ibdev (gma_qp g));;
      mret 0.

(** Flush any outstanding requests (lines 405-410): the walk of
    [list_for_each_entry_safe] from a given node on. *)
Fixpoint flush_requests (nodes : list addr) : M unit :=
  match nodes with
  | [] => mret ()
  | request :: nodes' =>
      stop_timer request;;
      list_del request;;
      free request;;
      flush_requests nodes'
  end.

(** [ib_destroy_gma] *)
Definition ib_destroy_gma (gma : addr) : M unit :=
  g ← load_gma gma;
  let ibdev := gma_ibdev g in
  flush_requests (requests g);;
  g ← load_gma gma;
  emit (ev_ib_destroy_qp ibdev (gma_qp g));;
  g ← load_gma gma;
  emit (ev_ib_destroy_cq ibdev (gma_cq g)).

(** [n] timer expiries in a row for one request, none of them with
    the failure indicator; [answers] are what [alloc_iob] and
    [ib_post_send] answer at each of them. *)
Fixpoint expire_n (timer : addr) (answers : list (bool * Z)) : M unit :=
  match answers with
  | [] => mret ()
  | (alloc_ok, post_send_rc) :: answers' =>
      ib_gma_timer_expired timer false alloc_ok post_send_rc;;
      expire_n timer answers'
  end.
End gma.

(** ** Observations on states and traces *)

Definition request_at (h : gmap addr object) (p : addr) : option ib_mad_request :=
  match h !! p with
  | Some (ObjRequest r) => Some r
  | _ => None
  end.

Definition gma_at (h : gmap addr object) (p : addr) : option ib_gma :=
  match h !! p with
  | Some (ObjGma g) => Some g
  | _ => None
  end.

(** What was handed to [ib_post_send], in order. *)
Definition transmissions (evs : list event) : list (ib_address_vector * io_buffer) :=
  omap (λ e, match e with
             | ev_ib_post_send _ _ av b _ => Some (av, b)
             | _ => None
             end) evs.

(** The buffers given back through [free_iob], in order. *)
Definition released_iobs (evs : list event) : list io_buffer :=
  omap (λ e, match e with ev_free_iob b => Some b | _ => None end) evs.

(** The handlers called, in order. *)
Definition handler_calls (evs : list event) : list ib_mad_handler :=
  omap (λ e, match e with ev_handle h _ _ => Some h | _ => None end) evs.

(** The test of line 156 on a stored request. *)
Definition tid_match (t : Z * Z) (r : ib_mad_request) : bool :=
  memcmp (tid_bytes (tid (hdr (req_mad r)))) (tid_bytes t) =? 0.

(** Ranges the C types impose. *)
Definition wf_tid (t : Z * Z) : Prop :=
  (0 ≤ t.1 < 2 ^ 32) ∧ (0 ≤ t.2 < 2 ^ 32).

Definition wf_mad `{ib_environment} (m : ib_mad) : Prop :=
  length (return_path_hops m) = ib_smp_num_hops ∧
  0 ≤ hop_pointer (class_specific (hdr m)) < 256.

(** Every node of a list is a live request. *)
Definition live_requests (h : gmap addr object) (l : list addr) : Prop :=
  ∀ p, p ∈ l → is_Some (request_at h p).

(** Handlers keep the MAD within its type. *)
Definition handlers_wf `{ib_environment} : Prop :=
  ∀ h ibdev m, h ∈ IB_MAD_HANDLERS → wf_mad m → wf_mad (handle h ibdev m).1.

(** The 4-tuples compared at lines 92-95. *)
Definition handler_tuple (h : ib_mad_handler) : Z * Z * Z * Z :=
  (handler_mgmt_class h, handler_class_version h, handler_method h,
   handler_attr_id h).

Definition hdr_tuple (h : ib_mad_hdr) : Z * Z * Z * Z :=
  (mgmt_class h, class_version h, method h, attr_id h).

(** The first node of a list whose stored transaction id passes the
    test of line 156. *)
Fixpoint first_match (h : gmap addr object) (t : Z * Z) (nodes : list addr)
  : option addr :=
  match nodes with
  | [] => None
  | p :: nodes' =>
      match request_at h p with
      | Some r => if tid_match t r then Some p else first_match h t nodes'
      | None => None
      end
  end.

(** The state once request [p] has been stopped, unlinked and freed. *)
Definition retire (p : addr) (st : machine) : machine :=
  {| heap := delete p (unlink_in p <$> heap st);
     next_request_tid := next_request_tid st;
     trace := trace st ++ [ev_stop_timer p; ev_free p] |}.

(** The state with more calls on its trace. *)
Definition with_events (evs : list event) (st : machine) : machine :=
  {| heap := heap st; next_request_tid := next_request_tid st;
     trace := trace st ++ evs |}.

(** The return address built at lines 200-202. *)
Definition response_av `{ib_environment} (av : ib_address_vector) : ib_address_vector :=
  set_rate IB_RATE_2_5
    (set_qkey (if av_qpn av =? IB_QPN_SMA then IB_QKEY_SMA else IB_QKEY_GMA) av).

(** The MAD with the inbound-direction bit set in its status (line 186). *)
Definition dr_mark `{ib_environment} (mad : ib_mad) : ib_mad :=
  with_hdr (λ h, set_status (Z.lor (status h) (htons IB_SMP_STATUS_D_INBOUND)) h) mad.

(** What the trace shows of a response handed to the transport. *)
Definition send_events (ibdev : ib_device) (qp : ib_queue_pair)
    (av : ib_address_vector) (b : io_buffer) (rc : Z) : list event :=
  ev_ib_post_send ibdev (qp_handle qp) av b rc ::
  (if rc =? 0 then [] else [ev_dbgc dbg_could_not_send_response]).

(** What the trace shows of the assertion of line 189. *)
Definition assert_events (mad : ib_mad) : list event :=
  if hop_count (class_specific (hdr mad)) =? hop_pointer (class_specific (hdr mad))
  then [] else [ev_assert_failed].

(** The state after the request list of agent [g] has been searched for
    the transaction id [t] of a received MAD (lines 148-163). *)
Definition after_dequeue (g : ib_gma) (t : Z * Z) (st : machine) : machine :=
  match first_match (heap st) t (requests g) with
  | Some p => retire p (with_events [ev_dbgc dbg_rx_tid] st)
  | None => with_events [ev_dbgc dbg_rx_tid] st
  end.

(** Every node of a list is a live request whose transaction id is two
    32-bit words. *)
Definition requests_wf (h : gmap addr object) (l : list addr) : Prop :=
  ∀ p, p ∈ l → ∃ r, request_at h p = Some r ∧ wf_tid (tid (hdr (req_mad r))).

(** A receive completion that passes the checks of lines 127-147, for
    the agent [g] that owns the queue pair. *)
Definition valid_recv `{ib_environment} (qp : ib_queue_pair) (iobuf : io_buffer)
    (st : machine) (g : ib_gma) : Prop :=
  iob_len iobuf = sizeof_ib_mad ∧
  base_version (hdr (iob_data iobuf)) = IB_MGMT_BASE_VERSION ∧
  wf_mad (iob_data iobuf) ∧
  wf_tid (tid (hdr (iob_data iobuf))) ∧
  gma_at (heap st) (qp_ownerdata qp) = Some g ∧
  requests_wf (heap st) (requests g) ∧
  NoDup (requests g).

(** The MAD as it is sent back: a directed-route MAD carries the
    inbound bit and the local port in its return path. *)
Definition response_mad `{ib_environment} (ibdev : ib_device) (mad : ib_mad) : ib_mad :=
  if mgmt_class (hdr mad) =? IB_MGMT_CLASS_SUBN_DIRECTED_ROUTE then
    set_return_path_hops
      (<[Z.to_nat (hop_pointer (class_specific (hdr mad))) := port ibdev mod 256]>
         (return_path_hops mad))
      (dr_mark mad)
  else mad.

(** The MAD that [ib_handle_mad] leaves when no handler matches. *)
Definition trap_mad `{ib_environment} (mad : ib_mad) : ib_mad :=
  with_hdr (set_status (htons IB_MGMT_STATUS_UNSUPPORTED_METHOD_ATTR))
    (with_hdr (set_method IB_MGMT_METHOD_TRAP) mad).

(** Calls that act on a request: its timer or its memory. *)
Definition request_event (e : event) : bool :=
  match e with
  | ev_start_timer _ | ev_start_timer_nodelay _ | ev_stop_timer _
  | ev_zalloc _ | ev_free _ => true
  | _ => false
  end.

(** The buffer built at lines 277-286 for a retransmission of [r]. *)
Definition retry_iobuf `{ib_environment} (r : ib_mad_request) : io_buffer :=
  {| iob_len := sizeof_ib_mad; iob_data := req_mad r |}.

(** What the trace shows of one timer expiry without the failure
    indicator, for request [r] at [p] of agent [g]. *)
Definition retry_events `{ib_environment} (p : addr) (g : ib_gma)
    (r : ib_mad_request) (answer : bool * Z) : list event :=
  [ev_dbgc dbg_tx_tid; ev_start_timer p; ev_alloc_iob answer.1] ++
  if answer.1 then
    ev_ib_post_send (gma_ibdev g) (gma_qp g) (req_av r) (retry_iobuf r) answer.2 ::
    (if answer.2 =? 0 then []
     else [ev_dbgc dbg_could_not_send_tid; ev_free_iob (retry_iobuf r)])
  else [ev_dbgc dbg_could_not_allocate_buffer].

(** The state with another store. *)
Definition with_heap (h : gmap addr object) (st : machine) : machine :=
  {| heap := h; next_request_tid := next_request_tid st; trace := trace st |}.

Definition mad_at (h : gmap addr object) (p : addr) : option ib_mad :=
  match h !! p with
  | Some (ObjMad m) => Some m
  | _ => None
  end.

Definition av_at (h : gmap addr object) (p : addr) : option ib_address_vector :=
  match h !! p with
  | Some (ObjAv a) => Some a
  | _ => None
  end.

(** The arguments of [ib_gma_request] point where they should: the
    agent and the MAD are live, the address vector is live or null, and
    the block the allocator hands out, if any, is not in use. *)
Definition can_issue (gma mad : addr) (av zalloc_result : option addr)
    (st : machine) : Prop :=
  is_Some (gma_at (heap st) gma) ∧
  is_Some (mad_at (heap st) mad) ∧
  (∀ a, av = Some a → is_Some (av_at (heap st) a)) ∧
  (∀ p, zalloc_result = Some p → heap st !! p = None).

(** The destination of a request: the caller's address vector, or the
    subnet manager's (lines 322-330). *)
Definition request_av `{ib_environment} (ibdev : ib_device)
    (av : option ib_address_vector) : ib_address_vector :=
  match av with
  | Some a => a
  | None => {| av_qpn := IB_QPN_GMA; av_qkey := IB_QKEY_GMA;
               av_lid := sm_lid ibdev; av_rate := 0; av_sl := sm_sl ibdev;
               av_rest := replicate ib_av_rest_len 0 |}
  end.

(** The request record as [ib_gma_request] leaves it, for the counter
    value [n] it has drawn. *)
Definition issued_request `{ib_environment} (gma : addr) (ibdev : ib_device)
    (mad : ib_mad) (av : option ib_address_vector) (n : Z) : ib_mad_request :=
  {| req_gma := Some gma;
     req_timer := {| timer_st := timer_running_nodelay;
                     expired := Some cb_ib_gma_timer_expired |};
     req_av := request_av ibdev av;
     req_mad := with_hdr (set_tid (htonl IB_GMA_TID_MAGIC, htonl n)) mad |}.

(** The state once every request of a list, in order, has been stopped,
    unlinked and freed. *)
Fixpoint retire_all (nodes : list addr) (st : machine) : machine :=
  match nodes with
  | [] => st
  | p :: nodes' => retire_all nodes' (retire p st)
  end.

(** What the trace shows of the flush of a list of requests. *)
Definition flush_events (nodes : list addr) : list event :=
  flat_map (λ p, [ev_stop_timer p; ev_free p]) nodes.

(** The invariant of the request lists: the list of every agent is free
    of duplicates, and each of its nodes is a live request that points
    back to that agent. *)
Definition wf_heap (h : gmap addr object) : Prop :=
  ∀ ga g, gma_at h ga = Some g →
    NoDup (requests g) ∧
    ∀ p, p ∈ requests g → ∃ r, request_at h p = Some r ∧ req_gma r = Some ga.

(** Several requests issued in a row; each call gives the agent, the
    caller's MAD and address vector, and the block [zalloc] hands out. *)
Fixpoint issue_all `{ib_environment}
    (calls : list (addr * addr * option addr * addr)) : M unit :=
  match calls with
  | [] => mret ()
  | (gma, mad, av, p) :: calls' =>
      ib_gma_request gma mad av (Some p);;
      issue_all calls'
  end.

(** A call of [issue_all] has its pointers where they should be. *)
Definition call_ok (h : gmap addr object)
    (c : addr * addr * option addr * addr) : Prop :=
  is_Some (gma_at h c.1.1.1) ∧ is_Some (mad_at h c.1.1.2) ∧
  (∀ a, c.1.2 = Some a → is_Some (av_at h a)) ∧
  h !! c.2 = None.

(** ** AoE boot (src/usr/aoeboot.c)

    [aoeboot] only strings together calls into other subsystems; the
    model records these calls, with what each of them answers given from
    outside. *)

Inductive aoeboot_message :=
| msg_aoe_booting_from (root_path : string)
| msg_could_not_attach (rc : Z)
| msg_could_not_initialise (rc : Z)
| msg_registered_as_bios_drive (drive : Z)
| msg_booting_from_bios_drive (drive : Z)
| msg_boot_failed
| msg_unregistering_bios_drive (drive : Z).

Inductive aoeboot_event :=
| ab_printf (m : aoeboot_message)
| ab_aoe_attach (netdev : option Z) (root_path : string) (rc : Z)
| ab_init_atadev (rc : Z)
| ab_find_global_dhcp_num_option (value : Z)
| ab_register_int13_drive (drive : Z)
| ab_int13_boot (drive : Z) (rc : Z)
| ab_unregister_int13_drive (drive : Z)
| ab_aoe_detach.

(** [guess_boot_netdev]: the first network device, or the null pointer
    when the list is empty. *)
Definition guess_boot_netdev (net_devices : list Z) : option Z :=
  match net_devices with
  | boot_netdev :: _ => Some boot_netdev
  | [] => None
  end.

(** [aoeboot].  [attach_rc], [init_rc], [bios_drive] and [boot_rc] are
    what [aoe_attach], [init_atadev], [find_global_dhcp_num_option] and
    [int13_boot] answer if they are called.  The result is the status
    code returned and the calls made, in order. *)
Definition aoeboot (net_devices : list Z) (root_path : string)
    (attach_rc init_rc bios_drive boot_rc : Z) : Z * list aoeboot_event :=
  let banner := [ab_printf (msg_aoe_booting_from root_path)] in
  let netdev := guess_boot_netdev net_devices in
  let attach := banner ++ [ab_aoe_attach netdev root_path attach_rc] in
  if negb (attach_rc =? 0) then
    (* goto error_attach *)
    (attach_rc, attach ++ [ab_printf (msg_could_not_attach attach_rc)])
  else
    let init := attach ++ [ab_init_atadev init_rc] in
    if negb (init_rc =? 0) then
      (* goto error_init *)
      (init_rc, init ++ [ab_printf (msg_could_not_initialise init_rc);
                         ab_aoe_detach])
    else
      let drive := bios_drive in
      (boot_rc,
       init ++ [ab_find_global_dhcp_num_option bios_drive;
                ab_register_int13_drive drive;
                ab_printf (msg_registered_as_bios_drive drive);
                ab_printf (msg_booting_from_bios_drive drive);
                ab_int13_boot drive boot_rc;
                ab_printf msg_boot_failed;
                ab_printf (msg_unregistering_bios_drive drive);
                ab_unregister_int13_drive drive;
                ab_aoe_detach]).

(** The external calls of a run, without what is printed. *)
Definition aoeboot_calls (evs : list aoeboot_event) : list aoeboot_event :=
  omap (λ e, match e with ab_printf _ => None | _ => Some e end) evs.

(** ** Sample data

    An environment to run the model on: the constants of the InfiniBand
    architecture and a table of two handlers that answer a Get of
    attribute 0x0011, one for LID-routed and one for directed-route
    subnet management MADs. *)

Definition sample_handle (ibdev : ib_device) (mad : ib_mad) : ib_mad * Z :=
  (with_hdr (set_status 0) mad, 0).

Definition sample_handler (class : Z) : ib_mad_handler :=
  {| handler_mgmt_class := class; handler_class_version := 1;
     handler_method := 1; handler_attr_id := htons 17;
     resp_method := 129; handle := sample_handle |}.

Definition sample_env : ib_environment :=
  {| sizeof_ib_mad := 256;
     ib_mad_data_len := 168;
     ib_smp_num_hops := 64;
     ib_av_rest_len := 20;
     IB_MGMT_BASE_VERSION := 1;
     IB_MGMT_CLASS_SUBN_DIRECTED_ROUTE := 129;
     IB_MGMT_METHOD_TRAP := 5;
     IB_MGMT_STATUS_UNSUPPORTED_METHOD_ATTR := 12;
     IB_SMP_STATUS_D_INBOUND := 32768;
     IB_QPN_SMA := 0;
     IB_QPN_GMA := 1;
     IB_QKEY_SMA := 0;
     IB_QKEY_GMA := 2147549184;
     IB_RATE_2_5 := 2;
     ENOTSUP := 95;
     ENOMEM := 12;
     IB_MAD_HANDLERS := [sample_handler 1; sample_handler 129] |}.

Definition sample_ibdev : ib_device := {| port := 1; sm_lid := 7; sm_sl := 0 |}.

(** A MAD of class [class] with method [meth], attribute [attr],
    transaction id [t] and hop pointer [hp]. *)
Definition sample_mad (class meth attr : Z) (t : Z * Z) (hp : Z) : ib_mad :=
  {| hdr := {| base_version := 1; mgmt_class := class; class_version := 1;
               method := meth; status := 0;
               class_specific := {| hop_pointer := hp; hop_count := hp |};
               tid := t; attr_id := attr; attr_mod := 0 |};
     mad_data := replicate 168 0;
     return_path_hops := replicate 64 0 |}.

Definition sample_tid (n : Z) : Z * Z := (htonl IB_GMA_TID_MAGIC, htonl n).

Definition sample_av : ib_address_vector :=
  {| av_qpn := 1; av_qkey := 0; av_lid := 2; av_rate := 0; av_sl := 0;
     av_rest := replicate 20 0 |}.

Definition sample_request (n : Z) : ib_mad_request :=
  {| req_gma := Some 1%positive;
     req_timer := {| timer_st := timer_running;
                     expired := Some cb_ib_gma_timer_expired |};
     req_av := sample_av;
     req_mad := sample_mad 1 1 (htons 17) (sample_tid n) 0 |}.

Definition sample_gma : ib_gma :=
  {| gma_ibdev := sample_ibdev; gma_cq := 10; gma_qp := 11;
     requests := [4; 3]%positive |}.

(** An agent at address 1 with the requests 1 and 2 outstanding at
    addresses 3 and 4, a caller's MAD at 2 and address vector at 5, and
    a second agent at 6 with no request. *)
Definition sample_state (counter : Z) : machine :=
  {| heap := <[1%positive := ObjGma sample_gma]>
             (<[2%positive := ObjMad (sample_mad 1 1 (htons 17) (0, 0) 0)]>
             (<[3%positive := ObjRequest (sample_request 1)]>
             (<[4%positive := ObjRequest (sample_request 2)]>
             (<[5%positive := ObjAv sample_av]>
             (<[6%positive := ObjGma (set_requests [] sample_gma)]> ∅)))));
     next_request_tid := counter;
     trace := [] |}.

Definition sample_qp : ib_queue_pair := {| qp_handle := 11; qp_ownerdata := 1 |}.

Definition sample_iobuf (mad : ib_mad) : io_buffer :=
  {| iob_len := 256; iob_data := mad |}.

(** The low word of the transaction id of the request at [p], read in
    network byte order. *)
Definition request_low_word (h : gmap addr object) (p : addr) : option Z :=
  (λ r, ntohl (tid (hdr (req_mad r))).2) <$> request_at h p.

(** The state a computation leaves, the starting state if it has none. *)
Definition final_state {A : Type} (m : M A) (st : machine) : machine :=
  match m st with
  | Some (_, st') => st'
  | None => st
  end.

(** A second environment, whose table also has an entry for the
    responses to our own Get requests, which are not to be answered. *)
Definition sample_response_handler : ib_mad_handler :=
  {| handler_mgmt_class := 1; handler_class_version := 1;
     handler_method := 129; handler_attr_id := htons 17;
     resp_method := 0; handle := sample_handle |}.

Definition sample_env_resp : ib_environment :=
  {| sizeof_ib_mad := 256;
     ib_mad_data_len := 168;
     ib_smp_num_hops := 64;
     ib_av_rest_len := 20;
     IB_MGMT_BASE_VERSION := 1;
     IB_MGMT_CLASS_SUBN_DIRECTED_ROUTE := 129;
     IB_MGMT_METHOD_TRAP := 5;
     IB_MGMT_STATUS_UNSUPPORTED_METHOD_ATTR := 12;
     IB_SMP_STATUS_D_INBOUND := 32768;
     IB_QPN_SMA := 0;
     IB_QPN_GMA := 1;
     IB_QKEY_SMA := 0;
     IB_QKEY_GMA := 2147549184;
     IB_RATE_2_5 := 2;
     ENOTSUP := 95;
     ENOMEM := 12;
     IB_MAD_HANDLERS := [sample_response_handler] |}.

(** Three requests in a row: two on the agent at 1 and one on the agent
    at 6, with records at 8, 9 and 10. *)
Definition sample_calls : list (addr * addr * option addr * addr) :=
  [(1, 2, Some 5, 8); (6, 2, None, 9); (1, 2, None, 10)]%positive.

(** * Properties *)

(** ** Bytes *)

Lemma land_255 v : Z.land v 255 = v mod 256.
Proof. change 255 with (Z.ones 8). rewrite Z.land_ones by lia. reflexivity. Qed.

Lemma lor_shiftl_low hi lo n :
  0 <= n -> 0 <= lo < 2 ^ n -> Z.lor (Z.shiftl hi n) lo = hi * 2 ^ n + lo.
Proof.
  intros Hn Hlo.
  rewrite <- Z.lxor_lor, <- Z.add_nocarry_lxor, Z.shiftl_mul_pow2; auto.
  all: apply Z.bits_inj'; intros k Hk; rewrite Z.land_spec, Z.bits_0.
  all: destruct (Z.lt_ge_cases k n) as [Hlt|Hge].
  all: try (rewrite Z.shiftl_spec_low by lia; reflexivity).
  all: destruct (Z.eq_dec lo 0) as [->|Hne]; [rewrite Z.bits_0; apply andb_false_r|].
  all: rewrite (Z.bits_above_log2 lo k); [apply andb_false_r|lia|].
  all: apply Z.log2_lt_pow2; try lia.
  all: eapply Z.lt_le_trans; [apply Hlo|]; apply Z.pow_le_mono_r; lia.
Qed.

Lemma bswap_32_arith v :
  bswap_32 v = (v mod 256) * 2 ^ 24 + (v / 2 ^ 8 mod 256) * 2 ^ 16
               + (v / 2 ^ 16 mod 256) * 2 ^ 8 + v / 2 ^ 24 mod 256.
Proof.
  unfold bswap_32. rewrite !land_255, !Z.shiftr_div_pow2 by lia.
  assert (H0 := Z.mod_pos_bound v 256 eq_refl).
  assert (H1 := Z.mod_pos_bound (v / 2 ^ 8) 256 eq_refl).
  assert (H2 := Z.mod_pos_bound (v / 2 ^ 16) 256 eq_refl).
  assert (H3 := Z.mod_pos_bound (v / 2 ^ 24) 256 eq_refl).
  set (b0 := v mod 256) in *. set (b1 := v / 2 ^ 8 mod 256) in *.
  set (b2 := v / 2 ^ 16 mod 256) in *. set (b3 := v / 2 ^ 24 mod 256) in *.
  rewrite (lor_shiftl_low b2 b3 8) by lia.
  replace (Z.shiftl b0 24) with (Z.shiftl (Z.shiftl b0 8) 16)
    by (rewrite Z.shiftl_shiftl by lia; reflexivity).
  rewrite <- Z.shiftl_lor.
  rewrite (lor_shiftl_low b0 b1 8) by lia.
  rewrite (lor_shiftl_low _ _ 16) by lia.
  lia.
Qed.

Lemma bswap_16_arith v :
  bswap_16 v = (v mod 256) * 2 ^ 8 + v / 2 ^ 8 mod 256.
Proof.
  unfold bswap_16. rewrite !land_255, !Z.shiftr_div_pow2 by lia.
  assert (H1 := Z.mod_pos_bound (v / 2 ^ 8) 256 eq_refl).
  rewrite lor_shiftl_low by lia. reflexivity.
Qed.

Lemma pack_bytes a b c d :
  0 <= a < 256 -> 0 <= b < 256 -> 0 <= c < 256 -> 0 <= d < 256 ->
  let w := a * 2 ^ 24 + b * 2 ^ 16 + c * 2 ^ 8 + d in
  w mod 256 = d /\ w / 2 ^ 8 mod 256 = c /\ w / 2 ^ 16 mod 256 = b
  /\ w / 2 ^ 24 mod 256 = a.
Proof.
  intros Ha Hb Hc Hd w.
  change (2 ^ 8) with 256 in *. change (2 ^ 16) with 65536 in *.
  change (2 ^ 24) with 16777216 in *.
  assert (E1 : w / 256 = a * 65536 + b * 256 + c).
  { symmetry. apply (Z.div_unique_pos w 256 _ d); lia. }
  assert (E2 : w / 65536 = a * 256 + b).
  { symmetry. apply (Z.div_unique_pos w 65536 _ (c * 256 + d)); lia. }
  assert (E3 : w / 16777216 = a).
  { symmetry. apply (Z.div_unique_pos w 16777216 _ (b * 65536 + c * 256 + d)); lia. }
  rewrite E1, E2, E3. repeat split.
  - symmetry. apply (Z.mod_unique_pos w 256 (a * 65536 + b * 256 + c)); lia.
  - symmetry. apply (Z.mod_unique_pos _ 256 (a * 256 + b)); lia.
  - symmetry. apply (Z.mod_unique_pos _ 256 a); lia.
  - apply Z.mod_small; lia.
Qed.

Lemma u32_split v :
  0 <= v < 2 ^ 32 ->
  v = (v / 2 ^ 24 mod 256) * 2 ^ 24 + (v / 2 ^ 16 mod 256) * 2 ^ 16
      + (v / 2 ^ 8 mod 256) * 2 ^ 8 + v mod 256.
Proof.
  intros Hv.
  change (2 ^ 8) with 256 in *. change (2 ^ 16) with (256 * 256) in *.
  change (2 ^ 24) with (256 * 256 * 256) in *.
  change (2 ^ 32) with 4294967296 in *.
  rewrite <- !Z.div_div by lia.
  assert (H1 := Z.div_mod v 256 ltac:(lia)).
  assert (H2 := Z.div_mod (v / 256) 256 ltac:(lia)).
  assert (H3 := Z.div_mod (v / 256 / 256) 256 ltac:(lia)).
  assert (H4 : v / 256 / 256 / 256 mod 256 = v / 256 / 256 / 256).
  { apply Z.mod_small. split.
    - repeat apply Z.div_pos; lia.
    - rewrite !Z.div_div by lia. apply Z.div_lt_upper_bound; lia. }
  rewrite H4.
  set (q1 := v / 256) in *. set (q2 := q1 / 256) in *. set (q3 := q2 / 256) in *.
  set (r0 := v mod 256) in *. set (r1 := q1 mod 256) in *. set (r2 := q2 mod 256) in *.
  lia.
Qed.

Lemma bswap_32_involutive v : 0 <= v < 2 ^ 32 -> bswap_32 (bswap_32 v) = v.
Proof.
  intros Hv. rewrite (bswap_32_arith (bswap_32 v)), (bswap_32_arith v).
  assert (H0 := Z.mod_pos_bound v 256 eq_refl).
  assert (H1 := Z.mod_pos_bound (v / 2 ^ 8) 256 eq_refl).
  assert (H2 := Z.mod_pos_bound (v / 2 ^ 16) 256 eq_refl).
  assert (H3 := Z.mod_pos_bound (v / 2 ^ 24) 256 eq_refl).
  destruct (pack_bytes _ _ _ _ H0 H1 H2 H3) as (E0 & E1 & E2 & E3).
  rewrite E0, E1, E2, E3. rewrite (u32_split v Hv) at 5. lia.
Qed.

Lemma bswap_32_range v : 0 <= bswap_32 v < 2 ^ 32.
Proof.
  rewrite bswap_32_arith.
  assert (H0 := Z.mod_pos_bound v 256 eq_refl).
  assert (H1 := Z.mod_pos_bound (v / 2 ^ 8) 256 eq_refl).
  assert (H2 := Z.mod_pos_bound (v / 2 ^ 16) 256 eq_refl).
  assert (H3 := Z.mod_pos_bound (v / 2 ^ 24) 256 eq_refl).
  change (2 ^ 8) with 256 in *. change (2 ^ 16) with 65536 in *.
  change (2 ^ 24) with 16777216 in *. change (2 ^ 32) with 4294967296.
  lia.
Qed.

(** The memory image of [htonl v] is [v] most significant byte first. *)
Lemma u32_bytes_htonl v :
  u32_bytes (htonl v) =
  [v / 2 ^ 24 mod 256; v / 2 ^ 16 mod 256; v / 2 ^ 8 mod 256; v mod 256].
Proof.
  unfold u32_bytes, htonl. rewrite !land_255, !Z.shiftr_div_pow2 by lia.
  rewrite bswap_32_arith.
  assert (H0 := Z.mod_pos_bound v 256 eq_refl).
  assert (H1 := Z.mod_pos_bound (v / 2 ^ 8) 256 eq_refl).
  assert (H2 := Z.mod_pos_bound (v / 2 ^ 16) 256 eq_refl).
  assert (H3 := Z.mod_pos_bound (v / 2 ^ 24) 256 eq_refl).
  destruct (pack_bytes _ _ _ _ H0 H1 H2 H3) as (E0 & E1 & E2 & E3).
  rewrite E0, E1, E2, E3. reflexivity.
Qed.

(** The memory image of [htons v] is [v] most significant byte first. *)
Lemma u16_bytes_htons v :
  u16_bytes (htons v) = [v / 2 ^ 8 mod 256; v mod 256].
Proof.
  unfold u16_bytes, htons. rewrite !land_255, !Z.shiftr_div_pow2 by lia.
  rewrite bswap_16_arith.
  assert (H0 := Z.mod_pos_bound v 256 eq_refl).
  assert (H1 := Z.mod_pos_bound (v / 2 ^ 8) 256 eq_refl).
  change (2 ^ 8) with 256 in *.
  set (a := v mod 256) in *. set (b := v / 256 mod 256) in *.
  f_equal; [|f_equal].
  - symmetry. apply (Z.mod_unique_pos _ 256 a); lia.
  - replace ((a * 256 + b) / 256) with a
      by (apply (Z.div_unique_pos _ 256 a b); lia).
    apply Z.mod_small; lia.
Qed.

Lemma u32_bytes_inj a b :
  0 <= a < 2 ^ 32 -> 0 <= b < 2 ^ 32 -> u32_bytes a = u32_bytes b -> a = b.
Proof.
  intros Ha Hb E. unfold u32_bytes in E.
  rewrite !land_255, !Z.shiftr_div_pow2 in E by lia.
  injection E as E0 E1 E2 E3.
  rewrite (u32_split a Ha), (u32_split b Hb). congruence.
Qed.

Lemma memcmp_refl a : memcmp a a = 0.
Proof. induction a as [|x a IH]; simpl; [reflexivity|]. by rewrite Z.eqb_refl. Qed.

Lemma memcmp_0_eq a b : length a = length b -> memcmp a b = 0 -> a = b.
Proof.
  revert b. induction a as [|x a IH]; intros [|y b] Hlen; simpl in *; try done.
  destruct (Z.eqb_spec x y) as [->|Hne]; intros E.
  - f_equal. apply IH; [lia|done].
  - lia.
Qed.

Lemma tid_bytes_length t : length (tid_bytes t) = 8%nat.
Proof. reflexivity. Qed.

(** Line 156 compares all eight bytes. *)
Lemma tid_match_bytes t r :
  tid_match t r = true ↔ tid_bytes (tid (hdr (req_mad r))) = tid_bytes t.
Proof.
  unfold tid_match. rewrite Z.eqb_eq. split.
  - apply memcmp_0_eq. reflexivity.
  - intros ->. apply memcmp_refl.
Qed.

Lemma tid_bytes_inj t1 t2 :
  wf_tid t1 -> wf_tid t2 -> tid_bytes t1 = tid_bytes t2 -> t1 = t2.
Proof.
  destruct t1 as [a1 b1], t2 as [a2 b2]. intros [? ?] [? ?] E.
  unfold tid_bytes in E. simpl in *.
  injection E as E0 E1 E2 E3 E4 E5 E6 E7.
  f_equal; apply u32_bytes_inj; try done; unfold u32_bytes; congruence.
Qed.

(** ** Running the monad *)

Lemma bind_run {A B} (m : M A) (f : A → M B) st :
  (m ≫= f) st = match m st with Some (x, st') => f x st' | None => None end.
Proof. reflexivity. Qed.

Lemma ret_run {A} (x : A) st : mret (M := M) x st = Some (x, st).
Proof. reflexivity. Qed.

Lemma emit_run e st :
  emit e st = Some ((), {| heap := heap st; next_request_tid := next_request_tid st;
                           trace := trace st ++ [e] |}).
Proof. reflexivity. Qed.

Ltac wev :=
  unfold with_events; cbn [heap next_request_tid trace];
  rewrite <- ?app_assoc; cbn [app]; try reflexivity.

Ltac mrun :=
  repeat first
    [ rewrite bind_run | rewrite ret_run | rewrite emit_run
    | progress unfold DBGC | progress cbn [heap next_request_tid trace] ].

Section properties.
Context `{ib_environment}.

(** *** Validation (lines 127-147) *)

(** C7: a receive completion with an error status, a buffer that has
    not the size of a MAD, or a header with another base version is
    logged and its buffer released, and nothing else happens: no
    handler is looked up or called, no object of the store (hence no
    list of outstanding requests) changes, nothing is sent, and the
    (void) function returns normally. *)
Theorem ib_gma_complete_recv_discards ibdev qp av iobuf rc post_send_rc st :
  rc ≠ 0 ∨ iob_len iobuf ≠ sizeof_ib_mad ∨
    base_version (hdr (iob_data iobuf)) ≠ IB_MGMT_BASE_VERSION →
  ∃ m, m ∈ [dbg_rx_error; dbg_rx_bad_size; dbg_unsupported_base_version] ∧
    ib_gma_complete_recv ibdev qp av iobuf rc post_send_rc st =
      Some ((), {| heap := heap st;
                   next_request_tid := next_request_tid st;
                   trace := trace st ++ [ev_dbgc m; ev_free_iob iobuf] |}) ∧
    handler_calls [ev_dbgc m; ev_free_iob iobuf] = [] ∧
    transmissions [ev_dbgc m; ev_free_iob iobuf] = [] ∧
    released_iobs [ev_dbgc m; ev_free_iob iobuf] = [iobuf].
Proof.
  intros Hbad. unfold ib_gma_complete_recv.
  destruct (Z.eqb_spec rc 0) as [Hrc|Hrc]; simpl.
  - destruct (Z.eqb_spec (iob_len iobuf) sizeof_ib_mad) as [Hlen|Hlen]; simpl.
    + destruct (Z.eqb_spec (base_version (hdr (iob_data iobuf)))
                           IB_MGMT_BASE_VERSION) as [Hv|Hv]; simpl.
      * destruct Hbad as [?|[?|?]]; done.
      * exists dbg_unsupported_base_version. split; [rewrite !elem_of_cons; auto|].
        mrun. simpl. mrun. by rewrite <- app_assoc.
    + exists dbg_rx_bad_size. split; [rewrite !elem_of_cons; auto|].
      mrun. simpl. mrun. by rewrite <- app_assoc.
  - exists dbg_rx_error. split; [rewrite !elem_of_cons; auto|].
    mrun. simpl. mrun. by rewrite <- app_assoc.
Qed.

(** *** Dispatch (lines 86-104) *)

Lemma handler_matches_tuple e h :
  handler_matches e h = true ↔ handler_tuple e = hdr_tuple h.
Proof.
  unfold handler_matches, handler_tuple, hdr_tuple.
  rewrite !andb_true_iff, !Z.eqb_eq. split.
  - intros [[[-> ->] ->] ->]. reflexivity.
  - intros [= -> -> -> ->]. auto.
Qed.

Lemma with_events_nil st : with_events [] st = st.
Proof. destruct st. unfold with_events. simpl. by rewrite app_nil_r. Qed.

Lemma with_events_app e1 e2 st :
  with_events e2 (with_events e1 st) = with_events (e1 ++ e2) st.
Proof. unfold with_events. simpl. by rewrite app_assoc. Qed.

Lemma with_events_heap evs st : heap (with_events evs st) = heap st.
Proof. reflexivity. Qed.

Lemma emit_with_events e st : emit e st = Some ((), with_events [e] st).
Proof. reflexivity. Qed.

(** The walk over the table: entries that do not match are skipped, the
    first that matches is used. *)
Lemma ib_handle_mad_from_first pre e post ibdev mad st :
  (∀ x, x ∈ pre → handler_matches x (hdr mad) = false) →
  handler_matches e (hdr mad) = true →
  ib_handle_mad_from (pre ++ e :: post) ibdev mad st =
    let mad1 := with_hdr (set_method (resp_method e)) mad in
    Some (handle e ibdev mad1, with_events [ev_handle e ibdev mad1] st).
Proof.
  intros Hpre He. induction pre as [|x pre IH]; simpl.
  - rewrite He. reflexivity.
  - rewrite (Hpre x) by apply list_elem_of_here.
    apply IH. intros y Hy. apply Hpre. by apply list_elem_of_further.
Qed.

Lemma ib_handle_mad_from_none table ibdev mad st :
  (∀ x, x ∈ table → handler_matches x (hdr mad) = false) →
  ib_handle_mad_from table ibdev mad st =
    Some ((with_hdr (set_status (htons IB_MGMT_STATUS_UNSUPPORTED_METHOD_ATTR))
             (with_hdr (set_method IB_MGMT_METHOD_TRAP) mad), - ENOTSUP), st).
Proof.
  intros Hno. induction table as [|x table IH]; simpl.
  - reflexivity.
  - rewrite (Hno x) by apply list_elem_of_here.
    apply IH. intros y Hy. apply Hno. by apply list_elem_of_further.
Qed.

Lemma first_matching_split (table : list ib_mad_handler) h e :
  e ∈ table → handler_matches e h = true →
  ∃ e0 pre post, table = pre ++ e0 :: post ∧
    (∀ x, x ∈ pre → handler_matches x h = false) ∧
    handler_matches e0 h = true.
Proof.
  induction table as [|x table IH]; intros Hin He.
  - by apply elem_of_nil in Hin.
  - destruct (handler_matches x h) eqn:Hx.
    + exists x, [], table. split; [done|]. split; [|done].
      intros y Hy. by apply elem_of_nil in Hy.
    + apply elem_of_cons in Hin as [->|Hin]; [congruence|].
      destruct (IH Hin He) as (e0 & pre & post & -> & Hpre & He0).
      exists e0, (x :: pre), post. split; [done|]. split; [|done].
      intros y Hy. apply elem_of_cons in Hy as [->|Hy]; auto.
Qed.

(** C3: when the 4-tuple of the header is that of an entry of the
    handler table, [ib_handle_mad] takes the first such entry in table
    order, overwrites the method with that entry's response method and
    calls that entry's handler on the message so rewritten, whose
    result it returns; this is the given entry whenever no other entry
    has the same 4-tuple. *)
Theorem ib_handle_mad_registered ibdev mad e st :
  e ∈ IB_MAD_HANDLERS →
  handler_tuple e = hdr_tuple (hdr mad) →
  ∃ e0 pre post,
    IB_MAD_HANDLERS = pre ++ e0 :: post ∧
    (∀ x, x ∈ pre → handler_tuple x ≠ hdr_tuple (hdr mad)) ∧
    handler_tuple e0 = hdr_tuple (hdr mad) ∧
    (let mad1 := with_hdr (set_method (resp_method e0)) mad in
     method (hdr mad1) = resp_method e0 ∧
     ib_handle_mad ibdev mad st =
       Some (handle e0 ibdev mad1, with_events [ev_handle e0 ibdev mad1] st)) ∧
    ((∀ x, x ∈ IB_MAD_HANDLERS →
           handler_tuple x = hdr_tuple (hdr mad) → x = e) → e0 = e).
Proof.
  intros Hin He. apply handler_matches_tuple in He.
  destruct (first_matching_split _ _ _ Hin He) as (e0 & pre & post & Ht & Hpre & He0).
  exists e0, pre, post. split; [done|]. split.
  { intros x Hx Hk. apply handler_matches_tuple in Hk.
    rewrite (Hpre x Hx) in Hk. done. }
  split; [by apply handler_matches_tuple|]. split.
  - split; [reflexivity|]. unfold ib_handle_mad. rewrite Ht.
    by apply ib_handle_mad_from_first.
  - intros Huniq. apply Huniq; [|by apply handler_matches_tuple].
    rewrite Ht. apply elem_of_app. right. apply list_elem_of_here.
Qed.

Lemma ib_handle_mad_unregistered ibdev mad st :
  (∀ x, x ∈ IB_MAD_HANDLERS → handler_tuple x ≠ hdr_tuple (hdr mad)) →
  ib_handle_mad ibdev mad st =
    Some ((with_hdr (set_status (htons IB_MGMT_STATUS_UNSUPPORTED_METHOD_ATTR))
             (with_hdr (set_method IB_MGMT_METHOD_TRAP) mad), - ENOTSUP), st).
Proof.
  intros Hno. apply ib_handle_mad_from_none. intros x Hx.
  destruct (handler_matches x (hdr mad)) eqn:E; [|done].
  apply handler_matches_tuple in E. by apply Hno in E.
Qed.

(** Dispatch always has a result, touches nothing but the trace, and
    keeps the MAD within its type if the handlers do. *)
Lemma ib_handle_mad_from_total table ibdev mad :
  ∃ mad' rc evs,
    (∀ st, ib_handle_mad_from table ibdev mad st =
             Some ((mad', rc), with_events evs st)) ∧
    Forall (λ e, request_event e = false) evs ∧
    transmissions evs = [] ∧ released_iobs evs = [] ∧
    ((∀ h, h ∈ table → h ∈ IB_MAD_HANDLERS) → handlers_wf →
     wf_mad mad → wf_mad mad').
Proof.
  induction table as [|x table IH]; cbn [ib_handle_mad_from].
  - exists (trap_mad mad), (- ENOTSUP), []. split_and!; try done.
    intros st. by rewrite with_events_nil.
  - destruct (handler_matches x (hdr mad)).
    + destruct (handle x ibdev (with_hdr (set_method (resp_method x)) mad))
        as [mad' rc] eqn:E.
      exists mad', rc, [ev_handle x ibdev (with_hdr (set_method (resp_method x)) mad)].
      split_and!; try done; try (by repeat constructor).
      intros Hsub Hh Hwf.
      specialize (Hh x ibdev (with_hdr (set_method (resp_method x)) mad)
                     (Hsub x (list_elem_of_here _ _)) Hwf).
      by rewrite E in Hh.
    + destruct IH as (mad' & rc & evs & E & Hev & Htx & Hrl & Hwf).
      exists mad', rc, evs. split_and!; try done.
      intros Hsub. apply Hwf. intros h Hh. apply Hsub.
      by apply list_elem_of_further.
Qed.

Lemma ib_handle_mad_total ibdev mad :
  ∃ mad' rc evs,
    (∀ st, ib_handle_mad ibdev mad st = Some ((mad', rc), with_events evs st)) ∧
    Forall (λ e, request_event e = false) evs ∧
    transmissions evs = [] ∧ released_iobs evs = [] ∧
    (handlers_wf → wf_mad mad → wf_mad mad').
Proof.
  destruct (ib_handle_mad_from_total IB_MAD_HANDLERS ibdev mad)
    as (mad' & rc & evs & E & Hev & Htx & Hrl & Hwf).
  exists mad', rc, evs. split_and!; try done. by apply Hwf.
Qed.

(** *** The store *)

Lemma request_at_Some h p r :
  request_at h p = Some r ↔ h !! p = Some (ObjRequest r).
Proof.
  unfold request_at. destruct (h !! p) as [[]|]; split; intros; simplify_eq; done.
Qed.

Lemma gma_at_Some h p g : gma_at h p = Some g ↔ h !! p = Some (ObjGma g).
Proof.
  unfold gma_at. destruct (h !! p) as [[]|]; split; intros; simplify_eq; done.
Qed.

Lemma load_request_run p r st :
  request_at (heap st) p = Some r → load_request p st = Some (r, st).
Proof.
  intros E%request_at_Some. unfold load_request, load. mrun. by rewrite E.
Qed.

Lemma load_gma_run p g st :
  gma_at (heap st) p = Some g → load_gma p st = Some (g, st).
Proof.
  intros E%gma_at_Some. unfold load_gma, load. mrun. by rewrite E.
Qed.

Lemma modify_request_run p f r st :
  request_at (heap st) p = Some r →
  modify_request p f st =
    Some ((), {| heap := <[p := ObjRequest (f r)]> (heap st);
                 next_request_tid := next_request_tid st;
                 trace := trace st |}).
Proof.
  intros E. unfold modify_request. mrun. rewrite (load_request_run _ _ _ E).
  apply request_at_Some in E. unfold store. by rewrite E.
Qed.

Lemma modify_gma_run p f g st :
  gma_at (heap st) p = Some g →
  modify_gma p f st =
    Some ((), {| heap := <[p := ObjGma (f g)]> (heap st);
                 next_request_tid := next_request_tid st;
                 trace := trace st |}).
Proof.
  intros E. unfold modify_gma. mrun. rewrite (load_gma_run _ _ _ E).
  apply gma_at_Some in E. unfold store. by rewrite E.
Qed.

Lemma stop_timer_run p r st :
  request_at (heap st) p = Some r →
  stop_timer p st =
    Some ((), {| heap := <[p := ObjRequest (set_timer_state timer_stopped r)]> (heap st);
                 next_request_tid := next_request_tid st;
                 trace := trace st ++ [ev_stop_timer p] |}).
Proof.
  intros E. unfold stop_timer. mrun. by rewrite (modify_request_run _ _ _ _ E).
Qed.

Lemma start_timer_run p r st :
  request_at (heap st) p = Some r →
  start_timer p st =
    Some ((), {| heap := <[p := ObjRequest (set_timer_state timer_running r)]> (heap st);
                 next_request_tid := next_request_tid st;
                 trace := trace st ++ [ev_start_timer p] |}).
Proof.
  intros E. unfold start_timer. mrun. by rewrite (modify_request_run _ _ _ _ E).
Qed.

Lemma start_timer_nodelay_run p r st :
  request_at (heap st) p = Some r →
  start_timer_nodelay p st =
    Some ((), {| heap := <[p := ObjRequest (set_timer_state timer_running_nodelay r)]> (heap st);
                 next_request_tid := next_request_tid st;
                 trace := trace st ++ [ev_start_timer_nodelay p] |}).
Proof.
  intros E. unfold start_timer_nodelay. mrun.
  by rewrite (modify_request_run _ _ _ _ E).
Qed.

(** Stopping the timer of a request, unlinking it and freeing it. *)
Lemma stop_del_free_run p r st :
  request_at (heap st) p = Some r →
  (stop_timer p;; list_del p;; free p) st = Some ((), retire p st).
Proof.
  intros E. rewrite bind_run, (stop_timer_run _ _ _ E), bind_run.
  unfold list_del, free. cbn [heap next_request_tid trace].
  rewrite lookup_fmap, lookup_insert_eq.
  cbn [fmap option_fmap option_map].
  unfold retire.
  rewrite fmap_insert, delete_insert_eq, <- app_assoc. done.
Qed.

(** *** Matching a response with its request (lines 154-163) *)

Lemma dequeue_request_run nodes t st :
  live_requests (heap st) nodes →
  dequeue_request nodes t st =
    Some ((), match first_match (heap st) t nodes with
              | Some p => retire p st
              | None => st
              end).
Proof.
  induction nodes as [|p nodes IH]; intros Hlive;
    cbn [dequeue_request first_match].
  - reflexivity.
  - destruct (Hlive p (list_elem_of_here _ _)) as [r Hr].
    rewrite bind_run, (load_request_run _ _ _ Hr), Hr.
    fold (tid_match t r). destruct (tid_match t r).
    + by apply (stop_del_free_run p r).
    + apply IH. intros q Hq. apply Hlive. by apply list_elem_of_further.
Qed.

Lemma first_match_Some h t nodes p :
  first_match h t nodes = Some p →
  ∃ pre post r, nodes = pre ++ p :: post ∧
    request_at h p = Some r ∧ tid_match t r = true ∧
    (∀ q, q ∈ pre → ∃ rq, request_at h q = Some rq ∧ tid_match t rq = false).
Proof.
  induction nodes as [|x nodes IH]; cbn [first_match]; [done|].
  destruct (request_at h x) as [r|] eqn:Hx; [|done].
  destruct (tid_match t r) eqn:Hm.
  - intros [= ->]. exists [], nodes, r. split_and!; try done.
    intros q Hq. by apply elem_of_nil in Hq.
  - intros (pre & post & r' & -> & Hr' & Hm' & Hpre)%IH.
    exists (x :: pre), post, r'. split_and!; try done.
    intros q [->|Hq]%elem_of_cons; eauto.
Qed.

Lemma first_match_None h t nodes :
  live_requests h nodes →
  first_match h t nodes = None ↔
  (∀ p r, p ∈ nodes → request_at h p = Some r → tid_match t r = false).
Proof.
  induction nodes as [|x nodes IH]; intros Hlive; cbn [first_match].
  - split; [|done]. intros _ p r Hp. by apply elem_of_nil in Hp.
  - destruct (Hlive x (list_elem_of_here _ _)) as [r Hr]. rewrite Hr.
    assert (Hlive' : live_requests h nodes).
    { intros q Hq. apply Hlive. by apply list_elem_of_further. }
    destruct (tid_match t r) eqn:Hm.
    + split; [done|]. intros Hall.
      rewrite (Hall x r (list_elem_of_here _ _) Hr) in Hm. done.
    + rewrite (IH Hlive'). split.
      * intros Hall p r' [->|Hp]%elem_of_cons Hr'; [congruence|eauto].
      * intros Hall p r' Hp. apply Hall. by apply list_elem_of_further.
Qed.

(** *** The response (lines 173-213) *)

Lemma send_response_no_method ibdev qp av iobuf mad prc st :
  method (hdr mad) = 0 →
  send_response ibdev qp av iobuf mad prc st =
    Some ((), with_events [ev_free_iob (set_iob_data mad iobuf)] st).
Proof. intros E. unfold send_response. rewrite E. reflexivity. Qed.

Lemma post_response_run ibdev qp av b prc st :
  (rc ← ib_post_send ibdev (qp_handle qp) av (Some b) prc;
   if negb (rc =? 0)
   then DBGC dbg_could_not_send_response;; free_iob None
   else free_iob None) st =
    Some ((), with_events (send_events ibdev qp av b prc) st).
Proof.
  unfold ib_post_send, send_events, free_iob. mrun.
  destruct (prc =? 0); cbn [negb]; mrun; wev.
Qed.

Lemma send_response_plain ibdev qp av iobuf mad prc st :
  method (hdr mad) ≠ 0 →
  mgmt_class (hdr mad) ≠ IB_MGMT_CLASS_SUBN_DIRECTED_ROUTE →
  send_response ibdev qp av iobuf mad prc st =
    Some ((), with_events
      (ev_dbgc dbg_tx_tid ::
       send_events ibdev qp (response_av av) (set_iob_data mad iobuf) prc) st).
Proof.
  intros Hm Hc. unfold send_response, directed_route.
  rewrite (proj2 (Z.eqb_neq _ _) Hm), (proj2 (Z.eqb_neq _ _) Hc).
  mrun. cbn [negb iob_disown]. fold (response_av av).
  rewrite post_response_run. wev.
Qed.

Lemma assert_run c st :
  assert c st = Some ((), with_events (if c then [] else [ev_assert_failed]) st).
Proof. destruct c; [by rewrite with_events_nil|reflexivity]. Qed.

Lemma send_response_dr_in ibdev qp av iobuf mad prc st :
  method (hdr mad) ≠ 0 →
  mgmt_class (hdr mad) = IB_MGMT_CLASS_SUBN_DIRECTED_ROUTE →
  wf_mad mad →
  hop_pointer (class_specific (hdr mad)) < Z.of_nat ib_smp_num_hops →
  send_response ibdev qp av iobuf mad prc st =
    Some ((), with_events
      (ev_dbgc dbg_tx_tid :: assert_events mad ++
       send_events ibdev qp (response_av av)
         (set_iob_data
            (set_return_path_hops
               (<[Z.to_nat (hop_pointer (class_specific (hdr mad))) :=
                    port ibdev mod 256]> (return_path_hops mad))
               (dr_mark mad)) iobuf) prc) st).
Proof.
  intros Hm Hc [Hlen Hhp] Hin. unfold send_response, directed_route.
  rewrite (proj2 (Z.eqb_neq _ _) Hm), Hc, Z.eqb_refl.
  fold (dr_mark mad). mrun. rewrite assert_run. mrun.
  change (hop_pointer (class_specific (hdr (dr_mark mad))))
    with (hop_pointer (class_specific (hdr mad))).
  change (hop_count (class_specific (hdr (dr_mark mad))))
    with (hop_count (class_specific (hdr mad))).
  rewrite (proj2 (Z.ltb_lt _ _) Hin). unfold array_store.
  change (return_path_hops (dr_mark mad)) with (return_path_hops mad).
  rewrite Hlen, (proj2 (Z.leb_le _ _) (proj1 Hhp)), (proj2 (Z.ltb_lt _ _) Hin).
  cbn [andb]. mrun. cbn [negb iob_disown]. fold (response_av av).
  rewrite post_response_run. wev.
Qed.

Lemma send_response_dr_out ibdev qp av iobuf mad prc st :
  method (hdr mad) ≠ 0 →
  mgmt_class (hdr mad) = IB_MGMT_CLASS_SUBN_DIRECTED_ROUTE →
  Z.of_nat ib_smp_num_hops ≤ hop_pointer (class_specific (hdr mad)) →
  send_response ibdev qp av iobuf mad prc st =
    Some ((), with_events
      (ev_dbgc dbg_tx_tid :: assert_events mad ++
       [ev_dbgc dbg_invalid_hop_pointer;
        ev_free_iob (set_iob_data (dr_mark mad) iobuf)]) st).
Proof.
  intros Hm Hc Hout. unfold send_response, directed_route.
  rewrite (proj2 (Z.eqb_neq _ _) Hm), Hc, Z.eqb_refl.
  fold (dr_mark mad). mrun. rewrite assert_run. mrun.
  change (hop_pointer (class_specific (hdr (dr_mark mad))))
    with (hop_pointer (class_specific (hdr mad))).
  change (hop_count (class_specific (hdr (dr_mark mad))))
    with (hop_count (class_specific (hdr mad))).
  rewrite (proj2 (Z.ltb_ge _ _) Hout). mrun. cbn [negb free_iob]. mrun.
  wev.
Qed.

Lemma assert_events_quiet mad :
  Forall (λ e, request_event e = false) (assert_events mad) ∧
  transmissions (assert_events mad) = [] ∧
  released_iobs (assert_events mad) = [] ∧
  handler_calls (assert_events mad) = [].
Proof. unfold assert_events. destruct (_ =? _); by repeat constructor. Qed.

Lemma send_events_quiet ibdev qp av b prc :
  Forall (λ e, request_event e = false) (send_events ibdev qp av b prc) ∧
  transmissions (send_events ibdev qp av b prc) = [(av, b)] ∧
  released_iobs (send_events ibdev qp av b prc) = [] ∧
  handler_calls (send_events ibdev qp av b prc) = [].
Proof. unfold send_events. destruct (_ =? _); by repeat constructor. Qed.

(** The response stage has a result for every MAD within its type, and
    touches nothing but the trace, where it leaves no call on a
    request. *)
Lemma send_response_total ibdev qp av iobuf mad prc st :
  wf_mad mad →
  ∃ evs, send_response ibdev qp av iobuf mad prc st = Some ((), with_events evs st) ∧
    Forall (λ e, request_event e = false) evs.
Proof.
  intros Hwf.
  destruct (Z.eq_dec (method (hdr mad)) 0) as [Hm|Hm].
  { eexists. split; [by apply send_response_no_method|]. by repeat constructor. }
  destruct (Z.eq_dec (mgmt_class (hdr mad)) IB_MGMT_CLASS_SUBN_DIRECTED_ROUTE)
    as [Hc|Hc].
  - destruct (Z.lt_ge_cases (hop_pointer (class_specific (hdr mad)))
                            (Z.of_nat ib_smp_num_hops)) as [Hin|Hout].
    + eexists. split; [by apply send_response_dr_in|].
      constructor; [done|]. apply Forall_app. split.
      * apply assert_events_quiet.
      * apply send_events_quiet.
    + eexists. split; [by apply send_response_dr_out|].
      constructor; [done|]. apply Forall_app. split.
      * apply assert_events_quiet.
      * by repeat constructor.
  - eexists. split; [by apply send_response_plain|].
    constructor; [done|]. apply send_events_quiet.
Qed.

(** *** The whole receive completion *)

Lemma ib_handle_mad_indep ibdev mad st r st' :
  ib_handle_mad ibdev mad st = Some (r, st') →
  ∃ evs, (∀ s, ib_handle_mad ibdev mad s = Some (r, with_events evs s)) ∧
    Forall (λ e, request_event e = false) evs ∧
    transmissions evs = [] ∧ released_iobs evs = [].
Proof.
  destruct (ib_handle_mad_total ibdev mad) as (mad' & rc & evs & E & Hev & Htx & Hrl & _).
  rewrite E. intros [= <- _]. by exists evs.
Qed.

Lemma complete_recv_valid ibdev qp av iobuf prc st g mad' rc' evs :
  iob_len iobuf = sizeof_ib_mad →
  base_version (hdr (iob_data iobuf)) = IB_MGMT_BASE_VERSION →
  gma_at (heap st) (qp_ownerdata qp) = Some g →
  live_requests (heap st) (requests g) →
  (∀ s, ib_handle_mad ibdev (iob_data iobuf) s =
          Some ((mad', rc'), with_events evs s)) →
  ib_gma_complete_recv ibdev qp av iobuf 0 prc st =
    send_response ibdev qp av iobuf mad' prc
      (with_events (evs ++ if rc' =? 0 then [] else [ev_dbgc dbg_could_not_handle])
         (after_dequeue g (tid (hdr (iob_data iobuf))) st)).
Proof.
  intros Hlen Hv Hg Hlive Hd. unfold ib_gma_complete_recv.
  rewrite Hlen, Hv, !Z.eqb_refl. cbn [negb Z.eqb]. mrun.
  rewrite (load_gma_run _ g) by done. mrun.
  rewrite dequeue_request_run by done. cbn [heap].
  fold (with_events [ev_dbgc dbg_rx_tid] st).
  fold (after_dequeue g (tid (hdr (iob_data iobuf))) st).
  rewrite bind_run, Hd. destruct (rc' =? 0); cbn [negb]; mrun.
  - by rewrite app_nil_r.
  - fold (with_events [ev_dbgc dbg_could_not_handle]
            (with_events evs (after_dequeue g (tid (hdr (iob_data iobuf))) st))).
    by rewrite with_events_app.
Qed.

Lemma requests_wf_live h l : requests_wf h l → live_requests h l.
Proof. intros Hwf p Hp. destruct (Hwf p Hp) as (r & -> & _). by eexists. Qed.

(** *** Unlinking a node *)

Lemma unlink_notin p l : p ∉ l → unlink p l = l.
Proof.
  induction l as [|x l IH]; cbn [unlink]; [done|].
  intros [Hne Hl]%not_elem_of_cons. case_decide; [congruence|].
  by rewrite IH.
Qed.

Lemma unlink_spec p l pre post :
  l = pre ++ p :: post → p ∉ pre → unlink p l = pre ++ post.
Proof.
  intros -> Hpre. induction pre as [|x pre IH]; cbn [unlink app].
  - by rewrite decide_True.
  - apply not_elem_of_cons in Hpre as [Hne Hpre].
    rewrite decide_False by congruence. by rewrite IH.
Qed.

Lemma unlink_NoDup p l :
  NoDup l → p ∈ l →
  (p ∉ unlink p l) ∧ S (length (unlink p l)) = length l ∧
  (∀ q, q ≠ p → (q ∈ unlink p l ↔ q ∈ l)).
Proof.
  intros Hnd Hp. apply list_elem_of_split in Hp as (pre & post & ->).
  apply NoDup_app in Hnd as (Hpre & Hdisj & Hpost).
  apply NoDup_cons in Hpost as [Hp Hpost].
  assert (p ∉ pre) as Hnpre.
  { intros Hin. apply (Hdisj p Hin). apply list_elem_of_here. }
  rewrite (unlink_spec p _ pre post eq_refl Hnpre). split_and!.
  - rewrite elem_of_app. tauto.
  - rewrite !length_app. cbn [length]. lia.
  - intros q Hq. rewrite !elem_of_app, elem_of_cons. tauto.
Qed.

(** *** What retiring a request changes *)

Lemma retire_request_at p q st :
  request_at (heap (retire p st)) q =
  if decide (q = p) then None else request_at (heap st) q.
Proof.
  unfold retire, request_at. cbn [heap]. case_decide as Hq.
  - subst. by rewrite lookup_delete_eq.
  - rewrite lookup_delete_ne, lookup_fmap by done.
    destruct (heap st !! q) as [[]|]; reflexivity.
Qed.

Lemma retire_gma_at p q st :
  gma_at (heap (retire p st)) q =
  if decide (q = p) then None
  else (λ g, set_requests (unlink p (requests g)) g) <$> gma_at (heap st) q.
Proof.
  unfold retire, gma_at. cbn [heap]. case_decide as Hq.
  - subst. by rewrite lookup_delete_eq.
  - rewrite lookup_delete_ne, lookup_fmap by done.
    destruct (heap st !! q) as [[]|]; reflexivity.
Qed.

Lemma after_dequeue_trace g t st :
  ∃ evs, trace (after_dequeue g t st) = trace st ++ evs ∧
    transmissions evs = [] ∧ released_iobs evs = [] ∧ handler_calls evs = [].
Proof.
  unfold after_dequeue. destruct (first_match _ _ _) as [p|].
  - exists [ev_dbgc dbg_rx_tid; ev_stop_timer p; ev_free p].
    split; [|done]. unfold retire, with_events. cbn [trace].
    by rewrite <- app_assoc.
  - by exists [ev_dbgc dbg_rx_tid].
Qed.

Lemma after_dequeue_heap g t st :
  heap (after_dequeue g t st) =
  match first_match (heap st) t (requests g) with
  | Some p => delete p (unlink_in p <$> heap st)
  | None => heap st
  end.
Proof. unfold after_dequeue. by destruct (first_match _ _ _). Qed.

Lemma quiet_no_request_event evs :
  Forall (λ e, request_event e = false) evs →
  ∀ q, (ev_free q ∉ evs) ∧ (ev_stop_timer q ∉ evs).
Proof.
  intros Hq q. rewrite Forall_forall in Hq.
  split; intros Hin; by apply Hq in Hin.
Qed.

Lemma tid_match_eq t r : tid (hdr (req_mad r)) = t → tid_match t r = true.
Proof. intros <-. apply tid_match_bytes. reflexivity. Qed.

Lemma tid_match_wf t r :
  wf_tid t → wf_tid (tid (hdr (req_mad r))) →
  tid_match t r = true → tid (hdr (req_mad r)) = t.
Proof. intros Ht Hr E%tid_match_bytes. by apply tid_bytes_inj. Qed.

(** A valid completion: the search of the request list, then a
    dispatch and a response stage that leave no call on a request. *)
Lemma complete_recv_run ibdev qp av iobuf prc st g :
  valid_recv qp iobuf st g → handlers_wf →
  ∃ evs,
    ib_gma_complete_recv ibdev qp av iobuf 0 prc st =
      Some ((), with_events evs (after_dequeue g (tid (hdr (iob_data iobuf))) st)) ∧
    Forall (λ e, request_event e = false) evs.
Proof.
  intros (Hlen & Hv & Hwf & Hwt & Hg & Hreq & Hnd) Hh.
  destruct (ib_handle_mad_total ibdev (iob_data iobuf))
    as (mad' & rc' & evs1 & Hd & Hev1 & _ & _ & Hwf').
  pose proof (complete_recv_valid ibdev qp av iobuf prc st g mad' rc' evs1
                Hlen Hv Hg (requests_wf_live _ _ Hreq) Hd) as Hrun.
  destruct (send_response_total ibdev qp av iobuf mad' prc
    (with_events (evs1 ++ (if rc' =? 0 then [] else [ev_dbgc dbg_could_not_handle]))
       (after_dequeue g (tid (hdr (iob_data iobuf))) st)) (Hwf' Hh Hwf))
    as (evs2 & Hsend & Hev2).
  rewrite Hsend, with_events_app in Hrun.
  eexists. split; [exact Hrun|].
  repeat apply Forall_app_2; try done. destruct (rc' =? 0); by repeat constructor.
Qed.

(** C2: a validated inbound MAD whose transaction id is that of an
    outstanding request makes the agent stop the timer of exactly one
    such request (the first in list order), then unlink it and free it;
    every other request stays as it was.  A validated inbound MAD whose
    transaction id is that of no outstanding request leaves the store,
    hence the list of outstanding requests, unchanged. *)
Theorem ib_gma_complete_recv_retires ibdev qp av iobuf prc st g :
  valid_recv qp iobuf st g → handlers_wf →
  let t := tid (hdr (iob_data iobuf)) in
  ∃ st' evs,
    ib_gma_complete_recv ibdev qp av iobuf 0 prc st = Some ((), st') ∧
    trace st' = trace st ++ evs ∧
    ((∃ q rq, q ∈ requests g ∧ request_at (heap st) q = Some rq ∧
              tid (hdr (req_mad rq)) = t) →
     ∃ p r before after,
       p ∈ requests g ∧ request_at (heap st) p = Some r ∧
       tid (hdr (req_mad r)) = t ∧
       evs = before ++ [ev_stop_timer p; ev_free p] ++ after ∧
       (∀ q, (ev_free q ∉ before ++ after) ∧ (ev_stop_timer q ∉ before ++ after)) ∧
       heap st' !! p = None ∧
       gma_at (heap st') (qp_ownerdata qp) =
         Some (set_requests (unlink p (requests g)) g) ∧
       (p ∉ unlink p (requests g)) ∧
       S (length (unlink p (requests g))) = length (requests g) ∧
       (∀ q, q ≠ p → (q ∈ unlink p (requests g) ↔ q ∈ requests g)) ∧
       (∀ q, q ≠ p → request_at (heap st') q = request_at (heap st) q)) ∧
    ((∀ q rq, q ∈ requests g → request_at (heap st) q = Some rq →
              tid (hdr (req_mad rq)) ≠ t) →
     heap st' = heap st ∧ (∀ q, (ev_free q ∉ evs) ∧ (ev_stop_timer q ∉ evs))).
Proof.
  intros Hvalid Hh t.
  destruct (complete_recv_run ibdev qp av iobuf prc st g Hvalid Hh)
    as (evs & Hrun & Hquiet).
  destruct Hvalid as (Hlen & Hv & Hwf & Hwt & Hg & Hreq & Hnd).
  fold t in Hrun. unfold after_dequeue in Hrun.
  destruct (first_match (heap st) t (requests g)) as [p|] eqn:Hfm.
  - apply first_match_Some in Hfm as (pre & post & r & Hl & Hr & Hm & Hpre).
    assert (Hp : p ∈ requests g).
    { rewrite Hl. apply elem_of_app. right. apply list_elem_of_here. }
    destruct (Hreq p Hp) as (r' & Hr' & Hwr). rewrite Hr in Hr'.
    injection Hr' as <-.
    assert (Ht : tid (hdr (req_mad r)) = t) by by apply tid_match_wf.
    eexists _, _. split; [exact Hrun|]. split.
    { cbn [with_events retire trace]. rewrite <- !app_assoc. reflexivity. }
    split.
    + intros _. exists p, r, [ev_dbgc dbg_rx_tid], evs.
      destruct (unlink_NoDup p (requests g) Hnd Hp) as (Hu1 & Hu2 & Hu3).
      split_and!; try done.
      * intros q. destruct (quiet_no_request_event evs Hquiet q) as [H1 H2].
        split; intros [E|E]%elem_of_cons; done.
      * cbn [with_events retire heap]. apply lookup_delete_eq.
      * rewrite with_events_heap, retire_gma_at, with_events_heap, Hg. case_decide as E; [|done]. subst.
        apply gma_at_Some in Hg. apply request_at_Some in Hr. congruence.
      * intros q Hq. rewrite with_events_heap, retire_request_at.
        by rewrite decide_False.
    + intros Hno. exfalso. by apply (Hno p r Hp Hr).
  - eexists _, _. split; [exact Hrun|]. split.
    { cbn [with_events trace]. rewrite <- !app_assoc. reflexivity. }
    split.
    + intros (q & rq & Hq & Hrq & Ht). exfalso.
      pose proof (proj1 (first_match_None _ t _ (requests_wf_live _ _ Hreq))
                    Hfm q rq Hq Hrq) as Hno.
      by rewrite (tid_match_eq t rq Ht) in Hno.
    + intros _. split; [reflexivity|]. intros q.
      destruct (quiet_no_request_event evs Hquiet q) as [H1 H2].
      split; intros [E|E]%elem_of_cons; done.
Qed.


(** C10: a request is retired by an inbound MAD only if the eight
    bytes of its stored transaction id equal those of the inbound
    header, that is, both the magic word and the counter word; a
    request whose transaction id agrees with the inbound one in the
    counter word but not in the magic word is not retired, and when
    this holds of every outstanding request nothing is retired. *)
Theorem ib_gma_complete_recv_tid_bytes ibdev qp av iobuf prc st g :
  valid_recv qp iobuf st g → handlers_wf →
  let t := tid (hdr (iob_data iobuf)) in
  ∃ st',
    ib_gma_complete_recv ibdev qp av iobuf 0 prc st = Some ((), st') ∧
    (∀ p r, p ∈ requests g → request_at (heap st) p = Some r →
            heap st' !! p = None →
            tid_bytes (tid (hdr (req_mad r))) = tid_bytes t ∧
            (tid (hdr (req_mad r))).1 = t.1 ∧ (tid (hdr (req_mad r))).2 = t.2) ∧
    (∀ p r, p ∈ requests g → request_at (heap st) p = Some r →
            (tid (hdr (req_mad r))).2 = t.2 → (tid (hdr (req_mad r))).1 ≠ t.1 →
            request_at (heap st') p = Some r) ∧
    ((∀ p r, p ∈ requests g → request_at (heap st) p = Some r →
             (tid (hdr (req_mad r))).1 ≠ t.1) →
     heap st' = heap st).
Proof.
  intros Hvalid Hh t.
  destruct (complete_recv_run ibdev qp av iobuf prc st g Hvalid Hh)
    as (evs & Hrun & _).
  destruct Hvalid as (Hlen & Hv & Hwf & Hwt & Hg & Hreq & Hnd).
  fold t in Hrun, Hwt. eexists. split; [exact Hrun|].
  rewrite with_events_heap, after_dequeue_heap.
  destruct (first_match (heap st) t (requests g)) as [p0|] eqn:Hfm.
  - apply first_match_Some in Hfm as (pre & post & r0 & Hl & Hr0 & Hm & Hpre).
    assert (Hp0 : p0 ∈ requests g).
    { rewrite Hl. apply elem_of_app. right. apply list_elem_of_here. }
    destruct (Hreq p0 Hp0) as (r' & Hr' & Hwr). rewrite Hr0 in Hr'.
    injection Hr' as <-.
    pose proof (tid_match_wf t r0 Hwt Hwr Hm) as Ht.
    split_and!.
    + intros p r Hp Hr Hgone. destruct (decide (p = p0)) as [->|Hne].
      * rewrite Hr0 in Hr. injection Hr as <-. by rewrite Ht.
      * rewrite lookup_delete_ne, lookup_fmap in Hgone by done.
        apply request_at_Some in Hr. by rewrite Hr in Hgone.
    + intros p r Hp Hr _ Hhi. destruct (decide (p = p0)) as [->|Hne].
      * rewrite Hr0 in Hr. injection Hr as <-. by rewrite Ht in Hhi.
      * unfold request_at. rewrite lookup_delete_ne, lookup_fmap by done.
        apply request_at_Some in Hr. by rewrite Hr.
    + intros Hall. exfalso. apply (Hall p0 r0 Hp0 Hr0). by rewrite Ht.
  - split_and!; try done. intros p r Hp Hr Hgone.
    apply request_at_Some in Hr. by rewrite Hr in Hgone.
Qed.


Lemma transmissions_app e1 e2 :
  transmissions (e1 ++ e2) = transmissions e1 ++ transmissions e2.
Proof. apply omap_app. Qed.

Lemma released_iobs_app e1 e2 :
  released_iobs (e1 ++ e2) = released_iobs e1 ++ released_iobs e2.
Proof. apply omap_app. Qed.

Lemma handler_calls_app e1 e2 :
  handler_calls (e1 ++ e2) = handler_calls e1 ++ handler_calls e2.
Proof. apply omap_app. Qed.

(** A valid completion whose dispatch and response stage are known. *)
Lemma complete_recv_response ibdev qp av iobuf prc st g mad' rc' evs1 evs2 :
  valid_recv qp iobuf st g →
  (∀ s, ib_handle_mad ibdev (iob_data iobuf) s =
          Some ((mad', rc'), with_events evs1 s)) →
  (∀ s, send_response ibdev qp av iobuf mad' prc s =
          Some ((), with_events evs2 s)) →
  ∃ st' evs,
    ib_gma_complete_recv ibdev qp av iobuf 0 prc st = Some ((), st') ∧
    trace st' = trace st ++ evs ∧
    transmissions evs = transmissions evs1 ++ transmissions evs2 ∧
    released_iobs evs = released_iobs evs1 ++ released_iobs evs2 ∧
    handler_calls evs = handler_calls evs1 ++ handler_calls evs2.
Proof.
  intros (Hlen & Hv & Hwf & Hwt & Hg & Hreq & Hnd) Hd Hs.
  rewrite (complete_recv_valid ibdev qp av iobuf prc st g mad' rc' evs1
             Hlen Hv Hg (requests_wf_live _ _ Hreq) Hd), Hs, with_events_app.
  destruct (after_dequeue_trace g (tid (hdr (iob_data iobuf))) st)
    as (evs0 & Ht & Htx & Hrl & Hhc).
  eexists _, _. split; [reflexivity|]. split.
  { cbn [with_events trace]. rewrite Ht, <- app_assoc. reflexivity. }
  rewrite !transmissions_app, !released_iobs_app, !handler_calls_app, Htx, Hrl, Hhc.
  destruct (rc' =? 0); cbn [app transmissions released_iobs handler_calls omap];
    by rewrite ?app_nil_r.
Qed.

Lemma obs_cons_dbgc m l :
  transmissions (ev_dbgc m :: l) = transmissions l ∧
  released_iobs (ev_dbgc m :: l) = released_iobs l ∧
  handler_calls (ev_dbgc m :: l) = handler_calls l.
Proof. done. Qed.

(** What the response stage does with the buffer: it releases it when
    there is nothing to send or the hop pointer is out of bounds, and
    hands it to the transport otherwise. *)
Lemma send_response_obs ibdev qp av iobuf mad prc :
  wf_mad mad →
  ∃ evs,
    (∀ s, send_response ibdev qp av iobuf mad prc s = Some ((), with_events evs s)) ∧
    handler_calls evs = [] ∧
    if method (hdr mad) =? 0 then
      transmissions evs = [] ∧ released_iobs evs = [set_iob_data mad iobuf]
    else if (mgmt_class (hdr mad) =? IB_MGMT_CLASS_SUBN_DIRECTED_ROUTE) &&
            negb (hop_pointer (class_specific (hdr mad)) <? Z.of_nat ib_smp_num_hops)
    then transmissions evs = [] ∧
         released_iobs evs = [set_iob_data (dr_mark mad) iobuf]
    else transmissions evs =
           [(response_av av, set_iob_data (response_mad ibdev mad) iobuf)] ∧
         released_iobs evs = [].
Proof.
  intros Hwf.
  destruct (Z.eqb_spec (method (hdr mad)) 0) as [Hm|Hm].
  { eexists. split; [intros s; by apply send_response_no_method|]. done. }
  unfold response_mad.
  destruct (Z.eqb_spec (mgmt_class (hdr mad)) IB_MGMT_CLASS_SUBN_DIRECTED_ROUTE)
    as [Hc|Hc]; cbn [andb].
  - destruct (assert_events_quiet mad) as (_ & Atx & Arl & Ahc).
    destruct (Z.ltb_spec (hop_pointer (class_specific (hdr mad)))
                         (Z.of_nat ib_smp_num_hops)) as [Hin|Hout]; cbn [negb].
    + eexists. split; [intros s; by apply send_response_dr_in|].
      match goal with |- context [send_events ?a ?b ?c ?d ?e] =>
        destruct (send_events_quiet a b c d e) as (_ & Stx & Srl & Shc) end.
      rewrite (proj1 (obs_cons_dbgc _ _)), (proj1 (proj2 (obs_cons_dbgc _ _))),
        (proj2 (proj2 (obs_cons_dbgc _ _))).
      rewrite ?handler_calls_app, ?transmissions_app, ?released_iobs_app.
      rewrite Atx, Arl, Ahc, Stx, Srl, Shc. done.
    + eexists. split; [intros s; by apply send_response_dr_out|].
      rewrite (proj1 (obs_cons_dbgc _ _)), (proj1 (proj2 (obs_cons_dbgc _ _))),
        (proj2 (proj2 (obs_cons_dbgc _ _))).
      rewrite ?handler_calls_app, ?transmissions_app, ?released_iobs_app.
      rewrite Atx, Arl, Ahc. done.
  - eexists. split; [intros s; by apply send_response_plain|].
    match goal with |- context [send_events ?a ?b ?c ?d ?e] =>
      destruct (send_events_quiet a b c d e) as (_ & Stx & Srl & Shc) end.
    rewrite (proj1 (obs_cons_dbgc _ _)), (proj1 (proj2 (obs_cons_dbgc _ _))),
      (proj2 (proj2 (obs_cons_dbgc _ _))).
    rewrite ?handler_calls_app, ?transmissions_app, ?released_iobs_app.
    rewrite Stx, Srl, Shc. done.
Qed.

Lemma wf_mad_trap mad : wf_mad mad → wf_mad (trap_mad mad).
Proof. intros Hwf. exact Hwf. Qed.

(** C4 (as amended): when no entry of the handler table has the
    4-tuple of a validated inbound MAD, dispatch calls no handler, sets
    the method to the trap method and the status to the unsupported
    method/attribute code in network byte order, and returns -ENOTSUP,
    which does not end processing.  With a trap method other than 0
    the buffer is then handed to the transport as a response, unless
    the MAD is a directed-route one whose hop pointer is outside the
    return path, in which case the buffer is released and nothing is
    sent. *)
Theorem ib_gma_complete_recv_unregistered ibdev qp av iobuf prc st g :
  valid_recv qp iobuf st g →
  (∀ x, x ∈ IB_MAD_HANDLERS →
        handler_tuple x ≠ hdr_tuple (hdr (iob_data iobuf))) →
  IB_MGMT_METHOD_TRAP ≠ 0 →
  let mad' := trap_mad (iob_data iobuf) in
  ib_handle_mad ibdev (iob_data iobuf) st = Some ((mad', - ENOTSUP), st) ∧
  method (hdr mad') = IB_MGMT_METHOD_TRAP ∧
  status (hdr mad') = htons IB_MGMT_STATUS_UNSUPPORTED_METHOD_ATTR ∧
  u16_bytes (status (hdr mad')) =
    [IB_MGMT_STATUS_UNSUPPORTED_METHOD_ATTR / 2 ^ 8 mod 256;
     IB_MGMT_STATUS_UNSUPPORTED_METHOD_ATTR mod 256] ∧
  ∃ st' evs,
    ib_gma_complete_recv ibdev qp av iobuf 0 prc st = Some ((), st') ∧
    trace st' = trace st ++ evs ∧
    handler_calls evs = [] ∧
    if (mgmt_class (hdr mad') =? IB_MGMT_CLASS_SUBN_DIRECTED_ROUTE) &&
       negb (hop_pointer (class_specific (hdr mad')) <? Z.of_nat ib_smp_num_hops)
    then transmissions evs = [] ∧
         released_iobs evs = [set_iob_data (dr_mark mad') iobuf]
    else transmissions evs =
           [(response_av av, set_iob_data (response_mad ibdev mad') iobuf)] ∧
         released_iobs evs = [] ∧
         method (hdr (response_mad ibdev mad')) = IB_MGMT_METHOD_TRAP.
Proof.
  intros Hvalid Hno Htrap mad'.
  split; [by apply ib_handle_mad_unregistered|].
  split; [reflexivity|]. split; [reflexivity|].
  split; [apply u16_bytes_htons|].
  assert (Hd : ∀ s, ib_handle_mad ibdev (iob_data iobuf) s =
                    Some ((mad', - ENOTSUP), with_events [] s)).
  { intros s. rewrite with_events_nil. by apply ib_handle_mad_unregistered. }
  assert (Hwf : wf_mad mad') by (apply wf_mad_trap, Hvalid).
  destruct (send_response_obs ibdev qp av iobuf mad' prc Hwf)
    as (evs2 & Hs & Hhc2 & Hobs).
  destruct (complete_recv_response ibdev qp av iobuf prc st g _ _ _ _ Hvalid Hd Hs)
    as (st' & evs & Hrun & Ht & Htx & Hrl & Hhc).
  exists st', evs. split; [done|]. split; [done|].
  split; [by rewrite Hhc, Hhc2|].
  rewrite Htx, Hrl. cbn [transmissions released_iobs omap app].
  change (method (hdr mad')) with IB_MGMT_METHOD_TRAP in Hobs.
  rewrite (proj2 (Z.eqb_neq _ _) Htrap) in Hobs.
  destruct ((mgmt_class (hdr mad') =? IB_MGMT_CLASS_SUBN_DIRECTED_ROUTE) &&
            negb (hop_pointer (class_specific (hdr mad')) <? Z.of_nat ib_smp_num_hops)).
  - exact Hobs.
  - destruct Hobs as [? ?]. split_and!; try done.
    unfold response_mad. by destruct (_ =? _).
Qed.


Lemma land_lor_same a b : Z.land (Z.lor a b) b = b.
Proof.
  apply Z.bits_inj'. intros n Hn. rewrite Z.land_spec, Z.lor_spec.
  destruct (Z.testbit a n), (Z.testbit b n); reflexivity.
Qed.

(** C5: for a validated MAD of the directed-route class that is to be
    answered (method not 0 after dispatch), the inbound-direction bit
    is set in the status; then, with a hop pointer below the number of
    elements of the return path, the port of the device is stored at
    that index, no other element changes, and the buffer is handed to
    the transport; with a hop pointer at or above that number the
    buffer is released with its return path as it was and nothing is
    sent.  Whatever the hop pointer, the function has a result: no
    store goes outside the array. *)
Theorem ib_gma_complete_recv_directed_route ibdev qp av iobuf prc st g
    mad' rc' st1 :
  valid_recv qp iobuf st g → handlers_wf →
  ib_handle_mad ibdev (iob_data iobuf) st = Some ((mad', rc'), st1) →
  method (hdr mad') ≠ 0 →
  mgmt_class (hdr mad') = IB_MGMT_CLASS_SUBN_DIRECTED_ROUTE →
  0 ≤ port ibdev < 256 →
  let hp := hop_pointer (class_specific (hdr mad')) in
  ∃ st' evs,
    ib_gma_complete_recv ibdev qp av iobuf 0 prc st = Some ((), st') ∧
    trace st' = trace st ++ evs ∧
    status (hdr (dr_mark mad')) =
      Z.lor (status (hdr mad')) (htons IB_SMP_STATUS_D_INBOUND) ∧
    Z.land (status (hdr (dr_mark mad'))) (htons IB_SMP_STATUS_D_INBOUND) =
      htons IB_SMP_STATUS_D_INBOUND ∧
    (hp < Z.of_nat ib_smp_num_hops →
       transmissions evs =
         [(response_av av, set_iob_data (response_mad ibdev mad') iobuf)] ∧
       released_iobs evs = [] ∧
       hdr (response_mad ibdev mad') = hdr (dr_mark mad') ∧
       return_path_hops (response_mad ibdev mad') !! Z.to_nat hp =
         Some (port ibdev) ∧
       (∀ i, i ≠ Z.to_nat hp →
             return_path_hops (response_mad ibdev mad') !! i =
             return_path_hops mad' !! i)) ∧
    (Z.of_nat ib_smp_num_hops ≤ hp →
       transmissions evs = [] ∧
       released_iobs evs = [set_iob_data (dr_mark mad') iobuf] ∧
       return_path_hops (dr_mark mad') = return_path_hops mad').
Proof.
  intros Hvalid Hh Hdisp Hm Hc Hport hp.
  destruct (ib_handle_mad_total ibdev (iob_data iobuf))
    as (mad2 & rc2 & evs1 & Hd & _ & Htx1 & Hrl1 & Hwf').
  rewrite Hd in Hdisp. injection Hdisp as -> -> _.
  assert (Hwf : wf_mad mad') by (apply Hwf'; [done|apply Hvalid]).
  destruct (send_response_obs ibdev qp av iobuf mad' prc Hwf)
    as (evs2 & Hs & _ & Hobs).
  destruct (complete_recv_response ibdev qp av iobuf prc st g _ _ _ _ Hvalid Hd Hs)
    as (st' & evs & Hrun & Ht & Htx & Hrl & _).
  exists st', evs. split; [done|]. split; [done|].
  split; [reflexivity|]. split; [apply land_lor_same|].
  rewrite Htx, Hrl, Htx1, Hrl1. cbn [app].
  rewrite (proj2 (Z.eqb_neq _ _) Hm), Hc, Z.eqb_refl in Hobs. cbn [andb] in Hobs.
  fold hp in Hobs. split.
  - intros Hin. rewrite (proj2 (Z.ltb_lt _ _) Hin) in Hobs. cbn [negb] in Hobs.
    destruct Hobs as [-> ->]. split; [done|]. split; [done|].
    unfold response_mad. rewrite Hc, Z.eqb_refl.
    cbn [hdr return_path_hops set_return_path_hops]. fold hp.
    destruct Hwf as [Hlen Hhp]. split; [reflexivity|]. split.
    + rewrite list_lookup_insert_eq.
      * by rewrite Z.mod_small.
      * change (return_path_hops (dr_mark mad')) with (return_path_hops mad').
        rewrite Hlen. fold hp in Hhp. lia.
    + intros i Hi. by rewrite list_lookup_insert_ne.
  - intros Hout. rewrite (proj2 (Z.ltb_ge _ _) Hout) in Hobs. cbn [negb] in Hobs.
    destruct Hobs as [-> ->]. done.
Qed.


(** *** The retry timer (lines 249-297) *)

Lemma timer_expired_abandon p r ga g alloc_ok prc st :
  request_at (heap st) p = Some r → req_gma r = Some ga →
  gma_at (heap st) ga = Some g →
  ib_gma_timer_expired p true alloc_ok prc st =
    Some ((), with_events [ev_dbgc dbg_abandoning_tid; ev_free p]
                (with_heap (delete p (unlink_in p <$> heap st)) st)).
Proof.
  intros Hr Hga Hg. unfold ib_gma_timer_expired.
  rewrite bind_run, (load_request_run _ _ _ Hr), bind_run, Hga.
  cbn [from_option]. rewrite (load_gma_run _ _ _ Hg). mrun.
  unfold list_del, free. cbn [heap next_request_tid trace].
  rewrite lookup_fmap. apply request_at_Some in Hr. rewrite Hr.
  cbn [fmap option_fmap option_map]. wev.
Qed.

Lemma timer_expired_retry p r ga g answer st :
  request_at (heap st) p = Some r → req_gma r = Some ga →
  gma_at (heap st) ga = Some g →
  ib_gma_timer_expired p false answer.1 answer.2 st =
    Some ((), with_events (retry_events p g r answer)
                (with_heap (<[p := ObjRequest (set_timer_state timer_running r)]>
                              (heap st)) st)).
Proof.
  intros Hr Hga Hg. unfold ib_gma_timer_expired.
  rewrite bind_run, (load_request_run _ _ _ Hr), bind_run, Hga.
  cbn [from_option]. rewrite (load_gma_run _ _ _ Hg). mrun.
  rewrite (start_timer_run p r) by done. unfold alloc_iob. mrun.
  unfold retry_events. destruct answer as [[] prc]; cbn [fst snd].
  - rewrite bind_run, (load_request_run p (set_timer_state timer_running r)).
    2: { cbn [heap]. unfold request_at. by rewrite lookup_insert_eq. }
    unfold ib_post_send. mrun. unfold retry_iobuf, set_iob_data, iob_put.
    cbn [iob_len iob_data req_mad req_av set_timer_state set_req_timer].
    destruct (prc =? 0); cbn [negb free_iob]; mrun; wev.
  - mrun. wev.
Qed.


Lemma with_heap_with_events h evs st :
  with_heap h (with_events evs st) = with_events evs (with_heap h st).
Proof. reflexivity. Qed.

Lemma with_heap_id st : with_heap (heap st) st = st.
Proof. by destruct st. Qed.

(** [n] expiries in a row: the first arms the timer, the others find it
    armed, and each leaves the events of one retry. *)
Lemma expire_n_run p ga g answers : ∀ r st,
  request_at (heap st) p = Some r → req_gma r = Some ga →
  gma_at (heap st) ga = Some g →
  expire_n p answers st =
    Some ((), with_events (concat (map (retry_events p g r) answers))
                (with_heap (match answers with
                            | [] => heap st
                            | _ => <[p := ObjRequest (set_timer_state timer_running r)]>
                                     (heap st)
                            end) st)).
Proof.
  induction answers as [|a answers IH]; intros r st Hr Hga Hg.
  - cbn [expire_n map concat]. by rewrite with_heap_id, with_events_nil.
  - cbn [expire_n map concat]. destruct a as [alloc_ok prc].
    rewrite bind_run.
    change (ib_gma_timer_expired p false alloc_ok prc st)
      with (ib_gma_timer_expired p false (alloc_ok, prc).1 (alloc_ok, prc).2 st).
    rewrite (timer_expired_retry p r ga g (alloc_ok, prc) st Hr Hga Hg).
    assert (Hne : p ≠ ga).
    { intros ->. apply request_at_Some in Hr. apply gma_at_Some in Hg. congruence. }
    rewrite (IH (set_timer_state timer_running r)).
    + unfold with_events, with_heap. cbn [heap next_request_tid trace].
      rewrite <- app_assoc. f_equal. f_equal. f_equal.
      destruct answers; [reflexivity|]. by rewrite insert_insert_eq.
    + cbn [with_events with_heap heap]. unfold request_at.
      by rewrite lookup_insert_eq.
    + exact Hga.
    + cbn [with_events with_heap heap]. unfold gma_at.
      rewrite lookup_insert_ne by done. exact Hg.
Qed.

Lemma retry_events_obs p g r a :
  transmissions (retry_events p g r a) =
    (if a.1 then [(req_av r, retry_iobuf r)] else []) ∧
  Forall (λ e, e ≠ ev_free p ∧ e ≠ ev_stop_timer p) (retry_events p g r a) ∧
  ev_start_timer p ∈ retry_events p g r a.
Proof.
  unfold retry_events. destruct a as [[] prc]; cbn [fst snd].
  - destruct (prc =? 0); split_and!; try done; try (by repeat constructor).
    all: try (apply elem_of_app; left; rewrite !elem_of_cons; by auto).
  - split_and!; try done; try (by repeat constructor).
    all: try (apply elem_of_app; left; rewrite !elem_of_cons; by auto).
Qed.

Lemma expire_n_transmissions p g r answers :
  transmissions (concat (map (retry_events p g r) answers)) =
    replicate (length (filter (λ a, a.1 = true) answers))
              (req_av r, retry_iobuf r) ∧
  Forall (λ e, e ≠ ev_free p ∧ e ≠ ev_stop_timer p)
         (concat (map (retry_events p g r) answers)).
Proof.
  induction answers as [|a answers [IH1 IH2]]; [done|].
  cbn [map concat]. rewrite transmissions_app, IH1.
  destruct (retry_events_obs p g r a) as (-> & Hq & _). split.
  - rewrite filter_cons. destruct a as [[] prc]; cbn [fst].
    + by rewrite decide_True.
    + by rewrite decide_False.
  - by apply Forall_app.
Qed.

(** C1: the timer-expiry callback of an outstanding request.  With the
    failure indicator set, the request is unlinked from its agent's list
    and freed, and neither a buffer is allocated nor anything sent.
    Without it, the timer is started again, the request stays in the
    list with its MAD and its destination as they were, and, if a
    buffer can be allocated, one copy of the stored MAD is handed to the
    transport for the stored destination; neither a failed allocation
    nor a refusal by the transport unlinks or frees the request.  So
    [n] such expiries in a row hand over as many copies as buffers
    could be allocated ([n] when all could), all equal and to the same
    destination. *)
Theorem ib_gma_timer_expired_spec p r ga g st :
  request_at (heap st) p = Some r → req_gma r = Some ga →
  gma_at (heap st) ga = Some g →
  p ∈ requests g → NoDup (requests g) →
  (∀ alloc_ok prc, ∃ st' evs,
     ib_gma_timer_expired p true alloc_ok prc st = Some ((), st') ∧
     trace st' = trace st ++ evs ∧
     heap st' !! p = None ∧
     gma_at (heap st') ga = Some (set_requests (unlink p (requests g)) g) ∧
     (p ∉ unlink p (requests g)) ∧
     ev_free p ∈ evs ∧
     transmissions evs = [] ∧
     (∀ ok, ev_alloc_iob ok ∉ evs)) ∧
  (∀ answers, ∃ st' evs,
     expire_n p answers st = Some ((), st') ∧
     trace st' = trace st ++ evs ∧
     transmissions evs =
       replicate (length (filter (λ a, a.1 = true) answers))
                 (req_av r, retry_iobuf r) ∧
     (Forall (λ a, a.1 = true) answers →
      transmissions evs = replicate (length answers) (req_av r, retry_iobuf r)) ∧
     iob_data (retry_iobuf r) = req_mad r ∧
     gma_at (heap st') ga = Some g ∧
     (ev_free p ∉ evs) ∧ (ev_stop_timer p ∉ evs) ∧
     (answers ≠ [] →
      request_at (heap st') p = Some (set_timer_state timer_running r) ∧
      timer_st (req_timer (set_timer_state timer_running r)) = timer_running ∧
      req_mad (set_timer_state timer_running r) = req_mad r ∧
      req_av (set_timer_state timer_running r) = req_av r)).
Proof.
  intros Hr Hga Hg Hp Hnd.
  assert (Hne : ga ≠ p).
  { intros ->. apply request_at_Some in Hr. apply gma_at_Some in Hg. congruence. }
  split.
  - intros alloc_ok prc. eexists _, _.
    split; [by apply (timer_expired_abandon p r ga g)|].
    split; [reflexivity|].
    destruct (unlink_NoDup p (requests g) Hnd Hp) as (Hu & _).
    split_and!; try done.
    + cbn [with_events with_heap heap]. apply lookup_delete_eq.
    + cbn [with_events with_heap heap]. unfold gma_at.
      rewrite lookup_delete_ne, lookup_fmap by done.
      apply gma_at_Some in Hg. by rewrite Hg.
    + rewrite !elem_of_cons. auto.
    + intros ok. rewrite !elem_of_cons, elem_of_nil. intros [?|[?|?]]; done.
  - intros answers. eexists _, _.
    split; [by apply (expire_n_run p ga g answers r st)|].
    split; [reflexivity|].
    destruct (expire_n_transmissions p g r answers) as [Htx Hq].
    split; [exact Htx|]. split.
    { intros Hall. rewrite Htx.
      replace (filter (λ a : bool * Z, a.1 = true) answers) with answers; [done|].
      clear -Hall. induction Hall as [|a l Ha Hall IH]; [done|].
      rewrite filter_cons, decide_True by done. by rewrite <- IH. }
    split; [reflexivity|]. split.
    { cbn [with_events with_heap heap]. destruct answers; [done|].
      unfold gma_at. rewrite lookup_insert_ne by done.
      apply gma_at_Some in Hg. by rewrite Hg. }
    rewrite Forall_forall in Hq.
    split; [intros Hin; by destruct (Hq _ Hin)|].
    split; [intros Hin; by destruct (Hq _ Hin)|].
    intros Hnil. split; [|done].
    cbn [with_events with_heap heap]. destruct answers; [done|].
    unfold request_at. by rewrite lookup_insert_eq.
Qed.


(** *** Issuing a request (lines 307-343) *)

Lemma mad_at_Some h p m : mad_at h p = Some m ↔ h !! p = Some (ObjMad m).
Proof.
  unfold mad_at. destruct (h !! p) as [[]|]; split; intros; simplify_eq; done.
Qed.

Lemma av_at_Some h p a : av_at h p = Some a ↔ h !! p = Some (ObjAv a).
Proof.
  unfold av_at. destruct (h !! p) as [[]|]; split; intros; simplify_eq; done.
Qed.

Lemma modify_request_insert p f r h n tr :
  modify_request p f {| heap := <[p := ObjRequest r]> h;
                        next_request_tid := n; trace := tr |} =
    Some ((), {| heap := <[p := ObjRequest (f r)]> h;
                 next_request_tid := n; trace := tr |}).
Proof.
  rewrite (modify_request_run p f r).
  - cbn [heap next_request_tid trace]. by rewrite insert_insert_eq.
  - cbn [heap]. unfold request_at. by rewrite lookup_insert_eq.
Qed.

Lemma start_timer_nodelay_insert p r h n tr :
  start_timer_nodelay p {| heap := <[p := ObjRequest r]> h;
                           next_request_tid := n; trace := tr |} =
    Some ((), {| heap := <[p := ObjRequest (set_timer_state timer_running_nodelay r)]> h;
                 next_request_tid := n;
                 trace := tr ++ [ev_start_timer_nodelay p] |}).
Proof.
  rewrite (start_timer_nodelay_run p r).
  - cbn [heap next_request_tid trace]. by rewrite insert_insert_eq.
  - cbn [heap]. unfold request_at. by rewrite lookup_insert_eq.
Qed.

Lemma ib_gma_request_nomem gma mad av st g :
  gma_at (heap st) gma = Some g →
  ib_gma_request gma mad av None st =
    Some (- ENOMEM,
          with_events [ev_zalloc None; ev_dbgc dbg_could_not_allocate_request] st).
Proof.
  intros Hg. unfold ib_gma_request.
  rewrite bind_run, (load_gma_run _ _ _ Hg). unfold zalloc. mrun. wev.
Qed.

Lemma ib_gma_request_ok gma mad av p st g m avv :
  gma_at (heap st) gma = Some g →
  mad_at (heap st) mad = Some m →
  match av with
  | Some a => av_at (heap st) a = avv
  | None => avv = None
  end →
  (av = None ∨ is_Some avv) →
  heap st !! p = None →
  ib_gma_request gma mad av (Some p) st =
    Some (0,
      {| heap := <[p := ObjRequest
                    (issued_request gma (gma_ibdev g) m avv
                       ((next_request_tid st + 1) mod 2 ^ 32))]>
                   (<[gma := ObjGma (set_requests (p :: requests g) g)]> (heap st));
         next_request_tid := (next_request_tid st + 1) mod 2 ^ 32;
         trace := trace st ++ [ev_zalloc (Some p); ev_start_timer_nodelay p] |}).
Proof.
  intros Hg Hm Hav Havs Hp. unfold ib_gma_request.
  assert (Hpg : p ≠ gma).
  { intros ->. apply gma_at_Some in Hg. congruence. }
  assert (Hpm : p ≠ mad).
  { intros ->. apply mad_at_Some in Hm. congruence. }
  rewrite bind_run, (load_gma_run _ _ _ Hg). unfold zalloc at 1.
  rewrite bind_run, Hp.
  rewrite bind_run, modify_request_insert.
  (* list_add *)
  unfold list_add at 1. rewrite bind_run, bind_run.
  rewrite (load_gma_run gma g).
  2: { cbn [heap]. unfold gma_at. rewrite lookup_insert_ne by done.
       apply gma_at_Some in Hg. by rewrite Hg. }
  unfold store at 1. cbn [heap next_request_tid trace].
  rewrite lookup_insert_ne by done. apply gma_at_Some in Hg. rewrite Hg.
  rewrite insert_insert_ne by done.
  rewrite bind_run, modify_request_insert.
  (* address vector *)
  rewrite bind_run.
  assert (Hstep : ∀ r n tr,
    (match av with
     | Some av0 => a ← load_av av0; modify_request p (set_req_av a)
     | None => modify_request p (λ r, set_req_av
         {| av_qpn := IB_QPN_GMA; av_qkey := IB_QKEY_GMA;
            av_lid := sm_lid (gma_ibdev g); av_rate := av_rate (req_av r);
            av_sl := sm_sl (gma_ibdev g); av_rest := av_rest (req_av r) |} r)
     end) {| heap := <[p := ObjRequest (set_req_av zero_av r)]>
                       (<[gma := ObjGma (set_requests (p :: requests g) g)]> (heap st));
             next_request_tid := n; trace := tr |} =
    Some ((), {| heap := <[p := ObjRequest (set_req_av (request_av (gma_ibdev g) avv) r)]>
                           (<[gma := ObjGma (set_requests (p :: requests g) g)]> (heap st));
                 next_request_tid := n; trace := tr |})).
  { intros r n tr. destruct av as [a|].
    - destruct Havs as [?|[a' Ha']]; [done|]. subst avv.
      apply av_at_Some in Ha'.
      assert (a ≠ p) by (intros ->; congruence).
      assert (a ≠ gma) by (intros ->; congruence).
      rewrite bind_run. unfold load_av, load. rewrite bind_run.
      cbn [heap]. rewrite !lookup_insert_ne, Ha' by done. mrun.
      apply av_at_Some in Ha'. rewrite Ha'.
      by rewrite modify_request_insert.
    - subst avv. by rewrite modify_request_insert. }
  match goal with |- context [{| heap := <[p := ObjRequest ?r]> _;
                                 next_request_tid := ?n; trace := ?tr |}] =>
    change r with (set_req_av zero_av r) at 1; rewrite (Hstep r n tr) end.
  clear Hstep.
  (* MAD body *)
  rewrite bind_run. unfold load_mad, load. rewrite bind_run. cbn [heap].
  apply mad_at_Some in Hm.
  assert (Hgm : gma ≠ mad) by (intros ->; congruence).
  rewrite !lookup_insert_ne, Hm by done. mrun.
  rewrite modify_request_insert. mrun. rewrite modify_request_insert.
  unfold incr_next_request_tid. mrun. rewrite modify_request_insert.
  rewrite bind_run, start_timer_nodelay_insert. mrun.
  rewrite <- app_assoc. reflexivity.
Qed.


(** The two outcomes of [ib_gma_request] under [can_issue]. *)
Lemma ib_gma_request_run gma mad av zres st :
  can_issue gma mad av zres st →
  ∃ g m avv,
    gma_at (heap st) gma = Some g ∧ mad_at (heap st) mad = Some m ∧
    (∀ a, av = Some a → av_at (heap st) a = avv) ∧ (av = None → avv = None) ∧
    ib_gma_request gma mad av zres st =
      match zres with
      | None =>
          Some (- ENOMEM,
                with_events [ev_zalloc None;
                             ev_dbgc dbg_could_not_allocate_request] st)
      | Some p =>
          Some (0,
            {| heap := <[p := ObjRequest
                          (issued_request gma (gma_ibdev g) m avv
                             ((next_request_tid st + 1) mod 2 ^ 32))]>
                         (<[gma := ObjGma (set_requests (p :: requests g) g)]>
                            (heap st));
               next_request_tid := (next_request_tid st + 1) mod 2 ^ 32;
               trace := trace st ++ [ev_zalloc (Some p); ev_start_timer_nodelay p] |})
      end.
Proof.
  intros ([g Hg] & [m Hm] & Hav & Hz).
  exists g, m, (match av with Some a => av_at (heap st) a | None => None end).
  split; [done|]. split; [done|].
  split; [by intros a ->|]. split; [by intros ->|].
  destruct zres as [p|].
  - apply (ib_gma_request_ok gma mad av p st g m); try done.
    + by destruct av.
    + destruct av as [a|]; [right; by apply Hav|by left].
    + by apply Hz.
  - by apply (ib_gma_request_nomem gma mad av st g).
Qed.

(** C9: issuing a request leaves the caller's MAD and the caller's
    address vector as they were, whether the request record could be
    allocated or not; indeed no object other than the agent and the new
    record changes.  The transaction id is written into the record's
    own copy of the MAD, which differs from the caller's in nothing
    else. *)
Theorem ib_gma_request_frame gma mad av zres st :
  can_issue gma mad av zres st →
  ∃ rc st',
    ib_gma_request gma mad av zres st = Some (rc, st') ∧
    heap st' !! mad = heap st !! mad ∧
    (∀ a, av = Some a → heap st' !! a = heap st !! a) ∧
    (∀ q, q ≠ gma → zres ≠ Some q → heap st' !! q = heap st !! q) ∧
    match zres with
    | None => rc = - ENOMEM ∧ heap st' = heap st
    | Some p =>
        rc = 0 ∧
        ∃ r m, mad_at (heap st) mad = Some m ∧
               request_at (heap st') p = Some r ∧
               req_mad r = with_hdr (set_tid (tid (hdr (req_mad r)))) m
    end.
Proof.
  intros Hcan.
  destruct (ib_gma_request_run gma mad av zres st Hcan)
    as (g & m & avv & Hg & Hm & Hav & Hav' & Hrun).
  destruct Hcan as (_ & _ & Havs & Hz).
  assert (Hgm : gma ≠ mad).
  { intros ->. apply gma_at_Some in Hg. apply mad_at_Some in Hm. congruence. }
  destruct zres as [p|].
  - specialize (Hz p eq_refl).
    assert (Hpm : p ≠ mad).
    { intros ->. apply mad_at_Some in Hm. congruence. }
    eexists _, _. split; [exact Hrun|]. cbn [heap]. split_and!.
    + by rewrite !lookup_insert_ne.
    + intros a ->. destruct (Havs a eq_refl) as [x Hx]. apply av_at_Some in Hx.
      apply gma_at_Some in Hg.
      rewrite !lookup_insert_ne; [done|congruence|congruence].
    + intros q Hq1 Hq2. rewrite !lookup_insert_ne; [done|congruence|congruence].
    + reflexivity.
    + eexists _, m. split; [done|]. split.
      * unfold request_at. by rewrite lookup_insert_eq.
      * reflexivity.
  - eexists _, _. split; [exact Hrun|]. by split_and!.
Qed.

Lemma htonl_inj a b :
  0 ≤ a < 2 ^ 32 → 0 ≤ b < 2 ^ 32 → htonl a = htonl b → a = b.
Proof.
  intros Ha Hb E. rewrite <- (bswap_32_involutive a Ha), <- (bswap_32_involutive b Hb).
  unfold htonl in E. by rewrite E.
Qed.

(** C8 (as amended): every request issued gets a transaction id whose
    high word is the magic constant, stored in network byte order
    (bytes g, P, X, E), and whose low word is, in network byte order,
    the shared counter after an increment modulo 2^32.  So two requests
    issued one after the other, on whatever agents, get different
    transaction ids, and the low word of the second is one more than
    that of the first unless the counter wraps to 0. *)
Theorem ib_gma_request_tid_sequence gma1 mad1 av1 p1 gma2 mad2 av2 p2
    st rc1 st1 rc2 st2 :
  0 ≤ next_request_tid st < 2 ^ 32 →
  can_issue gma1 mad1 av1 (Some p1) st →
  ib_gma_request gma1 mad1 av1 (Some p1) st = Some (rc1, st1) →
  can_issue gma2 mad2 av2 (Some p2) st1 →
  ib_gma_request gma2 mad2 av2 (Some p2) st1 = Some (rc2, st2) →
  ∃ r1 r2,
    request_at (heap st2) p1 = Some r1 ∧
    request_at (heap st2) p2 = Some r2 ∧
    let t1 := tid (hdr (req_mad r1)) in
    let t2 := tid (hdr (req_mad r2)) in
    t1.1 = htonl IB_GMA_TID_MAGIC ∧ t2.1 = htonl IB_GMA_TID_MAGIC ∧
    u32_bytes (htonl IB_GMA_TID_MAGIC) =
      [Z.of_N (N_of_ascii "g"); Z.of_N (N_of_ascii "P");
       Z.of_N (N_of_ascii "X"); Z.of_N (N_of_ascii "E")] ∧
    ntohl t1.2 = (next_request_tid st + 1) mod 2 ^ 32 ∧
    ntohl t2.2 = (ntohl t1.2 + 1) mod 2 ^ 32 ∧
    next_request_tid st2 = ntohl t2.2 ∧
    t1 ≠ t2 ∧
    (next_request_tid st + 2 < 2 ^ 32 → ntohl t1.2 < ntohl t2.2).
Proof.
  intros Hn Hcan1 Hrun1 Hcan2 Hrun2.
  destruct (ib_gma_request_run _ _ _ _ _ Hcan1)
    as (g1 & m1 & avv1 & Hg1 & Hm1 & _ & _ & E1).
  rewrite E1 in Hrun1. injection Hrun1 as <- <-. clear E1.
  destruct (ib_gma_request_run _ _ _ _ _ Hcan2)
    as (g2 & m2 & avv2 & Hg2 & Hm2 & _ & _ & E2).
  rewrite E2 in Hrun2. injection Hrun2 as <- <-. clear E2.
  cbn [heap next_request_tid] in *.
  set (n1 := (next_request_tid st + 1) mod 2 ^ 32) in *.
  set (n2 := (n1 + 1) mod 2 ^ 32).
  assert (Hn1 : 0 ≤ n1 < 2 ^ 32) by (apply Z.mod_pos_bound; lia).
  assert (Hn2 : 0 ≤ n2 < 2 ^ 32) by (apply Z.mod_pos_bound; lia).
  destruct Hcan2 as (_ & _ & _ & Hz2). specialize (Hz2 p2 eq_refl).
  cbn [heap] in Hz2.
  assert (Hp : p2 ≠ p1).
  { intros ->. by rewrite lookup_insert_eq in Hz2. }
  assert (Hgp : gma2 ≠ p1).
  { intros ->. unfold gma_at in Hg2. by rewrite lookup_insert_eq in Hg2. }
  eexists _, _. split.
  { unfold request_at.
    rewrite lookup_insert_ne, lookup_insert_ne, lookup_insert_eq by done.
    reflexivity. }
  split.
  { unfold request_at. rewrite lookup_insert_eq. reflexivity. }
  cbn [issued_request req_mad with_hdr hdr set_tid tid fst snd].
  unfold ntohl, htonl. rewrite !bswap_32_involutive by done.
  split_and!; try done.
  - intros [= E]. apply (htonl_inj n1 n2 Hn1 Hn2) in E.
    unfold n2 in E. clear -E Hn1.
    destruct (Z.eq_dec n1 (2 ^ 32 - 1)) as [->|Hne].
    + vm_compute in E. done.
    + rewrite Z.mod_small in E by lia. lia.
  - intros Hno. unfold n2, n1. change (2 ^ 32) with 4294967296 in *.
    rewrite (Z.mod_small (next_request_tid st + 1)) by lia.
    rewrite Z.mod_small by lia. lia.
Qed.

(** *** Destroying an agent (lines 400-414) *)

Lemma retire_all_request_at nodes : ∀ st q,
  request_at (heap (retire_all nodes st)) q =
  if decide (q ∈ nodes) then None else request_at (heap st) q.
Proof.
induction nodes as [|p nodes IH]; intros st q; cbn [retire_all].
- rewrite decide_False; [done|]. apply not_elem_of_nil.
- rewrite IH, retire_request_at.
  destruct (decide (q ∈ nodes)) as [Hin|Hin].
  + rewrite decide_True; [done|]. by apply list_elem_of_further.
  + destruct (decide (q = p)) as [->|Hne].
    * rewrite decide_True; [done|]. apply list_elem_of_here.
    * rewrite decide_False; [done|]. rewrite elem_of_cons. tauto.
Qed.

Lemma retire_all_gone nodes : ∀ st p,
  p ∈ nodes → heap (retire_all nodes st) !! p = None.
Proof.
assert (Hkeep : ∀ nodes st p, heap st !! p = None →
                heap (retire_all nodes st) !! p = None).
{ clear. induction nodes as [|q nodes IH]; intros st p Hp; cbn [retire_all]; [done|].
  apply IH. unfold retire. cbn [heap].
  destruct (decide (p = q)) as [->|Hne]; [apply lookup_delete_eq|].
  by rewrite lookup_delete_ne, lookup_fmap, Hp. }
induction nodes as [|q nodes IH]; intros st p Hp; cbn [retire_all].
- by apply elem_of_nil in Hp.
- apply elem_of_cons in Hp as [->|Hp]; [|by apply IH].
  apply Hkeep. unfold retire. cbn [heap]. apply lookup_delete_eq.
Qed.

Lemma retire_all_gma_at nodes : ∀ st ga,
  ga ∉ nodes →
  gma_at (heap (retire_all nodes st)) ga =
  (λ g, set_requests (foldl (λ l p, unlink p l) (requests g) nodes) g)
    <$> gma_at (heap st) ga.
Proof.
induction nodes as [|p nodes IH]; intros st ga Hga; cbn [retire_all foldl].
- destruct (gma_at (heap st) ga) as [[]|]; reflexivity.
- apply not_elem_of_cons in Hga as [Hne Hga].
  rewrite IH, retire_gma_at, decide_False by done.
  destruct (gma_at (heap st) ga) as [[]|]; reflexivity.
Qed.

Lemma retire_all_other nodes : ∀ st q,
  q ∉ nodes → gma_at (heap st) q = None →
  heap (retire_all nodes st) !! q = heap st !! q.
Proof.
induction nodes as [|p nodes IH]; intros st q Hq Hg; cbn [retire_all]; [done|].
apply not_elem_of_cons in Hq as [Hne Hq].
assert (E : heap (retire p st) !! q = heap st !! q).
{ unfold retire. cbn [heap]. rewrite lookup_delete_ne, lookup_fmap by done.
  unfold gma_at in Hg. destruct (heap st !! q) as [[]|]; try done. }
rewrite IH; [done|done|]. unfold gma_at. rewrite E. exact Hg.
Qed.

Lemma retire_all_trace nodes : ∀ st,
  trace (retire_all nodes st) = trace st ++ flush_events nodes ∧
  next_request_tid (retire_all nodes st) = next_request_tid st.
Proof.
induction nodes as [|p nodes IH]; intros st; cbn [retire_all].
- by rewrite app_nil_r.
- destruct (IH (retire p st)) as [-> ->]. unfold retire, flush_events.
  cbn [trace next_request_tid flat_map]. by rewrite <- app_assoc.
Qed.

Lemma unlink_all l : NoDup l → foldl (λ acc p, unlink p acc) l l = [].
Proof.
induction 1 as [|p l Hp Hnd IH]; cbn [foldl unlink]; [done|].
by rewrite decide_True.
Qed.

Lemma stop_del_free_then {A} p r st (k : M A) :
  request_at (heap st) p = Some r →
  (stop_timer p;; list_del p;; free p;; k) st = k (retire p st).
Proof.
intros E. rewrite bind_run, (stop_timer_run _ _ _ E), bind_run.
unfold list_del at 1. rewrite bind_run. unfold free at 1.
cbn [heap next_request_tid trace].
rewrite lookup_fmap, lookup_insert_eq.
cbn [fmap option_fmap option_map].
unfold retire.
rewrite fmap_insert, delete_insert_eq, <- app_assoc. done.
Qed.

Lemma flush_requests_run nodes : ∀ st,
  NoDup nodes → live_requests (heap st) nodes →
  flush_requests nodes st = Some ((), retire_all nodes st).
Proof.
induction nodes as [|p nodes IH]; intros st Hnd Hlive; cbn [flush_requests retire_all].
- reflexivity.
- apply NoDup_cons in Hnd as [Hp Hnd].
  destruct (Hlive p (list_elem_of_here _ _)) as [r Hr].
  rewrite (stop_del_free_then p r st _ Hr). apply IH; [done|].
  intros q Hq. rewrite retire_request_at, decide_False.
  + apply Hlive. by apply list_elem_of_further.
  + intros ->. done.
Qed.

(** X1: destroying an agent whose list holds live, distinct requests
    stops the timer of each of them before freeing it, in list order,
    leaves the list empty and every other request as it was, and only
    then destroys the queue pair and, last, the completion queue. *)
Theorem ib_destroy_gma_flushes ga g st :
  gma_at (heap st) ga = Some g →
  NoDup (requests g) →
  live_requests (heap st) (requests g) →
  ∃ st',
    ib_destroy_gma ga st = Some ((), st') ∧
    trace st' = trace st ++ flush_events (requests g) ++
                [ev_ib_destroy_qp (gma_ibdev g) (gma_qp g);
                 ev_ib_destroy_cq (gma_ibdev g) (gma_cq g)] ∧
    gma_at (heap st') ga = Some (set_requests [] g) ∧
    (∀ p, p ∈ requests g → heap st' !! p = None) ∧
    (∀ q, q ∉ requests g → request_at (heap st') q = request_at (heap st) q) ∧
    next_request_tid st' = next_request_tid st.
Proof.
intros Hg Hnd Hlive.
assert (Hga : ga ∉ requests g).
{ intros Hin. destruct (Hlive ga Hin) as [r Hr].
  apply request_at_Some in Hr. apply gma_at_Some in Hg. congruence. }
assert (Hg' : gma_at (heap (retire_all (requests g) st)) ga = Some (set_requests [] g)).
{ rewrite retire_all_gma_at, Hg by done. cbn [fmap option_fmap option_map].
  by rewrite unlink_all. }
destruct (retire_all_trace (requests g) st) as [Ht Hn].
unfold ib_destroy_gma.
rewrite bind_run, (load_gma_run _ _ _ Hg), bind_run, flush_requests_run by done.
rewrite bind_run, (load_gma_run _ _ _ Hg'). mrun.
rewrite (load_gma_run ga (set_requests [] g)) by exact Hg'. mrun.
eexists. split; [reflexivity|]. cbn [heap trace next_request_tid].
split_and!; try done.
- rewrite Ht, <- !app_assoc. reflexivity.
- intros p Hp. by apply retire_all_gone.
- intros q Hq. by rewrite retire_all_request_at, decide_False.
Qed.

(** *** Creating an agent (lines 353-393) *)

Lemma modify_gma_insert p f g h n tr :
  modify_gma p f {| heap := <[p := ObjGma g]> h;
                    next_request_tid := n; trace := tr |} =
    Some ((), {| heap := <[p := ObjGma (f g)]> h;
                 next_request_tid := n; trace := tr |}).
Proof.
rewrite (modify_gma_run p f g).
- cbn [heap next_request_tid trace]. by rewrite insert_insert_eq.
- cbn [heap]. unfold gma_at. by rewrite lookup_insert_eq.
Qed.

Lemma load_gma_insert p g h n tr :
  load_gma p {| heap := <[p := ObjGma g]> h; next_request_tid := n; trace := tr |} =
    Some (g, {| heap := <[p := ObjGma g]> h; next_request_tid := n; trace := tr |}).
Proof.
apply load_gma_run. cbn [heap]. unfold gma_at. by rewrite lookup_insert_eq.
Qed.

(** X2: when both the completion queue and the queue pair can be
    created, [ib_create_gma] returns 0 and leaves an agent for the given
    device with no outstanding request (whatever the structure held
    before), a completion queue of 8 entries used for both directions of
    a queue pair of 4 send and 2 receive entries with the given queue
    key; the agent is made the owner of the queue pair before the
    receive ring is filled, and nothing is destroyed. *)
Theorem ib_create_gma_ok ga g0 ibdev qkey cq qp st :
  gma_at (heap st) ga = Some g0 → cq ≠ 0 → qp ≠ 0 →
  ib_create_gma ga ibdev qkey cq qp st =
    Some (0, with_events
      [ev_ib_create_cq ibdev 8 cq;
       ev_ib_create_qp ibdev 4 cq 2 cq qkey qp;
       ev_ib_qp_set_ownerdata qp ga;
       ev_dbgc dbg_running_on_qpn;
       ev_ib_refill_recv ibdev qp]
      (with_heap (<[ga := ObjGma {| gma_ibdev := ibdev; gma_cq := cq;
                                    gma_qp := qp; requests := [] |}]> (heap st)) st)).
Proof.
intros Hg Hcq Hqp. unfold ib_create_gma.
rewrite bind_run, (modify_gma_run _ _ _ _ Hg). mrun.
rewrite modify_gma_insert. mrun. rewrite load_gma_insert. cbn [gma_cq gma_qp gma_ibdev requests].
rewrite (proj2 (Z.eqb_neq _ _) Hcq). mrun.
rewrite modify_gma_insert. mrun. rewrite load_gma_insert. cbn [gma_cq gma_qp gma_ibdev requests].
rewrite (proj2 (Z.eqb_neq _ _) Hqp). mrun. wev.
Qed.

(** X3: when the completion queue or the queue pair cannot be created,
    [ib_create_gma] returns -ENOMEM after a debug message, with no owner
    set and no receive ring filled; a completion queue that had been
    created is destroyed again, and no queue pair is asked for when
    there is no completion queue. *)
Theorem ib_create_gma_unwinds ga g0 ibdev qkey cq qp st :
  gma_at (heap st) ga = Some g0 → cq = 0 ∨ qp = 0 →
  ∃ st' evs,
    ib_create_gma ga ibdev qkey cq qp st = Some (- ENOMEM, st') ∧
    trace st' = trace st ++ evs ∧
    evs = (if cq =? 0
           then [ev_ib_create_cq ibdev 8 0; ev_dbgc dbg_could_not_allocate_cq]
           else [ev_ib_create_cq ibdev 8 cq;
                 ev_ib_create_qp ibdev 4 cq 2 cq qkey 0;
                 ev_dbgc dbg_could_not_allocate_qp;
                 ev_ib_destroy_cq ibdev cq]) ∧
    gma_at (heap st') ga =
      Some {| gma_ibdev := ibdev; gma_cq := cq;
              gma_qp := 0; requests := [] |} ∧
    (∀ q, q ≠ ga → heap st' !! q = heap st !! q).
Proof.
intros Hg Hfail. unfold ib_create_gma.
rewrite bind_run, (modify_gma_run _ _ _ _ Hg). mrun.
rewrite modify_gma_insert. mrun. rewrite load_gma_insert. cbn [gma_cq gma_qp gma_ibdev requests].
destruct (Z.eqb_spec cq 0) as [->|Hcq].
- mrun. eexists _, _. split; [reflexivity|]. cbn [heap trace].
  split; [by rewrite <- app_assoc|]. split; [done|]. split.
  + unfold gma_at. by rewrite lookup_insert_eq.
  + intros q Hq. by rewrite lookup_insert_ne.
- destruct Hfail as [?| ->]; [done|]. mrun.
  rewrite modify_gma_insert. mrun. rewrite load_gma_insert.
  cbn [gma_cq gma_qp gma_ibdev requests Z.eqb]. mrun.
  eexists _, _. split; [reflexivity|]. cbn [heap trace].
  split; [by rewrite <- !app_assoc|]. split; [done|]. split.
  + unfold gma_at. by rewrite lookup_insert_eq.
  + intros q Hq. by rewrite lookup_insert_ne.
Qed.

(** *** Who releases a buffer *)

(** X4: the buffer allocated for a retransmission is released exactly
    once: by the timer callback itself when the transport refuses it, and
    otherwise by the send completion, whatever status that completion
    reports; the request stays outstanding in both cases. *)
Theorem retransmit_buffer_released_once p r ga g prc rc qp st :
  request_at (heap st) p = Some r → req_gma r = Some ga →
  gma_at (heap st) ga = Some g →
  ∃ st' evs,
    (ib_gma_timer_expired p false true prc;;
     if prc =? 0
     then ib_gma_complete_send (gma_ibdev g) qp (Some (retry_iobuf r)) rc
     else mret ()) st = Some ((), st') ∧
    trace st' = trace st ++ evs ∧
    transmissions evs = [(req_av r, retry_iobuf r)] ∧
    released_iobs evs = [retry_iobuf r] ∧
    request_at (heap st') p = Some (set_timer_state timer_running r) ∧
    gma_at (heap st') ga = Some g.
Proof.
intros Hr Hga Hg.
assert (Hne : p ≠ ga).
{ intros ->. apply request_at_Some in Hr. apply gma_at_Some in Hg. congruence. }
rewrite bind_run.
change (ib_gma_timer_expired p false true prc st)
  with (ib_gma_timer_expired p false (true, prc).1 (true, prc).2 st).
rewrite (timer_expired_retry p r ga g (true, prc) st Hr Hga Hg).
unfold retry_events, ib_gma_complete_send, free_iob. cbn [fst snd].
destruct (Z.eqb_spec prc 0) as [->|Hprc].
- cbn [Z.eqb]. destruct (rc =? 0); cbn [negb]; mrun.
  all: eexists _, _; split; [reflexivity|].
  all: cbn [with_events with_heap heap trace next_request_tid].
  all: split; [by rewrite <- ?app_assoc|].
  all: split; [done|]; split; [done|]; unfold request_at, gma_at.
  all: rewrite lookup_insert_eq, lookup_insert_ne by done.
  all: apply gma_at_Some in Hg; by rewrite Hg.
- mrun.
  eexists _, _. split; [reflexivity|].
  cbn [with_events with_heap heap trace next_request_tid].
  split; [reflexivity|]. split; [done|]. split; [done|].
  unfold request_at, gma_at. rewrite lookup_insert_eq, lookup_insert_ne by done.
  apply gma_at_Some in Hg. by rewrite Hg.
Qed.

(** X5: a received buffer is never released twice, and never released
    once it has been handed to [ib_post_send]: a valid receive completion
    ends with exactly one of the two, and the address the response goes
    to is the sender's with the rate set to the 2.5 Gb/s constant and the
    queue key chosen by the queue pair number (the subnet management key
    for the subnet management queue pair, the general one otherwise). *)
Theorem ib_gma_complete_recv_buffer_owner ibdev qp av iobuf prc st g :
  valid_recv qp iobuf st g → handlers_wf →
  ∃ st' evs,
    ib_gma_complete_recv ibdev qp av iobuf 0 prc st = Some ((), st') ∧
    trace st' = trace st ++ evs ∧
    ((transmissions evs = [] ∧ ∃ b, released_iobs evs = [b] ∧ iob_len b = iob_len iobuf) ∨
     (released_iobs evs = [] ∧
      ∃ b, transmissions evs = [(response_av av, b)] ∧ iob_len b = iob_len iobuf)) ∧
    av_rate (response_av av) = IB_RATE_2_5 ∧
    av_qkey (response_av av) =
      (if av_qpn av =? IB_QPN_SMA then IB_QKEY_SMA else IB_QKEY_GMA) ∧
    av_qpn (response_av av) = av_qpn av ∧
    av_lid (response_av av) = av_lid av ∧
    av_sl (response_av av) = av_sl av ∧
    av_rest (response_av av) = av_rest av.
Proof.
intros Hvalid Hh.
destruct (ib_handle_mad_total ibdev (iob_data iobuf))
  as (mad' & rc' & evs1 & Hd & _ & Htx1 & Hrl1 & Hwf').
assert (Hwf : wf_mad mad') by (apply Hwf'; [done|apply Hvalid]).
destruct (send_response_obs ibdev qp av iobuf mad' prc Hwf)
  as (evs2 & Hs & _ & Hobs).
destruct (complete_recv_response ibdev qp av iobuf prc st g _ _ _ _ Hvalid Hd Hs)
  as (st' & evs & Hrun & Ht & Htx & Hrl & _).
exists st', evs. split; [done|]. split; [done|].
split; [|done].
rewrite Htx, Hrl, Htx1, Hrl1. cbn [app].
destruct (method (hdr mad') =? 0).
- destruct Hobs as [-> ->]. left. split; [done|]. by eexists.
- destruct (_ && _).
  + destruct Hobs as [-> ->]. left. split; [done|]. by eexists.
  + destruct Hobs as [-> ->]. right. split; [done|]. by eexists.
Qed.

(** X6: when dispatch leaves the method 0 (nothing to answer), the
    buffer is released with the MAD as the handler left it and nothing is
    sent, whatever the management class and the hop pointer. *)
Theorem ib_gma_complete_recv_no_response ibdev qp av iobuf prc st g mad' rc' st1 :
  valid_recv qp iobuf st g → handlers_wf →
  ib_handle_mad ibdev (iob_data iobuf) st = Some ((mad', rc'), st1) →
  method (hdr mad') = 0 →
  ∃ st' evs,
    ib_gma_complete_recv ibdev qp av iobuf 0 prc st = Some ((), st') ∧
    trace st' = trace st ++ evs ∧
    transmissions evs = [] ∧
    released_iobs evs = [set_iob_data mad' iobuf].
Proof.
intros Hvalid Hh Hdisp Hm.
destruct (ib_handle_mad_total ibdev (iob_data iobuf))
  as (mad2 & rc2 & evs1 & Hd & _ & Htx1 & Hrl1 & Hwf').
rewrite Hd in Hdisp. injection Hdisp as -> -> _.
assert (Hwf : wf_mad mad') by (apply Hwf'; [done|apply Hvalid]).
destruct (send_response_obs ibdev qp av iobuf mad' prc Hwf)
  as (evs2 & Hs & _ & Hobs).
destruct (complete_recv_response ibdev qp av iobuf prc st g _ _ _ _ Hvalid Hd Hs)
  as (st' & evs & Hrun & Ht & Htx & Hrl & _).
exists st', evs. split; [done|]. split; [done|].
rewrite Htx, Hrl, Htx1, Hrl1. cbn [app].
rewrite Hm in Hobs. exact Hobs.
Qed.

(** *** More on issuing a request *)

(** X7: a request that could be allocated is linked at the head of its
    agent's list, carries a pointer back to the agent, has its timer
    started with no delay and [ib_gma_timer_expired] as its callback, and
    is addressed to the caller's address vector (a copy of it) or, when
    the caller passes none, to the subnet manager of the device: its LID
    and service level, the GMA queue pair number and key, and zero
    elsewhere. *)
Theorem ib_gma_request_record gma mad av p st :
  can_issue gma mad av (Some p) st →
  ∃ st' g r,
    ib_gma_request gma mad av (Some p) st = Some (0, st') ∧
    gma_at (heap st) gma = Some g ∧
    request_at (heap st') p = Some r ∧
    gma_at (heap st') gma = Some (set_requests (p :: requests g) g) ∧
    trace st' = trace st ++ [ev_zalloc (Some p); ev_start_timer_nodelay p] ∧
    req_gma r = Some gma ∧
    req_timer r = {| timer_st := timer_running_nodelay;
                     expired := Some cb_ib_gma_timer_expired |} ∧
    (∀ a, av = Some a → av_at (heap st) a = Some (req_av r)) ∧
    (av = None →
     req_av r = {| av_qpn := IB_QPN_GMA; av_qkey := IB_QKEY_GMA;
                   av_lid := sm_lid (gma_ibdev g); av_rate := 0;
                   av_sl := sm_sl (gma_ibdev g);
                   av_rest := replicate ib_av_rest_len 0 |}).
Proof.
intros Hcan.
destruct (ib_gma_request_run gma mad av (Some p) st Hcan)
  as (g & m & avv & Hg & Hm & Hav & Hav' & Hrun).
destruct Hcan as (_ & _ & Havs & Hz). specialize (Hz p eq_refl).
assert (Hpg : p ≠ gma).
{ intros ->. apply gma_at_Some in Hg. congruence. }
eexists _, g, _. split; [exact Hrun|]. cbn [heap trace].
split; [done|].
split; [unfold request_at; by rewrite lookup_insert_eq|].
split; [unfold gma_at; by rewrite lookup_insert_ne, lookup_insert_eq|].
split; [done|]. split; [done|]. split; [done|]. split.
- intros a ->. destruct (Havs a eq_refl) as [x Hx].
  pose proof (Hav a eq_refl) as E. rewrite Hx in E. subst avv. exact Hx.
- intros ->. rewrite (Hav' eq_refl). reflexivity.
Qed.

(** X8: when the request record cannot be allocated, [ib_gma_request]
    returns -ENOMEM having started no timer and drawn no transaction id:
    the counter, like the store, is as it was. *)
Theorem ib_gma_request_no_memory gma mad av st :
  can_issue gma mad av None st →
  ∃ st',
    ib_gma_request gma mad av None st = Some (- ENOMEM, st') ∧
    heap st' = heap st ∧
    next_request_tid st' = next_request_tid st ∧
    trace st' = trace st ++ [ev_zalloc None; ev_dbgc dbg_could_not_allocate_request].
Proof.
intros Hcan.
destruct (ib_gma_request_run gma mad av None st Hcan)
  as (g & m & avv & _ & _ & _ & _ & Hrun).
eexists. split; [exact Hrun|]. done.
Qed.

(** X9: issue, then answer.  A request issued on an agent, followed by
    a valid inbound MAD on the agent's queue pair that carries the
    transaction id just assigned, is retired by that MAD: the list of
    the agent is again what it was before the request, the record is
    freed, and every other request is as it was. *)
Theorem issue_then_response gma mad av p st g ibdev qp rav iobuf prc :
  can_issue gma mad av (Some p) st →
  gma_at (heap st) gma = Some g →
  requests_wf (heap st) (requests g) → NoDup (requests g) →
  handlers_wf →
  qp_ownerdata qp = gma →
  iob_len iobuf = sizeof_ib_mad →
  base_version (hdr (iob_data iobuf)) = IB_MGMT_BASE_VERSION →
  wf_mad (iob_data iobuf) →
  tid (hdr (iob_data iobuf)) =
    (htonl IB_GMA_TID_MAGIC, htonl ((next_request_tid st + 1) mod 2 ^ 32)) →
  ∃ st1 st2,
    ib_gma_request gma mad av (Some p) st = Some (0, st1) ∧
    ib_gma_complete_recv ibdev qp rav iobuf 0 prc st1 = Some ((), st2) ∧
    gma_at (heap st2) gma = Some g ∧
    heap st2 !! p = None ∧
    (∀ q, q ≠ p → request_at (heap st2) q = request_at (heap st) q).
Proof.
intros Hcan Hg Hreq Hnd Hh Hqp Hlen Hv Hwf Htid.
destruct (ib_gma_request_run gma mad av (Some p) st Hcan)
  as (g' & m & avv & Hg' & Hm & _ & _ & Hrun).
rewrite Hg in Hg'. injection Hg' as <-.
destruct Hcan as (_ & _ & _ & Hz). specialize (Hz p eq_refl).
assert (Hpg : p ≠ gma).
{ intros ->. apply gma_at_Some in Hg. congruence. }
assert (Hpn : p ∉ requests g).
{ intros Hin. destruct (Hreq p Hin) as (r & Hr & _).
  apply request_at_Some in Hr. congruence. }
set (n := (next_request_tid st + 1) mod 2 ^ 32) in *.
set (r := issued_request gma (gma_ibdev g) m avv n) in *.
set (st1 := {| heap := <[p := ObjRequest r]>
                         (<[gma := ObjGma (set_requests (p :: requests g) g)]> (heap st));
               next_request_tid := n;
               trace := trace st ++ [ev_zalloc (Some p); ev_start_timer_nodelay p] |}) in *.
assert (Hr1 : request_at (heap st1) p = Some r).
{ unfold request_at. cbn [heap st1]. by rewrite lookup_insert_eq. }
assert (Hother : ∀ q, q ≠ p → request_at (heap st1) q = request_at (heap st) q).
{ intros q Hq. unfold request_at. cbn [heap st1].
  rewrite lookup_insert_ne by done.
  destruct (decide (q = gma)) as [->|Hqg].
  - rewrite lookup_insert_eq. apply gma_at_Some in Hg. by rewrite Hg.
  - by rewrite lookup_insert_ne. }
assert (Hvalid : valid_recv qp iobuf st1 (set_requests (p :: requests g) g)).
{ split_and!; try done.
  - rewrite Htid. split; apply bswap_32_range.
  - rewrite Hqp. unfold gma_at. cbn [heap st1].
    by rewrite lookup_insert_ne, lookup_insert_eq.
  - intros q [->|Hq]%elem_of_cons.
    + exists r. split; [done|]. split; apply bswap_32_range.
    + rewrite Hother by (intros ->; done). by apply Hreq.
  - cbn [requests set_requests]. by apply NoDup_cons. }
destruct (complete_recv_run ibdev qp rav iobuf prc st1 _ Hvalid Hh)
  as (evs & Hrecv & _).
eexists st1, _. split; [exact Hrun|]. split; [exact Hrecv|].
rewrite with_events_heap, after_dequeue_heap.
cbn [requests set_requests first_match]. rewrite Hr1.
rewrite (tid_match_eq _ r) by (by rewrite Htid).
split_and!.
- unfold gma_at. rewrite lookup_delete_ne, lookup_fmap by done. cbn [heap st1].
  rewrite lookup_insert_ne, lookup_insert_eq by done.
  cbn [fmap option_fmap option_map unlink_in requests set_requests unlink].
  rewrite decide_True by done. by destruct g.
- apply lookup_delete_eq.
- intros q Hq. rewrite <- Hother by done. unfold request_at.
  rewrite lookup_delete_ne, lookup_fmap by done.
  destruct (heap st1 !! q) as [[]|]; reflexivity.
Qed.

(** *** The invariant of the request lists *)

Lemma unlink_elem_of p q l : q ∈ unlink p l → q ∈ l.
Proof.
induction l as [|x l IH]; cbn [unlink]; [done|].
case_decide.
- intros Hq. by apply list_elem_of_further.
- intros [->|Hq]%elem_of_cons; [apply list_elem_of_here|].
  apply list_elem_of_further. by apply IH.
Qed.

Lemma unlink_NoDup_keep p l : NoDup l → NoDup (unlink p l) ∧ (p ∉ unlink p l).
Proof.
induction 1 as [|x l Hx Hnd [IH1 IH2]]; cbn [unlink].
- split; [constructor|apply not_elem_of_nil].
- case_decide as E.
  + subst. done.
  + split.
    * constructor; [|done]. intros Hin. by apply Hx, (unlink_elem_of p).
    * intros [->|Hin]%elem_of_cons; done.
Qed.

Lemma wf_heap_retire p h : wf_heap h → wf_heap (delete p (unlink_in p <$> h)).
Proof.
intros Hwf ga g' Hg'.
assert (Hne : ga ≠ p).
{ intros ->. unfold gma_at in Hg'. by rewrite lookup_delete_eq in Hg'. }
unfold gma_at in Hg'. rewrite lookup_delete_ne, lookup_fmap in Hg' by done.
destruct (h !! ga) as [[| |?|g]|] eqn:E; try done.
cbn in Hg'. injection Hg' as <-. cbn [requests set_requests].
destruct (Hwf ga g) as [Hnd Hlive]; [by apply gma_at_Some|].
destruct (unlink_NoDup_keep p _ Hnd) as [Hnd' Hp]. split; [done|].
intros q Hq.
assert (Hqp : q ≠ p) by (intros ->; done).
destruct (Hlive q (unlink_elem_of _ _ _ Hq)) as (r & Hr & Hrg).
exists r. split; [|done]. unfold request_at.
rewrite lookup_delete_ne, lookup_fmap by done.
apply request_at_Some in Hr. by rewrite Hr.
Qed.

Lemma wf_heap_update_request p r r' h :
  wf_heap h → request_at h p = Some r → req_gma r' = req_gma r →
  wf_heap (<[p := ObjRequest r']> h).
Proof.
intros Hwf Hr Hg ga g Hga.
assert (Hne : ga ≠ p).
{ intros ->. unfold gma_at in Hga. by rewrite lookup_insert_eq in Hga. }
unfold gma_at in Hga. rewrite lookup_insert_ne in Hga by done.
destruct (Hwf ga g Hga) as [Hnd Hlive]. split; [done|].
intros q Hq. destruct (Hlive q Hq) as (rq & Hrq & Hrg).
destruct (decide (q = p)) as [->|Hqp].
- exists r'. unfold request_at. rewrite lookup_insert_eq. split; [done|].
  rewrite Hr in Hrq. injection Hrq as <-. congruence.
- exists rq. unfold request_at. rewrite lookup_insert_ne by done. done.
Qed.

Lemma wf_heap_issue p r ga g h :
  wf_heap h → gma_at h ga = Some g → h !! p = None → req_gma r = Some ga →
  wf_heap (<[p := ObjRequest r]> (<[ga := ObjGma (set_requests (p :: requests g) g)]> h)).
Proof.
intros Hwf Hg Hp Hrg ga' g' Hg'.
assert (Hpg : p ≠ ga).
{ intros ->. apply gma_at_Some in Hg. congruence. }
assert (Hne : ga' ≠ p).
{ intros ->. unfold gma_at in Hg'. by rewrite lookup_insert_eq in Hg'. }
assert (Hkeep : ∀ q rq, request_at h q = Some rq →
          request_at (<[p := ObjRequest r]>
            (<[ga := ObjGma (set_requests (p :: requests g) g)]> h)) q = Some rq).
{ intros q rq Hq. apply request_at_Some in Hq. unfold request_at.
  rewrite !lookup_insert_ne, Hq; [done| |]; intros ->.
  - apply gma_at_Some in Hg. congruence.
  - congruence. }
unfold gma_at in Hg'. rewrite lookup_insert_ne in Hg' by done.
destruct (decide (ga' = ga)) as [->|Hga].
- rewrite lookup_insert_eq in Hg'. injection Hg' as <-.
  cbn [requests set_requests].
  destruct (Hwf ga g Hg) as [Hnd Hlive]. split.
  + constructor; [|done]. intros Hin. destruct (Hlive p Hin) as (rq & Hrq & _).
    apply request_at_Some in Hrq. congruence.
  + intros q [->|Hq]%elem_of_cons.
    * exists r. unfold request_at. by rewrite lookup_insert_eq.
    * destruct (Hlive q Hq) as (rq & Hrq & Hrqg). exists rq. split; [|done].
      by apply Hkeep.
- rewrite lookup_insert_ne in Hg' by done.
  destruct (Hwf ga' g' Hg') as [Hnd Hlive]. split; [done|].
  intros q Hq. destruct (Hlive q Hq) as (rq & Hrq & Hrqg). exists rq.
  split; [|done]. by apply Hkeep.
Qed.

(** X10: issuing a request, successfully or not, keeps the invariant of
    the request lists. *)
Theorem ib_gma_request_keeps_lists gma mad av zres st :
  wf_heap (heap st) → can_issue gma mad av zres st →
  ∃ rc st', ib_gma_request gma mad av zres st = Some (rc, st') ∧
            wf_heap (heap st').
Proof.
intros Hwf Hcan.
destruct (ib_gma_request_run gma mad av zres st Hcan)
  as (g & m & avv & Hg & Hm & _ & _ & Hrun).
destruct Hcan as (_ & _ & _ & Hz).
destruct zres as [p|]; eexists _, _; (split; [exact Hrun|]); cbn [heap].
- apply wf_heap_issue; try done. by apply Hz.
- exact Hwf.
Qed.

(** X11: an expiry of the retry timer of a request, with or without the
    failure indicator and whatever the allocator and the transport
    answer, keeps the invariant of the request lists. *)
Theorem ib_gma_timer_expired_keeps_lists p r ga g expired alloc_ok prc st :
  wf_heap (heap st) →
  request_at (heap st) p = Some r → req_gma r = Some ga →
  gma_at (heap st) ga = Some g →
  ∃ st', ib_gma_timer_expired p expired alloc_ok prc st = Some ((), st') ∧
         wf_heap (heap st').
Proof.
intros Hwf Hr Hga Hg. destruct expired.
- eexists. split; [by apply (timer_expired_abandon p r ga g)|].
  cbn [with_events with_heap heap]. by apply wf_heap_retire.
- eexists. split; [by apply (timer_expired_retry p r ga g (alloc_ok, prc))|].
  cbn [with_events with_heap heap]. by apply (wf_heap_update_request p r).
Qed.

(** X12: a valid receive completion, whether or not it retires a
    request, keeps the invariant of the request lists. *)
Theorem ib_gma_complete_recv_keeps_lists ibdev qp av iobuf prc st g :
  wf_heap (heap st) → valid_recv qp iobuf st g → handlers_wf →
  ∃ st', ib_gma_complete_recv ibdev qp av iobuf 0 prc st = Some ((), st') ∧
         wf_heap (heap st').
Proof.
intros Hwf Hvalid Hh.
destruct (complete_recv_run ibdev qp av iobuf prc st g Hvalid Hh) as (evs & Hrun & _).
eexists. split; [exact Hrun|].
rewrite with_events_heap, after_dequeue_heap.
destruct (first_match _ _ _); [by apply wf_heap_retire|done].
Qed.

Lemma wf_heap_retire_all nodes : ∀ st,
  wf_heap (heap st) → wf_heap (heap (retire_all nodes st)).
Proof.
induction nodes as [|p nodes IH]; intros st Hwf; cbn [retire_all]; [done|].
apply IH. unfold retire. cbn [heap]. by apply wf_heap_retire.
Qed.

(** X13: under the invariant of the request lists an agent can always
    be destroyed: [ib_destroy_gma] has a result, which satisfies the
    invariant again and in which the agent has no request left. *)
Theorem ib_destroy_gma_keeps_lists ga g st :
  wf_heap (heap st) → gma_at (heap st) ga = Some g →
  ∃ st', ib_destroy_gma ga st = Some ((), st') ∧
         wf_heap (heap st') ∧
         gma_at (heap st') ga = Some (set_requests [] g).
Proof.
intros Hwf Hg. destruct (Hwf ga g Hg) as [Hnd Hlive].
assert (Hlive' : live_requests (heap st) (requests g)).
{ intros p Hp. destruct (Hlive p Hp) as (r & -> & _). by eexists. }
assert (Hga : ga ∉ requests g).
{ intros Hin. destruct (Hlive' ga Hin) as [r Hr].
  apply request_at_Some in Hr. apply gma_at_Some in Hg. congruence. }
assert (Hg' : gma_at (heap (retire_all (requests g) st)) ga = Some (set_requests [] g)).
{ rewrite retire_all_gma_at, Hg by done. cbn [fmap option_fmap option_map].
  by rewrite unlink_all. }
unfold ib_destroy_gma.
rewrite bind_run, (load_gma_run _ _ _ Hg), bind_run, flush_requests_run by done.
rewrite bind_run, (load_gma_run _ _ _ Hg'). mrun.
rewrite (load_gma_run ga (set_requests [] g)) by exact Hg'. mrun.
eexists. split; [reflexivity|]. cbn [heap]. split; [|done].
by apply wf_heap_retire_all.
Qed.

(** *** Transaction ids of requests issued in a row *)

Lemma issue_all_run calls : ∀ st,
  0 ≤ next_request_tid st < 2 ^ 32 →
  Forall (call_ok (heap st)) calls → NoDup (calls.*2) →
  ∃ st',
    issue_all calls st = Some ((), st') ∧
    next_request_tid st' =
      (next_request_tid st + Z.of_nat (length calls)) mod 2 ^ 32 ∧
    (∀ q r, request_at (heap st) q = Some r → request_at (heap st') q = Some r) ∧
    (∀ i c, calls !! i = Some c →
       ∃ r, request_at (heap st') c.2 = Some r ∧
            tid (hdr (req_mad r)) =
              (htonl IB_GMA_TID_MAGIC,
               htonl ((next_request_tid st + Z.of_nat i + 1) mod 2 ^ 32))).
Proof.
induction calls as [|[[[gma mad] av] p] calls IH]; intros st Hn Hok Hnd.
- exists st. split; [done|]. split.
  { cbn [length]. rewrite Z.add_0_r, Z.mod_small; done. }
  split; [done|]. intros i c Hi. by rewrite lookup_nil in Hi.
- apply Forall_cons in Hok as [(Hg0 & Hm0 & Hav0 & Hp0) Hok]. cbn [fst snd] in *.
  rewrite fmap_cons in Hnd. apply NoDup_cons in Hnd as [Hpn Hnd]. cbn [snd] in Hpn.
  destruct (ib_gma_request_run gma mad av (Some p) st)
    as (g & m & avv & Hg & Hm & _ & _ & Hrun).
  { split_and!; try done. by intros ? [= <-]. }
  set (n1 := (next_request_tid st + 1) mod 2 ^ 32) in *.
  set (r0 := issued_request gma (gma_ibdev g) m avv n1) in *.
  set (st1 := {| heap := <[p := ObjRequest r0]>
                           (<[gma := ObjGma (set_requests (p :: requests g) g)]> (heap st));
                 next_request_tid := n1;
                 trace := trace st ++ [ev_zalloc (Some p); ev_start_timer_nodelay p] |}) in *.
  assert (Hpg : p ≠ gma).
  { intros ->. apply gma_at_Some in Hg. congruence. }
  assert (Hsame : ∀ q, q ≠ p → q ≠ gma → heap st1 !! q = heap st !! q).
  { intros q H1 H2. cbn [heap st1]. by rewrite !lookup_insert_ne. }
  assert (Hreq1 : ∀ q r, request_at (heap st) q = Some r →
                         request_at (heap st1) q = Some r).
  { intros q r Hq. unfold request_at. rewrite Hsame.
    - exact Hq.
    - intros ->. apply request_at_Some in Hq. congruence.
    - intros ->. apply request_at_Some in Hq. apply gma_at_Some in Hg. congruence. }
  assert (Hn1 : 0 ≤ next_request_tid st1 < 2 ^ 32).
  { cbn [next_request_tid st1]. apply Z.mod_pos_bound. lia. }
  assert (Hok1 : Forall (call_ok (heap st1)) calls).
  { rewrite Forall_forall in Hok. apply Forall_forall. intros c Hc.
    destruct (Hok c Hc) as ([g' Hg'] & [m' Hm'] & Hav' & Hp').
    assert (Hcp : c.2 ≠ p).
    { intros E. apply Hpn. rewrite <- E. apply list_elem_of_fmap. by exists c. }
    split_and!.
    - destruct (decide (c.1.1.1 = gma)) as [->|Hne].
      + unfold gma_at. cbn [heap st1].
        rewrite lookup_insert_ne, lookup_insert_eq by done. by eexists.
      + unfold gma_at. rewrite Hsame; [by eexists (g')| |done].
        intros E. rewrite E in Hg'. apply gma_at_Some in Hg'. congruence.
    - unfold mad_at. rewrite Hsame; [by eexists|intros E|intros E];
        rewrite E in Hm'; apply mad_at_Some in Hm'; [congruence|].
      apply gma_at_Some in Hg. congruence.
    - intros a Ha. destruct (Hav' a Ha) as [x Hx]. unfold av_at.
      rewrite Hsame; [by eexists|intros E|intros E];
        rewrite E in Hx; apply av_at_Some in Hx; [congruence|].
      apply gma_at_Some in Hg. congruence.
    - rewrite Hsame; [done|done|]. intros E. rewrite E in Hp'.
      apply gma_at_Some in Hg. congruence. }
  destruct (IH st1 Hn1 Hok1 Hnd) as (st' & Hrun' & Hnext & Hframe & Htids).
  exists st'. split.
  { cbn [issue_all]. rewrite bind_run, Hrun. exact Hrun'. }
  split.
  { rewrite Hnext. change (next_request_tid st1) with n1. unfold n1.
    rewrite Z.add_mod_idemp_l by lia. f_equal.
    change (length ((gma, mad, av, p) :: calls)) with (S (length calls)). lia. }
  split.
  { intros q r Hq. by apply Hframe, Hreq1. }
  intros [|i] c Hi.
  + injection Hi as <-. cbn [snd]. exists r0. split.
    * apply Hframe. unfold request_at. cbn [heap st1]. by rewrite lookup_insert_eq.
    * cbn [r0 issued_request req_mad with_hdr hdr set_tid tid]. unfold n1.
      do 3 f_equal. lia.
  + destruct (Htids i c Hi) as (r & Hr & Ht). exists r. split; [done|].
    rewrite Ht. change (next_request_tid st1) with n1. unfold n1.
    rewrite <- Z.add_assoc, Z.add_mod_idemp_l by lia. do 3 f_equal. lia.
Qed.

(** X14: requests issued in a row, on whatever agents, draw consecutive
    values of the shared counter modulo 2^32; so the transaction ids of
    at most 2^32 requests issued in a row are pairwise different, and
    all of them have the magic constant as their high word. *)
Theorem issue_all_distinct_tids calls st :
  0 ≤ next_request_tid st < 2 ^ 32 →
  Forall (call_ok (heap st)) calls → NoDup (calls.*2) →
  Z.of_nat (length calls) ≤ 2 ^ 32 →
  ∃ st',
    issue_all calls st = Some ((), st') ∧
    next_request_tid st' =
      (next_request_tid st + Z.of_nat (length calls)) mod 2 ^ 32 ∧
    (∀ i c, calls !! i = Some c →
       ∃ r, request_at (heap st') c.2 = Some r ∧
            (tid (hdr (req_mad r))).1 = htonl IB_GMA_TID_MAGIC ∧
            ntohl (tid (hdr (req_mad r))).2 =
              (next_request_tid st + Z.of_nat i + 1) mod 2 ^ 32) ∧
    (∀ i j ci cj ri rj,
       i ≠ j → calls !! i = Some ci → calls !! j = Some cj →
       request_at (heap st') ci.2 = Some ri →
       request_at (heap st') cj.2 = Some rj →
       tid (hdr (req_mad ri)) ≠ tid (hdr (req_mad rj))).
Proof.
intros Hn Hok Hnd Hlen.
destruct (issue_all_run calls st Hn Hok Hnd) as (st' & Hrun & Hnext & _ & Htids).
exists st'. split; [done|]. split; [done|]. split.
- intros i c Hi. destruct (Htids i c Hi) as (r & Hr & Ht). exists r.
  split; [done|]. rewrite Ht. cbn [fst snd]. split; [done|].
  unfold ntohl, htonl. apply bswap_32_involutive, Z.mod_pos_bound. lia.
- intros i j ci cj ri rj Hij Hi Hj Hri Hrj E.
  destruct (Htids i ci Hi) as (r & Hr & Ht). rewrite Hri in Hr. injection Hr as <-.
  destruct (Htids j cj Hj) as (r & Hr & Ht'). rewrite Hrj in Hr. injection Hr as <-.
  rewrite Ht, Ht' in E. injection E as E.
  apply htonl_inj in E; try (apply Z.mod_pos_bound; lia).
  apply lookup_lt_Some in Hi, Hj.
  set (x := next_request_tid st + Z.of_nat i + 1) in *.
  set (y := next_request_tid st + Z.of_nat j + 1) in *.
  assert (Hd : (x - y) mod 2 ^ 32 = 0).
  { rewrite Zminus_mod, E, Z.sub_diag. reflexivity. }
  apply Z.mod_divide in Hd; [|lia]. destruct Hd as [k Hk].
  change (2 ^ 32) with 4294967296 in *. unfold x, y in Hk. lia.
Qed.
End properties.

(** * The properties on the sample data *)

Lemma sample_handlers_wf : @handlers_wf sample_env.
Proof.
  intros h ibdev m Hh Hwf.
  assert (E : handle h = sample_handle).
  { cbn in Hh. rewrite !elem_of_cons, elem_of_nil in Hh.
    destruct Hh as [->|[->|[]]]; reflexivity. }
  rewrite E. exact Hwf.
Defined.

Lemma sample_requests_wf n :
  requests_wf (heap (sample_state n)) (requests sample_gma).
Proof.
  intros p Hp. cbn in Hp. rewrite !elem_of_cons, elem_of_nil in Hp.
  destruct Hp as [->|[->|[]]]; eexists; (split; [reflexivity|]);
    unfold wf_tid; vm_compute; intuition congruence.
Defined.

Lemma sample_valid_recv n class meth attr t hp :
  wf_tid t → 0 ≤ hp < 256 →
  @valid_recv sample_env sample_qp (sample_iobuf (sample_mad class meth attr t hp))
    (sample_state n) sample_gma.
Proof.
  intros Ht Hhp. unfold valid_recv. split_and!; try reflexivity.
  - split; [reflexivity|exact Hhp].
  - exact Ht.
  - apply sample_requests_wf.
  - cbn. repeat constructor; rewrite ?elem_of_cons, ?elem_of_nil; intuition congruence.
Defined.

Lemma sample_tid_wf n : wf_tid (sample_tid n).
Proof. split; apply bswap_32_range. Defined.

(** C7 on a completion that reports an error. *)
Lemma ib_gma_complete_recv_discards_witness :
  let iobuf := sample_iobuf (sample_mad 1 1 (htons 17) (sample_tid 1) 0) in
  (5 ≠ 0 ∨ iob_len iobuf ≠ @sizeof_ib_mad sample_env ∨
   base_version (hdr (iob_data iobuf)) ≠ @IB_MGMT_BASE_VERSION sample_env) ∧
  ∃ m, @ib_gma_complete_recv sample_env sample_ibdev sample_qp sample_av iobuf
         5 0 (sample_state 2) =
       Some ((), with_events [ev_dbgc m; ev_free_iob iobuf] (sample_state 2)).
Proof.
  intros iobuf.
  assert (Hbad : 5 ≠ 0 ∨ iob_len iobuf ≠ @sizeof_ib_mad sample_env ∨
                 base_version (hdr (iob_data iobuf)) ≠ @IB_MGMT_BASE_VERSION sample_env)
    by (left; lia).
  split; [exact Hbad|].
  destruct (@ib_gma_complete_recv_discards sample_env sample_ibdev sample_qp
              sample_av iobuf 5 0 (sample_state 2) Hbad) as (m & _ & Hrun & _).
  exists m. exact Hrun.
Defined.

(** C3 on a Get of attribute 0x0011 in a LID-routed MAD. *)
Lemma ib_handle_mad_registered_witness :
  let mad := sample_mad 1 1 (htons 17) (sample_tid 1) 0 in
  sample_handler 1 ∈ @IB_MAD_HANDLERS sample_env ∧
  handler_tuple (sample_handler 1) = hdr_tuple (hdr mad) ∧
  ∃ e0, handler_tuple e0 = hdr_tuple (hdr mad) ∧
    @ib_handle_mad sample_env sample_ibdev mad (sample_state 2) =
      Some (handle e0 sample_ibdev (with_hdr (set_method (resp_method e0)) mad),
            with_events [ev_handle e0 sample_ibdev
                           (with_hdr (set_method (resp_method e0)) mad)]
              (sample_state 2)).
Proof.
  intros mad.
  assert (Hin : sample_handler 1 ∈ @IB_MAD_HANDLERS sample_env)
    by apply list_elem_of_here.
  assert (Ht : handler_tuple (sample_handler 1) = hdr_tuple (hdr mad))
    by reflexivity.
  split; [exact Hin|]. split; [exact Ht|].
  destruct (@ib_handle_mad_registered sample_env sample_ibdev mad (sample_handler 1)
              (sample_state 2) Hin Ht) as (e0 & pre & post & _ & _ & He0 & [_ Hrun] & _).
  exists e0. split; [exact He0|exact Hrun].
Defined.

(** C2 on the response to request 1, which sits second in the list. *)
Lemma ib_gma_complete_recv_retires_witness :
  let iobuf := sample_iobuf (sample_mad 1 129 (htons 17) (sample_tid 1) 0) in
  @valid_recv sample_env sample_qp iobuf (sample_state 2) sample_gma ∧
  @handlers_wf sample_env ∧
  ∃ st', @ib_gma_complete_recv sample_env sample_ibdev sample_qp sample_av iobuf
           0 0 (sample_state 2) = Some ((), st') ∧
         ∃ p, heap st' !! p = None ∧
              gma_at (heap st') 1%positive =
                Some (set_requests (unlink p [4; 3]%positive) sample_gma).
Proof.
  intros iobuf.
  assert (Hv : @valid_recv sample_env sample_qp iobuf (sample_state 2) sample_gma).
  { apply sample_valid_recv; [apply sample_tid_wf|lia]. }
  split; [exact Hv|]. split; [exact sample_handlers_wf|].
  destruct (@ib_gma_complete_recv_retires sample_env sample_ibdev sample_qp sample_av
              iobuf 0 (sample_state 2) sample_gma Hv sample_handlers_wf)
    as (st' & evs & Hrun & _ & Hmatch & _).
  exists st'. split; [exact Hrun|].
  destruct Hmatch as (p & r & before & after & _ & _ & _ & _ & _ & Hgone & Hg & _).
  { exists 3%positive, (sample_request 1). split_and!; try reflexivity.
    cbn. rewrite !elem_of_cons. auto. }
  exists p. split; [exact Hgone|exact Hg].
Defined.

(** C10 on a MAD that has the counter word of request 1 but not the
    magic word. *)
Lemma ib_gma_complete_recv_tid_bytes_witness :
  let iobuf := sample_iobuf (sample_mad 1 129 (htons 17) (0, htonl 1) 0) in
  @valid_recv sample_env sample_qp iobuf (sample_state 2) sample_gma ∧
  @handlers_wf sample_env ∧
  ∃ st', @ib_gma_complete_recv sample_env sample_ibdev sample_qp sample_av iobuf
           0 0 (sample_state 2) = Some ((), st') ∧
         heap st' = heap (sample_state 2).
Proof.
  intros iobuf.
  assert (Hv : @valid_recv sample_env sample_qp iobuf (sample_state 2) sample_gma).
  { apply sample_valid_recv; [|lia]. split; [cbn; lia|apply bswap_32_range]. }
  split; [exact Hv|]. split; [exact sample_handlers_wf|].
  destruct (@ib_gma_complete_recv_tid_bytes sample_env sample_ibdev sample_qp sample_av
              iobuf 0 (sample_state 2) sample_gma Hv sample_handlers_wf)
    as (st' & Hrun & _ & _ & Hnone).
  exists st'. split; [exact Hrun|]. apply Hnone.
  intros p r Hp Hr. cbn in Hp. rewrite !elem_of_cons, elem_of_nil in Hp.
  destruct Hp as [->|[->|[]]]; vm_compute in Hr; injection Hr as <-;
    vm_compute; congruence.
Defined.

Lemma sample_unregistered class t hp :
  ∀ x, x ∈ @IB_MAD_HANDLERS sample_env →
       handler_tuple x ≠ hdr_tuple (hdr (sample_mad class 2 (htons 17) t hp)).
Proof.
  intros x Hx. cbn in Hx. rewrite !elem_of_cons, elem_of_nil in Hx.
  destruct Hx as [->|[->|[]]]; intros [= _ E]; discriminate E.
Defined.

(** C4 (as amended) on a Set of attribute 0x0011 in a LID-routed MAD,
    for which there is no handler: a trap is sent back. *)
Lemma ib_gma_complete_recv_unregistered_witness :
  let iobuf := sample_iobuf (sample_mad 1 2 (htons 17) (sample_tid 9) 0) in
  @valid_recv sample_env sample_qp iobuf (sample_state 2) sample_gma ∧
  (∀ x, x ∈ @IB_MAD_HANDLERS sample_env →
        handler_tuple x ≠ hdr_tuple (hdr (iob_data iobuf))) ∧
  @IB_MGMT_METHOD_TRAP sample_env ≠ 0 ∧
  ∃ st', @ib_gma_complete_recv sample_env sample_ibdev sample_qp sample_av iobuf
           0 0 (sample_state 2) = Some ((), st') ∧
         transmissions (trace st') =
           [(@response_av sample_env sample_av,
             set_iob_data (@trap_mad sample_env (iob_data iobuf)) iobuf)].
Proof.
  intros iobuf.
  assert (Hv : @valid_recv sample_env sample_qp iobuf (sample_state 2) sample_gma).
  { apply sample_valid_recv; [apply sample_tid_wf|lia]. }
  assert (Htrap : @IB_MGMT_METHOD_TRAP sample_env ≠ 0) by (cbn; lia).
  split; [exact Hv|]. split; [apply sample_unregistered|]. split; [exact Htrap|].
  destruct (@ib_gma_complete_recv_unregistered sample_env sample_ibdev sample_qp
              sample_av iobuf 0 (sample_state 2) sample_gma Hv
              (sample_unregistered _ _ _) Htrap)
    as (_ & _ & _ & _ & st' & evs & Hrun & Ht & _ & Hobs).
  exists st'. split; [exact Hrun|]. rewrite Ht. cbn [trace sample_state app].
  cbn [andb negb Z.eqb trap_mad with_hdr hdr mgmt_class set_status set_method
       iob_data iobuf sample_iobuf sample_mad IB_MGMT_CLASS_SUBN_DIRECTED_ROUTE
       sample_env Pos.eqb] in Hobs.
  destruct Hobs as (Htx & _). exact Htx.
Defined.

(** C4 as first stated fails on a directed-route Set of attribute 0x0011
    whose hop pointer is 64, the length of the return path: there is no
    handler for it, and no response is sent. *)
Lemma ib_gma_complete_recv_unregistered_no_response :
  let iobuf := sample_iobuf (sample_mad 129 2 (htons 17) (sample_tid 9) 64) in
  @valid_recv sample_env sample_qp iobuf (sample_state 2) sample_gma ∧
  (∀ x, x ∈ @IB_MAD_HANDLERS sample_env →
        handler_tuple x ≠ hdr_tuple (hdr (iob_data iobuf))) ∧
  ∃ st', @ib_gma_complete_recv sample_env sample_ibdev sample_qp sample_av iobuf
           0 0 (sample_state 2) = Some ((), st') ∧
         transmissions (trace st') = [] ∧
         released_iobs (trace st') =
           [set_iob_data (@dr_mark sample_env (@trap_mad sample_env (iob_data iobuf)))
              iobuf].
Proof.
  intros iobuf.
  split; [apply sample_valid_recv; [apply sample_tid_wf|lia]|].
  split; [apply sample_unregistered|].
  eexists. split; [vm_compute; reflexivity|]. split; vm_compute; reflexivity.
Qed.

(** C5 on a directed-route Get of attribute 0x0011 with hop pointer 3. *)
Lemma ib_gma_complete_recv_directed_route_witness :
  let mad := sample_mad 129 1 (htons 17) (sample_tid 9) 3 in
  let iobuf := sample_iobuf mad in
  let mad' := with_hdr (set_status 0) (with_hdr (set_method 129) mad) in
  @valid_recv sample_env sample_qp iobuf (sample_state 2) sample_gma ∧
  @handlers_wf sample_env ∧
  @ib_handle_mad sample_env sample_ibdev (iob_data iobuf) (sample_state 2) =
    Some ((mad', 0), with_events [ev_handle (sample_handler 129) sample_ibdev
                                    (with_hdr (set_method 129) mad)] (sample_state 2)) ∧
  method (hdr mad') ≠ 0 ∧
  mgmt_class (hdr mad') = @IB_MGMT_CLASS_SUBN_DIRECTED_ROUTE sample_env ∧
  0 ≤ port sample_ibdev < 256 ∧
  ∃ st', @ib_gma_complete_recv sample_env sample_ibdev sample_qp sample_av iobuf
           0 0 (sample_state 2) = Some ((), st') ∧
         return_path_hops (@response_mad sample_env sample_ibdev mad') !! 3%nat =
           Some (port sample_ibdev).
Proof.
  intros mad iobuf mad'.
  assert (Hv : @valid_recv sample_env sample_qp iobuf (sample_state 2) sample_gma).
  { apply sample_valid_recv; [apply sample_tid_wf|lia]. }
  assert (Hd : @ib_handle_mad sample_env sample_ibdev (iob_data iobuf) (sample_state 2) =
    Some ((mad', 0), with_events [ev_handle (sample_handler 129) sample_ibdev
                                    (with_hdr (set_method 129) mad)] (sample_state 2)))
    by reflexivity.
  assert (Hm : method (hdr mad') ≠ 0) by (cbn; lia).
  assert (Hc : mgmt_class (hdr mad') = @IB_MGMT_CLASS_SUBN_DIRECTED_ROUTE sample_env)
    by reflexivity.
  assert (Hp : 0 ≤ port sample_ibdev < 256) by (cbn; lia).
  split_and!; try done; try exact sample_handlers_wf.
  destruct (@ib_gma_complete_recv_directed_route sample_env sample_ibdev sample_qp
              sample_av iobuf 0 (sample_state 2) sample_gma mad' 0 _
              Hv sample_handlers_wf Hd Hm Hc Hp)
    as (st' & evs & Hrun & _ & _ & _ & Hin & _).
  exists st'. split; [exact Hrun|].
  destruct Hin as (_ & _ & _ & Hport & _); [cbn; lia|]. exact Hport.
Defined.

(** C6: the transport refuses the response to a Get of attribute 0x0011:
    the refusal is logged, and [free_iob] is never called on the
    buffer. *)
Lemma ib_gma_complete_recv_send_failure :
  let iobuf := sample_iobuf (sample_mad 1 1 (htons 17) (sample_tid 9) 0) in
  let st' := final_state
    (@ib_gma_complete_recv sample_env sample_ibdev sample_qp sample_av iobuf 0 (-5))
    (sample_state 2) in
  is_Some (@ib_gma_complete_recv sample_env sample_ibdev sample_qp sample_av iobuf
             0 (-5) (sample_state 2)) ∧
  length (transmissions (trace st')) = 1%nat ∧
  last (trace st') = Some (ev_dbgc dbg_could_not_send_response) ∧
  released_iobs (trace st') = [].
Proof.
  intros iobuf st'. split; [vm_compute; eauto|].
  split; [vm_compute; reflexivity|]. split; vm_compute; reflexivity.
Qed.

(** C1 on request 1: three expiries, the second of which finds no
    buffer and the third a transport that refuses, then a last one with
    the failure indicator. *)
Lemma ib_gma_timer_expired_spec_witness :
  let st := sample_state 2 in
  request_at (heap st) 3%positive = Some (sample_request 1) ∧
  req_gma (sample_request 1) = Some 1%positive ∧
  gma_at (heap st) 1%positive = Some sample_gma ∧
  3%positive ∈ requests sample_gma ∧
  NoDup (requests sample_gma) ∧
  (∃ st', @expire_n sample_env 3%positive [(true, 0); (false, 0); (true, -5)] st =
            Some ((), st') ∧
          transmissions (trace st') =
            replicate 2 (sample_av, @retry_iobuf sample_env (sample_request 1)) ∧
          gma_at (heap st') 1%positive = Some sample_gma) ∧
  (∃ st', @ib_gma_timer_expired sample_env 3%positive true true 0 st = Some ((), st') ∧
          heap st' !! 3%positive = None ∧ transmissions (trace st') = []).
Proof.
  intros st.
  assert (H1 : request_at (heap st) 3%positive = Some (sample_request 1))
    by reflexivity.
  assert (H2 : req_gma (sample_request 1) = Some 1%positive) by reflexivity.
  assert (H3 : gma_at (heap st) 1%positive = Some sample_gma) by reflexivity.
  assert (H4 : 3%positive ∈ requests sample_gma).
  { cbn. rewrite !elem_of_cons. auto. }
  assert (H5 : NoDup (requests sample_gma)).
  { cbn. repeat constructor; rewrite ?elem_of_cons, ?elem_of_nil; intuition congruence. }
  split_and!; try done.
  - destruct (@ib_gma_timer_expired_spec sample_env 3%positive (sample_request 1)
                1%positive sample_gma st H1 H2 H3 H4 H5) as [_ Hn].
    destruct (Hn [(true, 0); (false, 0); (true, -5)])
      as (st' & evs & Hrun & Ht & Htx & _ & _ & Hg & _).
    exists st'. split; [exact Hrun|]. split; [|exact Hg].
    rewrite Ht. exact Htx.
  - destruct (@ib_gma_timer_expired_spec sample_env 3%positive (sample_request 1)
                1%positive sample_gma st H1 H2 H3 H4 H5) as [Hx _].
    destruct (Hx true 0) as (st' & evs & Hrun & Ht & Hgone & _ & _ & _ & Htx & _).
    exists st'. split; [exact Hrun|]. split; [exact Hgone|].
    rewrite Ht. exact Htx.
Defined.

Lemma sample_can_issue n gma zres :
  gma = 1%positive ∨ gma = 6%positive →
  (∀ p, zres = Some p → (6 < p)%positive) →
  can_issue gma 2%positive (Some 5%positive) zres (sample_state n).
Proof.
  intros Hg Hz. split_and!.
  - destruct Hg as [->| ->]; by eexists.
  - by eexists.
  - intros a [= <-]. by eexists.
  - intros p Hp. specialize (Hz p Hp). cbn [heap sample_state].
    rewrite !lookup_insert_ne by lia. apply lookup_empty.
Defined.

(** C9 on a request issued for the MAD at 2 and the address vector at
    5, with a record allocated at 8. *)
Lemma ib_gma_request_frame_witness :
  let st := sample_state 2 in
  can_issue 1%positive 2%positive (Some 5%positive) (Some 8%positive) st ∧
  ∃ st', @ib_gma_request sample_env 1%positive 2%positive (Some 5%positive)
           (Some 8%positive) st = Some (0, st') ∧
         heap st' !! 2%positive = heap st !! 2%positive ∧
         heap st' !! 5%positive = heap st !! 5%positive.
Proof.
  intros st.
  assert (Hc : can_issue 1%positive 2%positive (Some 5%positive) (Some 8%positive) st).
  { apply sample_can_issue; [by left|]. intros p [= <-]. lia. }
  split; [exact Hc|].
  destruct (@ib_gma_request_frame sample_env _ _ _ _ _ Hc)
    as (rc & st' & Hrun & Hmad & Hav & _ & -> & _).
  exists st'. split; [exact Hrun|]. split; [exact Hmad|]. by apply Hav.
Defined.

(** The state after a first request has been issued from the sample
    state with the counter at [n], on the agent at 1 with a record at 8. *)
Lemma sample_first_issue n :
  ∃ st1, @ib_gma_request sample_env 1%positive 2%positive (Some 5%positive)
           (Some 8%positive) (sample_state n) = Some (0, st1) ∧
         can_issue 6%positive 2%positive None (Some 9%positive) st1.
Proof.
  destruct (@ib_gma_request_run sample_env 1%positive 2%positive (Some 5%positive)
              (Some 8%positive) (sample_state n))
    as (g & m & avv & Hg & Hm & _ & _ & Hrun).
  { apply sample_can_issue; [by left|]. intros p [= <-]. lia. }
  eexists. split; [exact Hrun|].
  injection Hg as <-. injection Hm as <-.
  split_and!.
  - by eexists.
  - by eexists.
  - intros a [=].
  - intros p [= <-]. cbn [heap sample_state].
    rewrite !lookup_insert_ne by lia. apply lookup_empty.
Defined.

(** C8 (as amended) on two requests issued in a row on two agents, with
    the counter at 2. *)
Lemma ib_gma_request_tid_sequence_witness :
  0 ≤ next_request_tid (sample_state 2) < 2 ^ 32 ∧
  can_issue 1%positive 2%positive (Some 5%positive) (Some 8%positive)
    (sample_state 2) ∧
  ∃ st1 st2 r1 r2,
    @ib_gma_request sample_env 1%positive 2%positive (Some 5%positive)
      (Some 8%positive) (sample_state 2) = Some (0, st1) ∧
    can_issue 6%positive 2%positive None (Some 9%positive) st1 ∧
    @ib_gma_request sample_env 6%positive 2%positive None (Some 9%positive) st1 =
      Some (0, st2) ∧
    request_at (heap st2) 8%positive = Some r1 ∧
    request_at (heap st2) 9%positive = Some r2 ∧
    tid (hdr (req_mad r1)) ≠ tid (hdr (req_mad r2)) ∧
    ntohl (tid (hdr (req_mad r1))).2 < ntohl (tid (hdr (req_mad r2))).2.
Proof.
  assert (Hn : 0 ≤ next_request_tid (sample_state 2) < 2 ^ 32) by (cbn; lia).
  assert (Hc1 : can_issue 1%positive 2%positive (Some 5%positive) (Some 8%positive)
                  (sample_state 2)).
  { apply sample_can_issue; [by left|]. intros p [= <-]. lia. }
  split; [exact Hn|]. split; [exact Hc1|].
  destruct (sample_first_issue 2) as (st1 & Hrun1 & Hc2).
  destruct (@ib_gma_request_run sample_env _ _ _ _ _ Hc2)
    as (g & m & avv & _ & _ & _ & _ & Hrun2).
  destruct (@ib_gma_request_tid_sequence sample_env _ _ _ _ _ _ _ _ _ _ _ _ _
              Hn Hc1 Hrun1 Hc2 Hrun2)
    as (r1 & r2 & Hr1 & Hr2 & _ & _ & _ & _ & _ & _ & Hne & Hlt).
  eexists st1, _, r1, r2. split_and!; try done.
  apply Hlt. cbn. lia.
Defined.

(** C8 as first stated fails when the counter wraps: with the counter
    at 2^32 - 2, the first of two requests issued in a row gets the low
    word 2^32 - 1 and the second the low word 0. *)
Lemma ib_gma_request_tid_wraps :
  let st := sample_state (2 ^ 32 - 2) in
  let st1 := final_state
    (@ib_gma_request sample_env 1%positive 2%positive (Some 5%positive)
       (Some 8%positive)) st in
  let st2 := final_state
    (@ib_gma_request sample_env 6%positive 2%positive None (Some 9%positive)) st1 in
  @ib_gma_request sample_env 1%positive 2%positive (Some 5%positive)
    (Some 8%positive) st = Some (0, st1) ∧
  @ib_gma_request sample_env 6%positive 2%positive None (Some 9%positive) st1 =
    Some (0, st2) ∧
  request_low_word (heap st2) 8%positive = Some (2 ^ 32 - 1) ∧
  request_low_word (heap st2) 9%positive = Some 0 ∧
  ¬ (2 ^ 32 - 1 < 0).
Proof.
  intros st st1 st2. split_and!; try (vm_compute; reflexivity). lia.
Qed.

(** * AoE boot *)

(** X15: in every run of [aoeboot] the status returned is that of the
    first step that failed ([aoe_attach], then [init_atadev]) or else
    that of [int13_boot]; [aoe_attach] is called exactly once, first,
    with the first network device, or with a null device when there is
    none. *)
Theorem aoeboot_result net_devices root_path attach_rc init_rc bios_drive boot_rc :
  let run := aoeboot net_devices root_path attach_rc init_rc bios_drive boot_rc in
  run.1 = (if negb (attach_rc =? 0) then attach_rc
           else if negb (init_rc =? 0) then init_rc else boot_rc) ∧
  ∃ rest,
    aoeboot_calls run.2 =
      ab_aoe_attach (head net_devices) root_path attach_rc :: rest ∧
    ∀ nd p rc, ab_aoe_attach nd p rc ∉ rest.
Proof.
unfold aoeboot. cbv zeta.
assert (Hnd : guess_boot_netdev net_devices = head net_devices)
  by (by destruct net_devices).
rewrite Hnd.
destruct (attach_rc =? 0); cbn [negb]; [destruct (init_rc =? 0); cbn [negb]|].
all: split; [reflexivity|]; eexists; split; [reflexivity|].
all: intros nd p rc Hin; rewrite ?elem_of_cons, elem_of_nil in Hin;
  intuition discriminate.
Qed.


(** * The further properties on the sample data *)

Lemma sample_NoDup : NoDup (requests sample_gma).
Proof.
cbn. repeat constructor; rewrite ?elem_of_cons, ?elem_of_nil; intuition congruence.
Defined.

Lemma sample_wf_heap n : wf_heap (heap (sample_state n)).
Proof.
intros ga g Hg. unfold gma_at in Hg. cbn [heap sample_state] in Hg.
repeat (rewrite lookup_insert in Hg; case_decide;
        [subst ga; cbn in Hg|]).
all: try discriminate Hg.
all: try (rewrite lookup_empty in Hg; discriminate Hg).
all: injection Hg as <-.
- split; [exact sample_NoDup|].
  intros p Hp. cbn in Hp. rewrite !elem_of_cons, elem_of_nil in Hp.
  destruct Hp as [->|[->|[]]]; eexists; split; reflexivity.
- split; [apply NoDup_nil_2|].
  intros p Hp. cbn in Hp. by apply elem_of_nil in Hp.
Defined.

Lemma sample_live_requests n :
  live_requests (heap (sample_state n)) (requests sample_gma).
Proof.
intros p Hp. cbn in Hp. rewrite !elem_of_cons, elem_of_nil in Hp.
destruct Hp as [->|[->|[]]]; by eexists.
Defined.



(** X1 on the sample agent with its two requests. *)
Lemma ib_destroy_gma_flushes_witness :
  let st := sample_state 2 in
  gma_at (heap st) 1%positive = Some sample_gma ∧
  NoDup (requests sample_gma) ∧
  live_requests (heap st) (requests sample_gma) ∧
  ∃ st', @ib_destroy_gma 1%positive st = Some ((), st') ∧
         trace st' = [ev_stop_timer 4%positive; ev_free 4%positive;
                      ev_stop_timer 3%positive; ev_free 3%positive;
                      ev_ib_destroy_qp sample_ibdev 11;
                      ev_ib_destroy_cq sample_ibdev 10] ∧
         gma_at (heap st') 1%positive = Some (set_requests [] sample_gma).
Proof.
intros st.
assert (H1 : gma_at (heap st) 1%positive = Some sample_gma) by reflexivity.
split; [exact H1|]. split; [exact sample_NoDup|].
split; [apply sample_live_requests|].
destruct (ib_destroy_gma_flushes 1%positive sample_gma st H1 sample_NoDup
            (sample_live_requests 2)) as (st' & Hrun & Ht & Hg & _).
exists st'. split; [exact Hrun|]. split; [exact Ht|exact Hg].
Defined.

(** X2 on the structure at 6, with 20 and 21 as the new queues. *)
Lemma ib_create_gma_ok_witness :
  let st := sample_state 2 in
  gma_at (heap st) 6%positive = Some (set_requests [] sample_gma) ∧ 20 ≠ 0 ∧ 21 ≠ 0 ∧
  ∃ st', @ib_create_gma sample_env 6%positive sample_ibdev 7 20 21 st = Some (0, st') ∧
         gma_at (heap st') 6%positive =
           Some {| gma_ibdev := sample_ibdev; gma_cq := 20; gma_qp := 21;
                   requests := [] |}.
Proof.
intros st.
assert (H1 : gma_at (heap st) 6%positive = Some (set_requests [] sample_gma))
  by reflexivity.
assert (H2 : 20 ≠ 0) by lia. assert (H3 : 21 ≠ 0) by lia.
split; [exact H1|]. split; [exact H2|]. split; [exact H3|].
eexists. split.
- exact (@ib_create_gma_ok sample_env 6%positive _ sample_ibdev 7 20 21 st H1 H2 H3).
- reflexivity.
Defined.

(** X3 on the structure at 6, when no queue pair can be had. *)
Lemma ib_create_gma_unwinds_witness :
  let st := sample_state 2 in
  gma_at (heap st) 6%positive = Some (set_requests [] sample_gma) ∧ (20 = 0 ∨ 0 = 0) ∧
  ∃ st', @ib_create_gma sample_env 6%positive sample_ibdev 7 20 0 st =
           Some (- @ENOMEM sample_env, st') ∧
         last (trace st') = Some (ev_ib_destroy_cq sample_ibdev 20).
Proof.
intros st.
assert (H1 : gma_at (heap st) 6%positive = Some (set_requests [] sample_gma))
  by reflexivity.
assert (H2 : 20 = 0 ∨ 0 = 0) by (right; reflexivity).
split; [exact H1|]. split; [exact H2|].
destruct (@ib_create_gma_unwinds sample_env 6%positive _ sample_ibdev 7 20 0 st H1 H2)
  as (st' & evs & Hrun & Ht & Hevs & _).
exists st'. split; [exact Hrun|]. rewrite Ht, Hevs. reflexivity.
Defined.

(** X4 on request 1, with a transport that accepts the buffer and a
    send completion that reports an error. *)
Lemma retransmit_buffer_released_once_witness :
  let st := sample_state 2 in
  request_at (heap st) 3%positive = Some (sample_request 1) ∧
  req_gma (sample_request 1) = Some 1%positive ∧
  gma_at (heap st) 1%positive = Some sample_gma ∧
  ∃ st',
    (@ib_gma_timer_expired sample_env 3%positive false true 0;;
     @ib_gma_complete_send (gma_ibdev sample_gma) sample_qp
       (Some (@retry_iobuf sample_env (sample_request 1))) (-5)) st = Some ((), st') ∧
    released_iobs (trace st') = [@retry_iobuf sample_env (sample_request 1)].
Proof.
intros st.
assert (H1 : request_at (heap st) 3%positive = Some (sample_request 1)) by reflexivity.
assert (H2 : req_gma (sample_request 1) = Some 1%positive) by reflexivity.
assert (H3 : gma_at (heap st) 1%positive = Some sample_gma) by reflexivity.
split; [exact H1|]. split; [exact H2|]. split; [exact H3|].
destruct (@retransmit_buffer_released_once sample_env 3%positive _ _ _ 0 (-5) sample_qp
            st H1 H2 H3) as (st' & evs & Hrun & Ht & _ & Hrl & _).
exists st'. split; [exact Hrun|]. rewrite Ht. exact Hrl.
Defined.

(** X5 on a Get of attribute 0x0011, which is answered. *)
Lemma ib_gma_complete_recv_buffer_owner_witness :
  let iobuf := sample_iobuf (sample_mad 1 1 (htons 17) (sample_tid 9) 0) in
  @valid_recv sample_env sample_qp iobuf (sample_state 2) sample_gma ∧
  @handlers_wf sample_env ∧
  ∃ st', @ib_gma_complete_recv sample_env sample_ibdev sample_qp sample_av iobuf
           0 0 (sample_state 2) = Some ((), st') ∧
         length (transmissions (trace st') ++
                 ((λ b, (sample_av, b)) <$> released_iobs (trace st'))) = 1%nat.
Proof.
intros iobuf.
assert (Hv : @valid_recv sample_env sample_qp iobuf (sample_state 2) sample_gma).
{ apply sample_valid_recv; [apply sample_tid_wf|lia]. }
split; [exact Hv|]. split; [exact sample_handlers_wf|].
destruct (@ib_gma_complete_recv_buffer_owner sample_env sample_ibdev sample_qp sample_av
            iobuf 0 (sample_state 2) sample_gma Hv sample_handlers_wf)
  as (st' & evs & Hrun & Ht & Hown & _).
exists st'. split; [exact Hrun|]. rewrite Ht. cbn [trace sample_state app].
destruct Hown as [[-> (b & -> & _)]|[-> (b & -> & _)]]; reflexivity.
Defined.

Lemma sample_handlers_wf_resp : @handlers_wf sample_env_resp.
Proof.
intros h ibdev m Hh Hwf.
assert (E : handle h = sample_handle).
{ cbn in Hh. rewrite !elem_of_cons, elem_of_nil in Hh.
  destruct Hh as [->|[]]; reflexivity. }
rewrite E. exact Hwf.
Defined.

(** X6 on the response to request 1, in the environment whose handler
    for such responses leaves the method 0. *)
Lemma ib_gma_complete_recv_no_response_witness :
  let mad := sample_mad 1 129 (htons 17) (sample_tid 1) 0 in
  let iobuf := sample_iobuf mad in
  let mad' := with_hdr (set_status 0) (with_hdr (set_method 0) mad) in
  @valid_recv sample_env_resp sample_qp iobuf (sample_state 2) sample_gma ∧
  @handlers_wf sample_env_resp ∧
  @ib_handle_mad sample_env_resp sample_ibdev (iob_data iobuf) (sample_state 2) =
    Some ((mad', 0), with_events [ev_handle sample_response_handler sample_ibdev
                                    (with_hdr (set_method 0) mad)] (sample_state 2)) ∧
  method (hdr mad') = 0 ∧
  ∃ st', @ib_gma_complete_recv sample_env_resp sample_ibdev sample_qp sample_av iobuf
           0 0 (sample_state 2) = Some ((), st') ∧
         transmissions (trace st') = [] ∧
         released_iobs (trace st') = [set_iob_data mad' iobuf].
Proof.
intros mad iobuf mad'.
assert (Hv : @valid_recv sample_env_resp sample_qp iobuf (sample_state 2) sample_gma).
{ unfold valid_recv. split_and!; try reflexivity.
  - split; [reflexivity|cbn; lia].
  - apply sample_tid_wf.
  - apply sample_requests_wf.
  - apply sample_NoDup. }
assert (Hd : @ib_handle_mad sample_env_resp sample_ibdev (iob_data iobuf) (sample_state 2) =
    Some ((mad', 0), with_events [ev_handle sample_response_handler sample_ibdev
                                    (with_hdr (set_method 0) mad)] (sample_state 2)))
  by reflexivity.
assert (Hm : method (hdr mad') = 0) by reflexivity.
split; [exact Hv|]. split; [exact sample_handlers_wf_resp|].
split; [exact Hd|]. split; [exact Hm|].
destruct (@ib_gma_complete_recv_no_response sample_env_resp sample_ibdev sample_qp
            sample_av iobuf 0 (sample_state 2) sample_gma mad' 0 _ Hv
            sample_handlers_wf_resp Hd Hm) as (st' & evs & Hrun & Ht & Htx & Hrl).
exists st'. split; [exact Hrun|]. rewrite Ht. split; [exact Htx|exact Hrl].
Defined.

(** X7 on a request for the subnet manager, issued on the agent at 6. *)
Lemma ib_gma_request_record_witness :
  let st := sample_state 2 in
  can_issue 6%positive 2%positive None (Some 8%positive) st ∧
  ∃ st' r,
    @ib_gma_request sample_env 6%positive 2%positive None (Some 8%positive) st =
      Some (0, st') ∧
    request_at (heap st') 8%positive = Some r ∧
    av_lid (req_av r) = 7 ∧ av_qpn (req_av r) = 1 ∧
    gma_at (heap st') 6%positive =
      Some (set_requests [8%positive] (set_requests [] sample_gma)).
Proof.
intros st.
assert (Hc : can_issue 6%positive 2%positive None (Some 8%positive) st).
{ split_and!; [by eexists|by eexists|intros a [=]|].
  intros p [= <-]. cbn [heap st sample_state].
  rewrite !lookup_insert_ne by lia. apply lookup_empty. }
split; [exact Hc|].
destruct (@ib_gma_request_record sample_env _ _ _ _ _ Hc)
  as (st' & g & r & Hrun & Hg & Hr & Hg' & _ & _ & _ & _ & Hsm).
injection Hg as <-.
exists st', r. split; [exact Hrun|]. split; [exact Hr|].
rewrite (Hsm eq_refl). split; [reflexivity|]. split; [reflexivity|exact Hg'].
Defined.

(** X8 on a request for which there is no memory. *)
Lemma ib_gma_request_no_memory_witness :
  let st := sample_state 2 in
  can_issue 1%positive 2%positive (Some 5%positive) None st ∧
  ∃ st',
    @ib_gma_request sample_env 1%positive 2%positive (Some 5%positive) None st =
      Some (-12, st') ∧
    next_request_tid st' = 2.
Proof.
intros st.
assert (Hc : can_issue 1%positive 2%positive (Some 5%positive) None st).
{ apply sample_can_issue; [by left|]. intros p [=]. }
split; [exact Hc|].
destruct (@ib_gma_request_no_memory sample_env _ _ _ _ Hc)
  as (st' & Hrun & _ & Hn & _).
exists st'. split; [exact Hrun|exact Hn].
Defined.

(** X9 on a third request of the sample agent and its response. *)
Lemma issue_then_response_witness :
  let st := sample_state 2 in
  let iobuf := sample_iobuf (sample_mad 1 129 (htons 17) (sample_tid 3) 0) in
  can_issue 1%positive 2%positive (Some 5%positive) (Some 8%positive) st ∧
  gma_at (heap st) 1%positive = Some sample_gma ∧
  requests_wf (heap st) (requests sample_gma) ∧
  NoDup (requests sample_gma) ∧
  @handlers_wf sample_env ∧
  qp_ownerdata sample_qp = 1%positive ∧
  iob_len iobuf = @sizeof_ib_mad sample_env ∧
  base_version (hdr (iob_data iobuf)) = @IB_MGMT_BASE_VERSION sample_env ∧
  @wf_mad sample_env (iob_data iobuf) ∧
  tid (hdr (iob_data iobuf)) =
    (htonl IB_GMA_TID_MAGIC, htonl ((next_request_tid st + 1) mod 2 ^ 32)) ∧
  ∃ st1 st2,
    @ib_gma_request sample_env 1%positive 2%positive (Some 5%positive)
      (Some 8%positive) st = Some (0, st1) ∧
    @ib_gma_complete_recv sample_env sample_ibdev sample_qp sample_av iobuf 0 0 st1 =
      Some ((), st2) ∧
    gma_at (heap st2) 1%positive = Some sample_gma.
Proof.
intros st iobuf.
assert (H1 : can_issue 1%positive 2%positive (Some 5%positive) (Some 8%positive) st).
{ apply sample_can_issue; [by left|]. intros p [= <-]. lia. }
assert (H2 : gma_at (heap st) 1%positive = Some sample_gma) by reflexivity.
assert (H3 : @wf_mad sample_env (iob_data iobuf)).
{ split; [reflexivity|cbn; lia]. }
split; [exact H1|]. split; [exact H2|]. split; [apply sample_requests_wf|].
split; [exact sample_NoDup|]. split; [exact sample_handlers_wf|].
split; [reflexivity|]. split; [reflexivity|]. split; [reflexivity|].
split; [exact H3|]. split; [reflexivity|].
destruct (@issue_then_response sample_env 1%positive 2%positive (Some 5%positive)
            8%positive st sample_gma sample_ibdev sample_qp sample_av iobuf 0
            H1 H2 (sample_requests_wf 2) sample_NoDup sample_handlers_wf
            eq_refl eq_refl eq_refl H3 eq_refl)
  as (st1 & st2 & Hrun1 & Hrun2 & Hg & _).
exists st1, st2. split; [exact Hrun1|]. split; [exact Hrun2|exact Hg].
Defined.

(** X10 on a request issued from the sample state. *)
Lemma ib_gma_request_keeps_lists_witness :
  let st := sample_state 2 in
  wf_heap (heap st) ∧
  can_issue 1%positive 2%positive (Some 5%positive) (Some 8%positive) st ∧
  ∃ rc st',
    @ib_gma_request sample_env 1%positive 2%positive (Some 5%positive)
      (Some 8%positive) st = Some (rc, st') ∧
    wf_heap (heap st').
Proof.
intros st.
assert (H1 : can_issue 1%positive 2%positive (Some 5%positive) (Some 8%positive) st).
{ apply sample_can_issue; [by left|]. intros p [= <-]. lia. }
split; [apply sample_wf_heap|]. split; [exact H1|].
exact (@ib_gma_request_keeps_lists sample_env _ _ _ _ _ (sample_wf_heap 2) H1).
Defined.

(** X11 on request 2 when its retries are exhausted. *)
Lemma ib_gma_timer_expired_keeps_lists_witness :
  let st := sample_state 2 in
  wf_heap (heap st) ∧
  request_at (heap st) 4%positive = Some (sample_request 2) ∧
  req_gma (sample_request 2) = Some 1%positive ∧
  gma_at (heap st) 1%positive = Some sample_gma ∧
  ∃ st', @ib_gma_timer_expired sample_env 4%positive true true 0 st = Some ((), st') ∧
         wf_heap (heap st').
Proof.
intros st.
split; [apply sample_wf_heap|]. split; [reflexivity|].
split; [reflexivity|]. split; [reflexivity|].
exact (@ib_gma_timer_expired_keeps_lists sample_env 4%positive (sample_request 2)
         1%positive sample_gma true true 0 st (sample_wf_heap 2)
         eq_refl eq_refl eq_refl).
Defined.

(** X12 on the response to request 2. *)
Lemma ib_gma_complete_recv_keeps_lists_witness :
  let iobuf := sample_iobuf (sample_mad 1 129 (htons 17) (sample_tid 2) 0) in
  wf_heap (heap (sample_state 2)) ∧
  @valid_recv sample_env sample_qp iobuf (sample_state 2) sample_gma ∧
  @handlers_wf sample_env ∧
  ∃ st', @ib_gma_complete_recv sample_env sample_ibdev sample_qp sample_av iobuf
           0 0 (sample_state 2) = Some ((), st') ∧
         wf_heap (heap st').
Proof.
intros iobuf.
assert (Hv : @valid_recv sample_env sample_qp iobuf (sample_state 2) sample_gma).
{ apply sample_valid_recv; [apply sample_tid_wf|lia]. }
split; [apply sample_wf_heap|]. split; [exact Hv|].
split; [exact sample_handlers_wf|].
exact (@ib_gma_complete_recv_keeps_lists sample_env sample_ibdev sample_qp sample_av
         iobuf 0 (sample_state 2) sample_gma (sample_wf_heap 2) Hv sample_handlers_wf).
Defined.

(** X13 on the sample agent. *)
Lemma ib_destroy_gma_keeps_lists_witness :
  let st := sample_state 2 in
  wf_heap (heap st) ∧
  gma_at (heap st) 1%positive = Some sample_gma ∧
  ∃ st', ib_destroy_gma 1%positive st = Some ((), st') ∧
         wf_heap (heap st') ∧
         gma_at (heap st') 1%positive = Some (set_requests [] sample_gma).
Proof.
intros st.
split; [apply sample_wf_heap|]. split; [reflexivity|].
exact (ib_destroy_gma_keeps_lists 1%positive sample_gma st (sample_wf_heap 2) eq_refl).
Defined.

(** X14 on three requests issued from the sample state with the counter
    at 2^32 - 2, which wraps in between. *)
Lemma issue_all_distinct_tids_witness :
  let st := sample_state (2 ^ 32 - 2) in
  0 ≤ next_request_tid st < 2 ^ 32 ∧
  Forall (call_ok (heap st)) sample_calls ∧
  NoDup (sample_calls.*2) ∧
  Z.of_nat (length sample_calls) ≤ 2 ^ 32 ∧
  ∃ st', @issue_all sample_env sample_calls st = Some ((), st') ∧
         next_request_tid st' = 1.
Proof.
intros st.
assert (H1 : 0 ≤ next_request_tid st < 2 ^ 32) by (cbn; lia).
assert (Hok : ∀ gma av p, gma = 1%positive ∨ gma = 6%positive →
          av = None ∨ av = Some 5%positive → (6 < p)%positive →
          call_ok (heap st) (gma, 2%positive, av, p)).
{ intros gma av p Hg Hav Hp. split_and!; cbn [fst snd].
  - destruct Hg as [-> | ->]; by eexists.
  - by eexists.
  - intros a Ha. destruct Hav as [-> | ->]; [done|]. injection Ha as <-. by eexists.
  - cbn [heap st sample_state]. rewrite !lookup_insert_ne by lia. apply lookup_empty. }
assert (H2 : Forall (call_ok (heap st)) sample_calls).
{ unfold sample_calls.
  apply Forall_cons_2; [apply Hok; [by left|by right|lia]|].
  apply Forall_cons_2; [apply Hok; [by right|by left|lia]|].
  apply Forall_cons_2; [apply Hok; [by left|by left|lia]|].
  apply Forall_nil_2. }
assert (H3 : NoDup (sample_calls.*2)).
{ cbn. repeat constructor; rewrite ?elem_of_cons, ?elem_of_nil; intuition congruence. }
assert (H4 : Z.of_nat (length sample_calls) ≤ 2 ^ 32) by (cbn; lia).
split; [exact H1|]. split; [exact H2|]. split; [exact H3|]. split; [exact H4|].
destruct (@issue_all_distinct_tids sample_env sample_calls st H1 H2 H3 H4)
  as (st' & Hrun & Hn & _).
exists st'. split; [exact Hrun|]. rewrite Hn. reflexivity.
Defined.
